(** * HoloForge hand-tracking service: gesture-to-input-event synthesis

    A shallow embedding of [src/services/handTrackingService.ts]: the
    per-frame [detectLoop] of [HandTrackingService], its dispatch helpers,
    the scroll-target resolver [getScrollParent] and [disconnect].

    Numbers.  A JavaScript number is an IEEE 754 binary64 value, so screen
    coordinates, landmark coordinates and hand scale are primitive floats
    and every arithmetic operation below is the rounded binary64 one.
    [Date.now()] yields an integral number of milliseconds; differences and
    comparisons of such values are exact in binary64 below 2^53, so the
    wall clock is embedded in [Z].  Element box sizes are integers as well. *)

From Stdlib Require Import Floats ZArith QArith Qabs Qpower List String Bool Lia Lqa.
Import ListNotations.

Set Warnings "-inexact-float,-register-all".

(** ** Arithmetic shared by the binary64 engine and its exact reading *)

(** The two arithmetic formulas of the smoother are written once, over the
    operations they use.  The engine runs them at binary64; the exact
    rationals serve only to state in which direction the mirror turns. *)
Module Num.
Class Ops (N : Type) : Type := {
  one : N;
  add : N -> N -> N;
  sub : N -> N -> N;
  mul : N -> N -> N
}.
End Num.

#[export] Instance float_ops : Num.Ops float := {|
  Num.one := 1%float;
  Num.add := PrimFloat.add;
  Num.sub := PrimFloat.sub;
  Num.mul := PrimFloat.mul
|}.

#[export] Instance Q_ops : Num.Ops Q := {|
  Num.one := 1%Q;
  Num.add := Qplus;
  Num.sub := Qminus;
  Num.mul := Qmult
|}.

(** [cursor += (target - cursor) * smoothing] (lines 108-109): the new
    cursor coordinate. *)
Definition lerp {N : Type} `{Num.Ops N} (smoothing cursor target : N) : N :=
  Num.add cursor (Num.mul (Num.sub target cursor) smoothing).

(** [(1 - indexTip.x) * window.innerWidth] (line 100). *)
Definition mirror {N : Type} `{Num.Ops N} (x extent : N) : N :=
  Num.mul (Num.sub Num.one x) extent.

(** The cursor after [n] frames that all aim at the same [target]. *)
Definition lerp_iter {N : Type} `{Num.Ops N} (smoothing target : N) (n : nat) (cursor : N) : N :=
  Nat.iter n (fun c => lerp smoothing c target) cursor.

(** ** Data model *)

Module Landmark.
(** A [NormalizedLandmark] of the detector: the two coordinates the
    service reads. *)
Record t : Type := mk { x : float; y : float }.
End Landmark.

(** One detected hand: [result.landmarks[i]], an array of landmarks. *)
Definition Hand : Type := list Landmark.t.

Inductive Gesture : Type := OPEN | PINCH | FIST | POINT | SCROLL.

Module CursorState.
(** [CursorState] of [types.ts], the value handed to the host callback. *)
Record t : Type := mk { x : float; y : float; isDown : bool; gesture : Gesture }.
End CursorState.

(** A DOM element as the service sees it: whether it is an [HTMLElement],
    its computed overflow, its scroll and client box, and its parent.
    The parent chain is part of the value, so it is finite. *)
Inductive Element : Type :=
  mkElement {
    nodeId : nat;
    isHTMLElement : bool;
    overflowY : string;
    overflowX : string;
    scrollHeight : Z;
    clientHeight : Z;
    scrollWidth : Z;
    clientWidth : Z;
    parentElement : option Element
  }.

(** The events the helpers construct, as the constructor calls they are:
    the kind of event, its type and the fields of the init dictionary it
    is constructed from.  The init fields that are the same on every
    event ([view], [bubbles], [cancelable], [pointerId], [width],
    [height], [isPrimary], [pointerType]) are left out. *)
Inductive Event : Type :=
| PointerEvent (type : string) (clientX clientY pressure : float) (button buttons : Z)
| WheelEvent (clientX clientY deltaY : float) (deltaMode : Z)
| MouseEvent (type : string) (clientX clientY : float).

Definition MediaStreamTrack : Type := nat.

(** The hidden [<video>] element: its identity and [srcObject], the
    tracks of the camera stream when one is attached. *)
Record Video : Type := mkVideo { videoId : nat; srcObject : option (list MediaStreamTrack) }.

Definition HandLandmarker : Type := nat.
Definition HandUpdateCallback : Type := nat.

(** What a method of the service does to the outside, in program order:
    calls of its own dispatch helpers, calls on host objects, and the
    host callback. *)
Inductive Effect : Type :=
| CallDispatchPointerEvent (type : string) (x y : float) (buttons : Z)
| CallDispatchWheelEvent (x y deltaY : float)
| CallDispatchClickEvent (x y : float)
| ScrollBy (scrollable : Element) (dx dy : float)
| Callback (cb : HandUpdateCallback) (data : CursorState.t)
| RequestAnimationFrame
| CancelAnimationFrame (id : Z)
| TrackStop (t : MediaStreamTrack)
| VideoRemove (v : Video)
| LandmarkerClose (h : HandLandmarker).

(** The fields of [HandTrackingService] that are assigned somewhere. *)
Record Engine : Type := mkEngine {
  handLandmarker : option HandLandmarker;
  video : option Video;
  animationId : option Z;
  lastVideoTime : float;
  callback : option HandUpdateCallback;
  cursorX : float;
  cursorY : float;
  targetX : float;
  targetY : float;
  wasPinching : bool;
  pinchStartTime : Z;
  isScrolling : bool;
  lastScrollX : float;
  lastScrollY : float;
  lastHandScale : float
}.

(** [private smoothing = 0.2] and [private zoomSensitivity = 3000] are
    never assigned after construction. *)
Definition smoothing : float := 0.2%float.
Definition zoomSensitivity : float := 3000%float.

(** The field initialisers of the class, for a window of the given inner
    size: a service on which [connect] was never called. *)
Definition newService (innerWidth innerHeight : float) : Engine := {|
  handLandmarker := None;
  video := None;
  animationId := None;
  lastVideoTime := (-1)%float;
  callback := None;
  cursorX := (innerWidth / 2)%float;
  cursorY := (innerHeight / 2)%float;
  targetX := (innerWidth / 2)%float;
  targetY := (innerHeight / 2)%float;
  wasPinching := false;
  pinchStartTime := 0%Z;
  isScrolling := false;
  lastScrollX := 0%float;
  lastScrollY := 0%float;
  lastHandScale := 0%float
|}.

(** Field assignments [this.f = v]. *)
Definition set_handLandmarker (v : option HandLandmarker) (e : Engine) : Engine :=
  mkEngine v (video e) (animationId e) (lastVideoTime e) (callback e) (cursorX e) (cursorY e)
    (targetX e) (targetY e) (wasPinching e) (pinchStartTime e) (isScrolling e)
    (lastScrollX e) (lastScrollY e) (lastHandScale e).
Definition set_video (v : option Video) (e : Engine) : Engine :=
  mkEngine (handLandmarker e) v (animationId e) (lastVideoTime e) (callback e) (cursorX e) (cursorY e)
    (targetX e) (targetY e) (wasPinching e) (pinchStartTime e) (isScrolling e)
    (lastScrollX e) (lastScrollY e) (lastHandScale e).
Definition set_animationId (v : option Z) (e : Engine) : Engine :=
  mkEngine (handLandmarker e) (video e) v (lastVideoTime e) (callback e) (cursorX e) (cursorY e)
    (targetX e) (targetY e) (wasPinching e) (pinchStartTime e) (isScrolling e)
    (lastScrollX e) (lastScrollY e) (lastHandScale e).
Definition set_lastVideoTime (v : float) (e : Engine) : Engine :=
  mkEngine (handLandmarker e) (video e) (animationId e) v (callback e) (cursorX e) (cursorY e)
    (targetX e) (targetY e) (wasPinching e) (pinchStartTime e) (isScrolling e)
    (lastScrollX e) (lastScrollY e) (lastHandScale e).
Definition set_callback (v : option HandUpdateCallback) (e : Engine) : Engine :=
  mkEngine (handLandmarker e) (video e) (animationId e) (lastVideoTime e) v (cursorX e) (cursorY e)
    (targetX e) (targetY e) (wasPinching e) (pinchStartTime e) (isScrolling e)
    (lastScrollX e) (lastScrollY e) (lastHandScale e).
Definition set_cursorX (v : float) (e : Engine) : Engine :=
  mkEngine (handLandmarker e) (video e) (animationId e) (lastVideoTime e) (callback e) v (cursorY e)
    (targetX e) (targetY e) (wasPinching e) (pinchStartTime e) (isScrolling e)
    (lastScrollX e) (lastScrollY e) (lastHandScale e).
Definition set_cursorY (v : float) (e : Engine) : Engine :=
  mkEngine (handLandmarker e) (video e) (animationId e) (lastVideoTime e) (callback e) (cursorX e) v
    (targetX e) (targetY e) (wasPinching e) (pinchStartTime e) (isScrolling e)
    (lastScrollX e) (lastScrollY e) (lastHandScale e).
Definition set_targetX (v : float) (e : Engine) : Engine :=
  mkEngine (handLandmarker e) (video e) (animationId e) (lastVideoTime e) (callback e) (cursorX e) (cursorY e)
    v (targetY e) (wasPinching e) (pinchStartTime e) (isScrolling e)
    (lastScrollX e) (lastScrollY e) (lastHandScale e).
Definition set_targetY (v : float) (e : Engine) : Engine :=
  mkEngine (handLandmarker e) (video e) (animationId e) (lastVideoTime e) (callback e) (cursorX e) (cursorY e)
    (targetX e) v (wasPinching e) (pinchStartTime e) (isScrolling e)
    (lastScrollX e) (lastScrollY e) (lastHandScale e).
Definition set_wasPinching (v : bool) (e : Engine) : Engine :=
  mkEngine (handLandmarker e) (video e) (animationId e) (lastVideoTime e) (callback e) (cursorX e) (cursorY e)
    (targetX e) (targetY e) v (pinchStartTime e) (isScrolling e)
    (lastScrollX e) (lastScrollY e) (lastHandScale e).
Definition set_pinchStartTime (v : Z) (e : Engine) : Engine :=
  mkEngine (handLandmarker e) (video e) (animationId e) (lastVideoTime e) (callback e) (cursorX e) (cursorY e)
    (targetX e) (targetY e) (wasPinching e) v (isScrolling e)
    (lastScrollX e) (lastScrollY e) (lastHandScale e).
Definition set_isScrolling (v : bool) (e : Engine) : Engine :=
  mkEngine (handLandmarker e) (video e) (animationId e) (lastVideoTime e) (callback e) (cursorX e) (cursorY e)
    (targetX e) (targetY e) (wasPinching e) (pinchStartTime e) v
    (lastScrollX e) (lastScrollY e) (lastHandScale e).
Definition set_lastScrollX (v : float) (e : Engine) : Engine :=
  mkEngine (handLandmarker e) (video e) (animationId e) (lastVideoTime e) (callback e) (cursorX e) (cursorY e)
    (targetX e) (targetY e) (wasPinching e) (pinchStartTime e) (isScrolling e)
    v (lastScrollY e) (lastHandScale e).
Definition set_lastScrollY (v : float) (e : Engine) : Engine :=
  mkEngine (handLandmarker e) (video e) (animationId e) (lastVideoTime e) (callback e) (cursorX e) (cursorY e)
    (targetX e) (targetY e) (wasPinching e) (pinchStartTime e) (isScrolling e)
    (lastScrollX e) v (lastHandScale e).
Definition set_lastHandScale (v : float) (e : Engine) : Engine :=
  mkEngine (handLandmarker e) (video e) (animationId e) (lastVideoTime e) (callback e) (cursorX e) (cursorY e)
    (targetX e) (targetY e) (wasPinching e) (pinchStartTime e) (isScrolling e)
    (lastScrollX e) (lastScrollY e) v.

(** ** The environment of one animation frame *)

(** Everything [detectLoop] reads from outside the service during one
    call: the window size, the video clock, the detector's answer for the
    current frame ([detectForVideo(...).landmarks], one entry per hand),
    the wall clock [Date.now()], the hit test of the live document and
    the handle [requestAnimationFrame] returns.  [performance.now()] is
    only handed to the detector and is not represented.  The document is
    taken to be the same for every hit test of one call: what listeners
    do with the dispatched events is outside the service. *)
Record Tick : Type := mkTick {
  innerWidth : float;
  innerHeight : float;
  currentTime : float;
  landmarks : list Hand;
  now : Z;
  elementFromPoint : float -> float -> option Element;
  frameHandle : Z
}.

(** ** Method bodies as state-passing computations *)

(** The result of running a method: its completion ([None] when a
    [TypeError] was thrown by a property access on [undefined]), the
    fields of the service at that point and the effects performed so far. *)
Record Result (A : Type) : Type := mkResult {
  completion : option A;
  final : Engine;
  trace : list Effect
}.
Arguments mkResult {A} _ _ _.
Arguments completion {A} _.
Arguments final {A} _.
Arguments trace {A} _.

Definition M (A : Type) : Type := Engine -> Result A.

Definition ret {A : Type} (a : A) : M A := fun this => mkResult (Some a) this [].

Definition bind {A B : Type} (m : M A) (k : A -> M B) : M B :=
  fun this =>
    match m this with
    | mkResult (Some a) this' t =>
        match k a this' with
        | mkResult c this'' t' => mkResult c this'' (t ++ t')
        end
    | mkResult None this' t => mkResult None this' t
    end.

Declare Scope js_scope.
Delimit Scope js_scope with js.
Notation "x <- m ;; k" := (bind m (fun x => k))
  (at level 61, m at next level, right associativity) : js_scope.
Notation "m ;; k" := (bind m (fun _ => k))
  (at level 61, right associativity) : js_scope.

(** Read the fields of [this]. *)
Definition get : M Engine := fun this => mkResult (Some this) this [].
(** Assign fields of [this]. *)
Definition modify (f : Engine -> Engine) : M unit := fun this => mkResult (Some tt) (f this) [].
(** Perform an effect. *)
Definition emit (e : Effect) : M unit := fun this => mkResult (Some tt) this [e].
(** A property access on a value that may be [undefined]. *)
Definition defined {A : Type} (v : option A) : M A :=
  fun this => mkResult v this [].
(** [if (c) { body }] *)
Definition when (c : bool) (body : M unit) : M unit := if c then body else ret tt.

(** JavaScript truthiness of a number. *)
Definition truthy (n : Z) : bool := negb (n =? 0)%Z.

(** ** The dispatch helpers (lines 223-276) *)

(** Each helper hit-tests the point and, when an element is there,
    constructs one event and dispatches it to that element; with no
    element it does nothing. *)
Definition dispatchPointerEvent (efp : float -> float -> option Element)
    (type : string) (x y : float) (buttons : Z) : option (Element * Event) :=
  match efp x y with
  | Some element =>
      Some (element,
            PointerEvent type x y
              (if truthy buttons then 0.5%float else 0%float)
              (if truthy buttons then 0%Z else (-1)%Z)
              buttons)
  | None => None
  end.

Definition dispatchWheelEvent (efp : float -> float -> option Element)
    (x y deltaY : float) : option (Element * Event) :=
  match efp x y with
  | Some element => Some (element, WheelEvent x y deltaY 0%Z)
  | None => None
  end.

Definition dispatchClickEvent (efp : float -> float -> option Element)
    (x y : float) : option (Element * Event) :=
  match efp x y with
  | Some element => Some (element, MouseEvent "click" x y)
  | None => None
  end.

(** The event an effect delivers to the document, if any. *)
Definition delivery (efp : float -> float -> option Element) (e : Effect) : option (Element * Event) :=
  match e with
  | CallDispatchPointerEvent type x y buttons => dispatchPointerEvent efp type x y buttons
  | CallDispatchWheelEvent x y deltaY => dispatchWheelEvent efp x y deltaY
  | CallDispatchClickEvent x y => dispatchClickEvent efp x y
  | _ => None
  end.

(** All events a trace delivers, in order. *)
Fixpoint deliveries (efp : float -> float -> option Element) (t : list Effect) : list (Element * Event) :=
  match t with
  | [] => []
  | e :: t' =>
      match delivery efp e with
      | Some d => d :: deliveries efp t'
      | None => deliveries efp t'
      end
  end.

(** ** The scroll-target resolver (lines 278-292) *)

Definition isScrollable (node : Element) : bool :=
  (negb (overflowY node =? "visible")%string && negb (overflowY node =? "hidden")%string)
  || (negb (overflowX node =? "visible")%string && negb (overflowX node =? "hidden")%string).

(** The test of line 287 together with the [instanceof HTMLElement] guard. *)
Definition scrollTarget (node : Element) : bool :=
  isHTMLElement node
  && (isScrollable node
      && ((clientHeight node <? scrollHeight node)%Z || (clientWidth node <? scrollWidth node)%Z)).

(** The recursion of [getScrollParent] from a non-null node. *)
Fixpoint getScrollParentFrom (node : Element) : option Element :=
  if scrollTarget node then Some node
  else
    match node with
    | mkElement _ _ _ _ _ _ _ _ parent =>
        match parent with
        | Some p => getScrollParentFrom p
        | None => None
        end
    end.

Definition getScrollParent (node : option Element) : option Element :=
  match node with
  | None => None
  | Some n => getScrollParentFrom n
  end.

(** ** [detectLoop] (lines 84-221) *)

Local Open Scope js_scope.

(** [Math.pow(v, 2)]: the square, one rounded multiplication. *)
Definition pow2 (v : float) : float := (v * v)%float.

(** [Math.sqrt(dx*dx + dy*dy)] of lines 112-114 for the two fingertips. *)
Definition pinchDistance (indexTip thumbTip : Landmark.t) : float :=
  let dx := (Landmark.x indexTip - Landmark.x thumbTip)%float in
  let dy := (Landmark.y indexTip - Landmark.y thumbTip)%float in
  PrimFloat.sqrt (dx * dx + dy * dy)%float.

(** Lines 123-126: the distance from the wrist to the middle-finger base. *)
Definition handScale (wrist middleMCP : Landmark.t) : float :=
  PrimFloat.sqrt
    (pow2 (Landmark.x middleMCP - Landmark.x wrist) + pow2 (Landmark.y middleMCP - Landmark.y wrist))%float.

(** Lines 154-184: the body of [if (duration > 2000)] in the pinch-hold
    branch.  It returns the new value of the local [gesture]. *)
Definition scrollZoom (env : Tick) (currentScale : float) : M Gesture :=
  modify (set_isScrolling true) ;;
  this <- get ;;
  let deltaX := (cursorX this - lastScrollX this)%float in
  let deltaY := (cursorY this - lastScrollY this)%float in
  when ((1 <? PrimFloat.abs deltaX)%float || (1 <? PrimFloat.abs deltaY)%float)
    (let element := elementFromPoint env (cursorX this) (cursorY this) in
     match getScrollParent element with
     | Some scrollable => emit (ScrollBy scrollable (deltaX * -1.5) (deltaY * -1.5))
     | None => ret tt
     end) ;;
  let scaleDelta := (currentScale - lastHandScale this)%float in
  when (0.002 <? PrimFloat.abs scaleDelta)%float
    (let wheelDelta := (- scaleDelta * zoomSensitivity)%float in
     emit (CallDispatchWheelEvent (cursorX this) (cursorY this) wheelDelta)) ;;
  ret SCROLL.

(** Lines 92-216: the body of [if (result.landmarks.length > 0)], for the
    first detected hand. *)
Definition trackHand (env : Tick) (hand : Hand) : M unit :=
  (* Landmark 8 is index finger tip, landmark 4 is thumb tip *)
  indexTip <- defined (nth_error hand 8) ;;
  (* Mirror X coordinates *)
  let rawX := mirror (Landmark.x indexTip) (innerWidth env) in
  let rawY := (Landmark.y indexTip * innerHeight env)%float in
  (* Update targets *)
  modify (set_targetX rawX) ;;
  modify (set_targetY rawY) ;;
  (* Apply linear interpolation for smoothing *)
  modify (fun this => set_cursorX (lerp smoothing (cursorX this) (targetX this)) this) ;;
  modify (fun this => set_cursorY (lerp smoothing (cursorY this) (targetY this)) this) ;;
  (* Calculate distance for pinch detection *)
  thumbTip <- defined (nth_error hand 4) ;;
  let distance := pinchDistance indexTip thumbTip in
  let isPinching := (distance <? 0.06)%float in
  (* Calculate hand scale for zoom *)
  middleMCP <- defined (nth_error hand 9) ;;
  wrist <- defined (nth_error hand 0) ;;
  let currentScale := handScale wrist middleMCP in
  let now := now env in
  let gesture := if isPinching then PINCH else OPEN in
  (* Pointer move dispatch (every frame) *)
  this <- get ;;
  emit (CallDispatchPointerEvent "pointermove" (cursorX this) (cursorY this)
          (if isPinching then 1 else 0)%Z) ;;
  (* 1. Pinch start *)
  this <- get ;;
  when (isPinching && negb (wasPinching this))
    (modify (set_pinchStartTime now) ;;
     modify (set_isScrolling false) ;;
     modify (fun this => set_lastScrollX (cursorX this) this) ;;
     modify (fun this => set_lastScrollY (cursorY this) this) ;;
     modify (set_lastHandScale currentScale) ;;
     this <- get ;;
     emit (CallDispatchPointerEvent "pointerdown" (cursorX this) (cursorY this) 1%Z)) ;;
  (* 2. Pinch hold *)
  this <- get ;;
  gesture <-
    (if isPinching && wasPinching this then
       let duration := (now - pinchStartTime this)%Z in
       gesture <- (if (2000 <? duration)%Z then scrollZoom env currentScale else ret gesture) ;;
       modify (fun this => set_lastScrollX (cursorX this) this) ;;
       modify (fun this => set_lastScrollY (cursorY this) this) ;;
       modify (set_lastHandScale currentScale) ;;
       ret gesture
     else ret gesture) ;;
  (* 3. Pinch release *)
  this <- get ;;
  when (negb isPinching && wasPinching this)
    (let duration := (now - pinchStartTime this)%Z in
     emit (CallDispatchPointerEvent "pointerup" (cursorX this) (cursorY this) 0%Z) ;;
     when (negb (isScrolling this) && (200 <? duration)%Z && (duration <? 1800)%Z)
       (emit (CallDispatchClickEvent (cursorX this) (cursorY this))) ;;
     modify (set_isScrolling false)) ;;
  modify (set_wasPinching isPinching) ;;
  (* Send update *)
  this <- get ;;
  match callback this with
  | Some cb =>
      emit (Callback cb (CursorState.mk (cursorX this) (cursorY this) isPinching gesture))
  | None => ret tt
  end.

(** One call of [detectLoop].  The detector is run (and its answer
    [landmarks env] looked at) only when both the video element and the
    landmarker exist and the video clock has moved. *)
Definition detectLoop (env : Tick) : M unit :=
  this <- get ;;
  when (match video this, handLandmarker this with Some _, Some _ => true | _, _ => false end)
    (when (negb (currentTime env =? lastVideoTime this)%float)
       (modify (set_lastVideoTime (currentTime env)) ;;
        match landmarks env with
        | hand :: _ => trackHand env hand
        | [] => ret tt
        end)) ;;
  emit RequestAnimationFrame ;;
  modify (set_animationId (Some (frameHandle env))).

(** ** [disconnect] (lines 294-304) *)

Definition disconnect : M unit :=
  this <- get ;;
  match animationId this with
  | Some id => when (truthy id) (emit (CancelAnimationFrame id))
  | None => ret tt
  end ;;
  match video this with
  | Some v =>
      match srcObject v with
      | Some tracks => fold_right (fun t k => emit (TrackStop t) ;; k) (ret tt) tracks
      | None => ret tt
      end ;;
      emit (VideoRemove v) ;;
      modify (set_video None)
  | None => ret tt
  end ;;
  match handLandmarker this with
  | Some h => emit (LandmarkerClose h)
  | None => ret tt
  end ;;
  modify (set_handLandmarker None).

(** The assignments of a [connect] whose initialisation succeeds, up to
    the first call of [detectLoop]. *)
Definition connected (onUpdate : HandUpdateCallback) (h : HandLandmarker) (v : Video)
    (e : Engine) : Engine :=
  set_video (Some v) (set_handLandmarker (Some h) (set_callback (Some onUpdate) e)).

(** ** Running frames *)

(** The service after a call of [detectLoop], and what the call did. *)
Definition frame (env : Tick) (this : Engine) : Engine := final (detectLoop env this).
Definition effects (env : Tick) (this : Engine) : list Effect := trace (detectLoop env this).
Definition returns (env : Tick) (this : Engine) : bool :=
  match completion (detectLoop env this) with Some _ => true | None => false end.

(** The service after a sequence of frames. *)
Fixpoint frames (envs : list Tick) (this : Engine) : Engine :=
  match envs with
  | [] => this
  | env :: rest => frames rest (frame env this)
  end.

(** Everything a sequence of frames did, in order. *)
Fixpoint session (envs : list Tick) (this : Engine) : list Effect :=
  match envs with
  | [] => []
  | env :: rest => effects env this ++ session rest (frame env this)
  end.

(** ** Reading a frame *)

(** The hand a call of [detectLoop] works on, if it works on one: the
    first hand of the detector's answer, provided the video element and
    the landmarker exist and the video clock differs from the last one
    seen.  [None] is a frame with no detected hand. *)
Definition tracked (env : Tick) (this : Engine) : option Hand :=
  match video this, handLandmarker this with
  | Some _, Some _ =>
      if (currentTime env =? lastVideoTime this)%float then None else hd_error (landmarks env)
  | _, _ => None
  end.

(** The four landmarks the service reads: wrist (0), thumb tip (4),
    index-finger tip (8) and middle-finger base (9). *)
Record Points : Type := mkPoints {
  wrist : Landmark.t;
  thumbTip : Landmark.t;
  indexTip : Landmark.t;
  middleMCP : Landmark.t
}.

Definition points (hand : Hand) : option Points :=
  match nth_error hand 0, nth_error hand 4, nth_error hand 8, nth_error hand 9 with
  | Some w, Some t, Some i, Some m => Some (mkPoints w t i m)
  | _, _, _, _ => None
  end.

(** The landmarks of the hand this call works on; [None] when no hand is
    tracked or the hand lacks one of the four landmarks. *)
Definition sees (env : Tick) (this : Engine) : option Points :=
  match tracked env this with
  | Some hand => points hand
  | None => None
  end.

(** The same frame against another document. *)
Definition withDocument (efp : float -> float -> option Element) (env : Tick) : Tick :=
  mkTick (innerWidth env) (innerHeight env) (currentTime env) (landmarks env) (now env) efp
    (frameHandle env).

(** A node followed by its chain of parents, nearest first. *)
Fixpoint ancestors (node : Element) : list Element :=
  node ::
  match node with
  | mkElement _ _ _ _ _ _ _ _ parent =>
      match parent with
      | Some p => ancestors p
      | None => []
      end
  end.

(** ** Reading a trace *)

Definition isClickCall (e : Effect) : bool :=
  match e with CallDispatchClickEvent _ _ => true | _ => false end.
Definition isWheelCall (e : Effect) : bool :=
  match e with CallDispatchWheelEvent _ _ _ => true | _ => false end.
Definition isScrollBy (e : Effect) : bool :=
  match e with ScrollBy _ _ _ => true | _ => false end.

(** The calls of [dispatchClickEvent], of [dispatchWheelEvent] and of
    [scrollBy] in a trace. *)
Definition clickCalls (t : list Effect) : list Effect := filter isClickCall t.
Definition wheelCalls (t : list Effect) : list Effect := filter isWheelCall t.
Definition scrollCalls (t : list Effect) : list Effect := filter isScrollBy t.

(** The calls that act on the document: everything but the host callback
    and the request for the next frame. *)
Definition actsOnDocument (e : Effect) : bool :=
  match e with
  | Callback _ _ | RequestAnimationFrame => false
  | _ => true
  end.

Definition isPointerMove (e : Effect) : bool :=
  match e with
  | CallDispatchPointerEvent type _ _ _ => (type =? "pointermove")%string
  | _ => false
  end.

(** What the host callback was handed. *)
Fixpoint reports (t : list Effect) : list CursorState.t :=
  match t with
  | [] => []
  | Callback _ data :: t' => data :: reports t'
  | _ :: t' => reports t'
  end.

Definition isWheelEvent (d : Element * Event) : bool :=
  match snd d with WheelEvent _ _ _ _ => true | _ => false end.
Definition isClickEvent (d : Element * Event) : bool :=
  match snd d with MouseEvent _ _ _ => true | _ => false end.

(** ** The frame in closed form *)

(** The values one tracked frame computes, as functions of the frame's
    environment, the service before the call and the hand's landmarks.
    Lemma [detectLoop_tracked] below proves that [detectLoop] produces
    exactly [trackedEngine] and [trackedTrace]. *)
Section ClosedForm.
Variables (env : Tick) (this : Engine) (p : Points).

(** The cursor after smoothing. *)
Definition movedX : float :=
  lerp smoothing (cursorX this) (mirror (Landmark.x (indexTip p)) (innerWidth env)).
Definition movedY : float :=
  lerp smoothing (cursorY this) (Landmark.y (indexTip p) * innerHeight env)%float.
(** [isPinching]. *)
Definition pinching : bool := (pinchDistance (indexTip p) (thumbTip p) <? 0.06)%float.
(** [duration = now - this.pinchStartTime]. *)
Definition held : Z := (now env - pinchStartTime this)%Z.
Definition panDeltaX : float := (movedX - lastScrollX this)%float.
Definition panDeltaY : float := (movedY - lastScrollY this)%float.
Definition scaleDelta : float := (handScale (wrist p) (middleMCP p) - lastHandScale this)%float.

Definition panCalls : list Effect :=
  if (1 <? PrimFloat.abs panDeltaX)%float || (1 <? PrimFloat.abs panDeltaY)%float then
    match getScrollParent (elementFromPoint env movedX movedY) with
    | Some scrollable => [ScrollBy scrollable (panDeltaX * -1.5) (panDeltaY * -1.5)]
    | None => []
    end
  else [].

Definition zoomCalls : list Effect :=
  if (0.002 <? PrimFloat.abs scaleDelta)%float
  then [CallDispatchWheelEvent movedX movedY (- scaleDelta * zoomSensitivity)]
  else [].

Definition releaseClick : list Effect :=
  if negb (isScrolling this) && (200 <? held)%Z && (held <? 1800)%Z
  then [CallDispatchClickEvent movedX movedY]
  else [].

Definition reported : Gesture :=
  if pinching then (if wasPinching this && (2000 <? held)%Z then SCROLL else PINCH) else OPEN.

Definition updateCalls : list Effect :=
  match callback this with
  | Some cb => [Callback cb (CursorState.mk movedX movedY pinching reported)]
  | None => []
  end.

Definition trackedTrace : list Effect :=
  CallDispatchPointerEvent "pointermove" movedX movedY (if pinching then 1 else 0)%Z
  :: (if pinching && negb (wasPinching this)
      then [CallDispatchPointerEvent "pointerdown" movedX movedY 1%Z] else [])
  ++ (if pinching && wasPinching this && (2000 <? held)%Z then panCalls ++ zoomCalls else [])
  ++ (if negb pinching && wasPinching this
      then CallDispatchPointerEvent "pointerup" movedX movedY 0%Z :: releaseClick else [])
  ++ updateCalls ++ [RequestAnimationFrame].

Definition trackedEngine : Engine := {|
  handLandmarker := handLandmarker this;
  video := video this;
  animationId := Some (frameHandle env);
  lastVideoTime := currentTime env;
  callback := callback this;
  cursorX := movedX;
  cursorY := movedY;
  targetX := mirror (Landmark.x (indexTip p)) (innerWidth env);
  targetY := (Landmark.y (indexTip p) * innerHeight env)%float;
  wasPinching := pinching;
  pinchStartTime := if pinching && negb (wasPinching this) then now env else pinchStartTime this;
  isScrolling :=
    if pinching
    then (if wasPinching this then (if (2000 <? held)%Z then true else isScrolling this) else false)
    else (if wasPinching this then false else isScrolling this);
  lastScrollX := if pinching then movedX else lastScrollX this;
  lastScrollY := if pinching then movedY else lastScrollY this;
  lastHandScale := if pinching then handScale (wrist p) (middleMCP p) else lastHandScale this
|}.

(** A frame with no tracked hand: only the video clock (when the detector
    was consulted) and the animation handle change. *)
Definition untrackedEngine : Engine :=
  set_animationId (Some (frameHandle env))
    (match video this, handLandmarker this with
     | Some _, Some _ =>
         if (currentTime env =? lastVideoTime this)%float then this
         else set_lastVideoTime (currentTime env) this
     | _, _ => this
     end).
End ClosedForm.

(** ** Pinch sessions *)

(** What a frame is to the state machine. *)
Inductive Kind : Type := Untracked | Malformed | Pinched | Opened.

Definition kind (env : Tick) (this : Engine) : Kind :=
  match tracked env this with
  | None => Untracked
  | Some hand =>
      match points hand with
      | None => Malformed
      | Some p => if pinching p then Pinched else Opened
      end
  end.

(** The pinch is kept through these frames (each one either tracks no
    hand or sees a pinching hand). *)
Fixpoint sustains (envs : list Tick) (this : Engine) : bool :=
  match envs with
  | [] => true
  | env :: rest =>
      match kind env this with
      | Untracked | Pinched => sustains rest (frame env this)
      | _ => false
      end
  end.

(** The pinch is kept through these frames and no frame sees it held for
    more than the 2000 ms that start scroll mode. *)
Fixpoint dwells (envs : list Tick) (this : Engine) : bool :=
  match envs with
  | [] => true
  | env :: rest =>
      match kind env this with
      | Untracked => dwells rest (frame env this)
      | Pinched => (held env this <=? 2000)%Z && dwells rest (frame env this)
      | _ => false
      end
  end.

(** Every one of these frames tracks a hand whose index fingertip asks
    for the same raw target [(tx, ty)]. *)
Fixpoint aimsAt (tx ty : float) (envs : list Tick) (this : Engine) : Prop :=
  match envs with
  | [] => True
  | env :: rest =>
      (exists p, sees env this = Some p
                 /\ mirror (Landmark.x (indexTip p)) (innerWidth env) = tx
                 /\ (Landmark.y (indexTip p) * innerHeight env)%float = ty)
      /\ aimsAt tx ty rest (frame env this)
  end.

(** ** The value of a binary64 number *)

(** The smoother computes in binary64: every difference, product and sum
    is the exact result, rounded.  [Prim2SF] is the standard library's
    decoding of a binary64 number into sign, mantissa and exponent,
    [m * 2^e] with [e >= -1074] when the number is finite.  To say where
    a rounded result lies, finite numbers are counted in units of
    [2^-2148], of which the exact product of two of them is a whole
    number as well. *)
Section BinaryValue.
Open Scope Z_scope.

Definition twoTo (n : Z) : Z := 2 ^ n.

(** What a right shift has lost so far: the round bit or the sticky bit
    is set. *)
Definition inexact (mrs : shr_record) : bool := shr_r mrs || shr_s mrs.

Definition finiteSF (x : spec_float) : bool :=
  match x with S754_zero _ | S754_finite _ _ _ => true | _ => false end.

(** Magnitude and value of a finite number, in units of [2^-2148]. *)
Definition mag (x : spec_float) : Z :=
  match x with S754_finite _ m e => Zpos m * twoTo (e + 2148) | _ => 0 end.

Definition units (x : spec_float) : Z :=
  match x with
  | S754_finite true m e => - (Zpos m * twoTo (e + 2148))
  | S754_finite false m e => Zpos m * twoTo (e + 2148)
  | _ => 0
  end.

Definition hasSign (s : bool) (x : spec_float) : Prop :=
  match x with
  | S754_zero s' | S754_infinity s' | S754_finite s' _ _ => s' = s
  | S754_nan => False
  end.

(** A magnitude a binary64 number can have: at most 53 digits of
    mantissa, exponent between -1074 and 971. *)
Definition rep (Y : Z) : Prop :=
  exists my ey, 0 <= my < twoTo 53 /\ -1074 <= ey <= 971 /\ Y = my * twoTo (ey + 2148).

(** The same with the mantissa normalised, as every finite binary64
    number has it: 53 digits unless the exponent is the least one. *)
Definition crep (V : Z) : Prop :=
  exists mv ev,
    0 <= mv < twoTo 53 /\ -1074 <= ev <= 971 /\ (ev = -1074 \/ twoTo 52 <= mv)
    /\ Z.abs V = mv * twoTo (ev + 2148).

(** [R] is [X] rounded down or up to a binary64 value: no binary64 value
    lies strictly between them. *)
Definition faithful (R X : Z) : Prop :=
  forall Y, rep (Z.abs Y) -> (X <= Y -> R <= Y) /\ (Y <= X -> Y <= R).

Definition finite (v : float) : bool := finiteSF (Prim2SF v).
Definition value (v : float) : Z := units (Prim2SF v).
End BinaryValue.

(** A coordinate of magnitude at most [2^1022] (about 4.49e307): the
    difference of two of them does not overflow. *)
Definition inRange (v : float) : bool := (PrimFloat.abs v <=? 0x1p1022)%float.

(** The number a finite binary64 value denotes. *)
Definition exact (v : float) : Q :=
  match Prim2SF v with
  | S754_finite s m e => ((if s then -1 else 1) * (inject_Z (Zpos m) * 2 ^ e))%Q
  | _ => 0%Q
  end.

(** The cursor coordinate [after] lies between [before] and [target] in
    the order of binary64, [before] and [target] are comparable, [after]
    is not farther from [target] than [before] was, and it is nearer
    when the cursor has moved at all. *)
Definition approaches (target before after : float) : Prop :=
  ((before <=? target)%float = true ->
   (before <=? after)%float = true /\ (after <=? target)%float = true)
  /\ ((target <=? before)%float = true ->
      (target <=? after)%float = true /\ (after <=? before)%float = true)
  /\ ((before <=? target)%float = true \/ (target <=? before)%float = true)
  /\ (Qabs (exact target - exact after) <= Qabs (exact target - exact before))%Q
  /\ ((before =? after)%float = false ->
      (Qabs (exact target - exact after) < Qabs (exact target - exact before))%Q).

(** ** A concrete scene *)

(** A page that scrolls vertically, a canvas inside it, and a panel with
    no scrollable ancestor. *)
Definition page : Element := mkElement 0 true "auto" "visible" 3000 720 1280 1280 None.
Definition canvas : Element := mkElement 1 true "visible" "visible" 720 720 1280 1280 (Some page).
Definition panel : Element := mkElement 2 true "hidden" "visible" 720 720 1280 1280 None.

(** Three documents: the canvas everywhere, the panel everywhere, and
    nothing under any point. *)
Definition onCanvas (x y : float) : option Element := Some canvas.
Definition onPanel (x y : float) : option Element := Some panel.
Definition offScreen (x y : float) : option Element := None.

(** A hand of 21 landmarks with the given wrist, thumb tip, index tip and
    middle-finger base. *)
Definition handOf (w t i m : Landmark.t) : Hand :=
  [w; w; w; w; t; w; w; w; i; m; w; w; w; w; w; w; w; w; w; w; w].

(** Index tip at (0.25, 0.5): the raw target is (960, 360) on a 1280x720
    window.  The thumb is 0.02 away (a pinch) or 0.2 away (open). *)
Definition pinchPoints : Points :=
  mkPoints (Landmark.mk 0.5 0.9) (Landmark.mk 0.27 0.5) (Landmark.mk 0.25 0.5) (Landmark.mk 0.5 0.7).
Definition closerPoints : Points :=
  mkPoints (Landmark.mk 0.5 0.9) (Landmark.mk 0.27 0.5) (Landmark.mk 0.25 0.5) (Landmark.mk 0.5 0.65).
Definition openPoints : Points :=
  mkPoints (Landmark.mk 0.5 0.9) (Landmark.mk 0.45 0.5) (Landmark.mk 0.25 0.5) (Landmark.mk 0.5 0.7).
(** Thumb exactly 0.06 away from the index tip. *)
Definition edgePoints : Points :=
  mkPoints (Landmark.mk 0.5 0.9) (Landmark.mk 0 0.5) (Landmark.mk 0.06 0.5) (Landmark.mk 0.5 0.7).
(** Thumb off the index tip on both axes: by 0.05 and 0.05 (about 0.071
    away, open although either difference alone is below 0.06), and by
    0.03 and 0.04 (0.05 away, a pinch). *)
Definition diagonalPoints : Points :=
  mkPoints (Landmark.mk 0.5 0.9) (Landmark.mk 0.3 0.55) (Landmark.mk 0.25 0.5) (Landmark.mk 0.5 0.7).
Definition slantedPoints : Points :=
  mkPoints (Landmark.mk 0.5 0.9) (Landmark.mk 0.28 0.54) (Landmark.mk 0.25 0.5) (Landmark.mk 0.5 0.7).

Definition handAt (p : Points) : Hand := handOf (wrist p) (thumbTip p) (indexTip p) (middleMCP p).

(** A frame on the 1280x720 window showing the canvas, at the given video
    clock and wall clock, with the given hands. *)
Definition tickAt (clock : float) (time : Z) (hands : list Hand) : Tick :=
  mkTick 1280 720 clock hands time onCanvas 1.

(** A connected service that has not run a frame yet. *)
Definition armed : Engine :=
  connected 7%nat 8%nat (mkVideo 9 (Some [1%nat; 2%nat])) (newService 1280 720).

(** A pinch that starts at 10000 ms and is seen again 500 ms later. *)
Definition pinchStart : Tick := tickAt 0.1 10000 [handAt pinchPoints].
Definition pinchHeld : Tick := tickAt 0.2 10500 [handAt pinchPoints].
Definition blankFrame : Tick := tickAt 0.25 10600 [].
(** Releases of that pinch after 200, 201, 800, 1799, 1800 and 1801 ms. *)
Definition releaseAfter (ms : Z) : Tick := tickAt 0.3 (10000 + ms) [handAt openPoints].
(** The pinch still held after exactly 2000 ms, and after 2500 ms with
    the hand closer to the camera. *)
Definition heldAt2000 : Tick := tickAt 0.3 12000 [handAt pinchPoints].
Definition heldAt2500 : Tick := tickAt 0.3 12500 [handAt closerPoints].
Definition heldAt2600 : Tick := tickAt 0.4 12600 [handAt closerPoints].
Definition releaseAt2800 : Tick := tickAt 0.5 12800 [handAt openPoints].
(** The service after the pinch has started and been held for 500 ms. *)
Definition holding : Engine := frames [pinchStart; pinchHeld] armed.

(** ** Reading whole runs *)

Definition isPointerDown (e : Effect) : bool :=
  match e with
  | CallDispatchPointerEvent type _ _ _ => (type =? "pointerdown")%string
  | _ => false
  end.
Definition isPointerUp (e : Effect) : bool :=
  match e with
  | CallDispatchPointerEvent type _ _ _ => (type =? "pointerup")%string
  | _ => false
  end.

(** How many effects of a trace pass a test. *)
Definition count (f : Effect -> bool) (t : list Effect) : nat := List.length (filter f t).

(** 1 for a pinch in progress, 0 otherwise. *)
Definition pressed (this : Engine) : nat := if wasPinching this then 1%nat else 0%nat.

(** The [clientX] and [clientY] an event is constructed with (the fields
    of its init dictionary). *)
Definition initPoint (ev : Event) : float * float :=
  match ev with
  | PointerEvent _ x y _ _ _ => (x, y)
  | WheelEvent x y _ _ => (x, y)
  | MouseEvent _ x y => (x, y)
  end.

(** ** [connect] (lines 31-82) *)

(** What the outside answers while [connect] runs: whether the vision
    fileset resolves, the landmarker [createFromOptions] resolves with
    ([None]: it rejects), the identity of the created [<video>], the
    tracks of the stream [getUserMedia] resolves with ([None]: it
    rejects), and whether [loadedmetadata] ever fires. *)
Record Setup : Type := mkSetup {
  vision : bool;
  created : option HandLandmarker;
  element : nat;
  stream : option (list MediaStreamTrack);
  loaded : bool
}.

(** What [connect] does to the outside besides what [detectLoop] does. *)
Inductive SetupEffect : Type :=
| AppendChild (videoId : nat)
| Play (videoId : nat)
| ConsoleLog
| ConsoleError
| Loop (e : Effect).

(** How [connect] ends: it logs success, it catches an error, or it stays
    suspended on an [await] that never resumes. *)
Inductive Outcome : Type := Initialized | Failed | Suspended.

(** [initializeHandTracking] (lines 43-55): [None] when one of its two
    awaits rejects. *)
Definition initializeHandTracking (s : Setup) (this : Engine) : option Engine :=
  if vision s then
    match created s with
    | Some h => Some (set_handLandmarker (Some h) this)
    | None => None
    end
  else None.

(** [startCamera] (lines 57-82).  The element is appended to the body
    before the camera is asked for; [this.video] is assigned last. *)
Definition startCamera (s : Setup) (this : Engine) : Outcome * Engine * list SetupEffect :=
  match stream s with
  | None => (Failed, this, [AppendChild (element s)])
  | Some tracks =>
      if loaded s then
        (Initialized, set_video (Some (mkVideo (element s) (Some tracks))) this,
         [AppendChild (element s); Play (element s)])
      else (Suspended, this, [AppendChild (element s)])
  end.

(** [connect], with no other call of the service between its awaits.
    [env] is the environment of the call of [detectLoop] it makes. *)
Definition connect (onUpdate : HandUpdateCallback) (s : Setup) (env : Tick) (this : Engine)
    : Outcome * Engine * list SetupEffect :=
  let this := set_callback (Some onUpdate) this in
  match initializeHandTracking s this with
  | None => (Failed, this, [ConsoleError])
  | Some this =>
      match startCamera s this with
      | (Initialized, this, setup) =>
          let r := detectLoop env this in
          match completion r with
          | Some _ => (Initialized, final r, setup ++ map Loop (trace r) ++ [ConsoleLog])
          | None => (Failed, final r, setup ++ map Loop (trace r) ++ [ConsoleError])
          end
      | (Failed, this, setup) => (Failed, this, setup ++ [ConsoleError])
      | (Suspended, this, setup) => (Suspended, this, setup)
      end
  end.

(** The service a call of [connect] leaves, and what [detectLoop] and
    [disconnect] did among its effects. *)
Definition connectedService (r : Outcome * Engine * list SetupEffect) : Engine := snd (fst r).
Fixpoint loopEffects (t : list SetupEffect) : list Effect :=
  match t with
  | [] => []
  | Loop e :: t' => e :: loopEffects t'
  | _ :: t' => loopEffects t'
  end.

(** Every step of the setup succeeds. *)
Definition ready (s : Setup) : bool :=
  vision s
  && match created s with Some _ => true | None => false end
  && match stream s with Some _ => true | None => false end
  && loaded s.

(** ** More of the concrete scene *)

(** A hand cut off after nine landmarks, and a frame showing it. *)
Definition shortHand : Hand := firstn 9 (handAt pinchPoints).
Definition shortFrame : Tick := tickAt 0.1 10000 [shortHand].
(** The frame [pinchStart] again, at the same video clock, with an open
    hand reported. *)
Definition repeatedFrame : Tick := tickAt 0.1 10050 [handAt openPoints].
(** Setups: everything succeeds; the landmarker cannot be created; the
    camera is refused. *)
Definition goodSetup : Setup := mkSetup true (Some 8%nat) 9 (Some [1%nat; 2%nat]) true.
Definition noLandmarker : Setup := mkSetup true None 9 (Some [1%nat; 2%nat]) true.
Definition noCamera : Setup := mkSetup true (Some 8%nat) 9 None true.

(** ** Shapes used in statements *)

(** The service when [trackHand] throws: as it was if the index tip is
    missing, with target and cursor already moved if a later landmark is. *)
Definition thrownEngine (env : Tick) (hand : Hand) (this : Engine) : Engine :=
  match nth_error hand 8 with
  | None => this
  | Some i =>
      set_cursorY (lerp smoothing (cursorY this) (Landmark.y i * innerHeight env)%float)
        (set_cursorX (lerp smoothing (cursorX this) (mirror (Landmark.x i) (innerWidth env)))
           (set_targetY (Landmark.y i * innerHeight env)%float
              (set_targetX (mirror (Landmark.x i) (innerWidth env)) this)))
  end.

(** What an event of the service looks like: a pointer event is either
    pressed (buttons 1, pressure 0.5, button 0, and not a pointerup) or
    unpressed (buttons 0, pressure 0, button -1, and not a pointerdown);
    a wheel event is in pixel mode; a mouse event is a click. *)
Definition wellFormed (ev : Event) : Prop :=
  match ev with
  | PointerEvent type _ _ pressure button buttons =>
      (buttons = 1%Z /\ pressure = 0.5%float /\ button = 0%Z /\ type <> "pointerup"%string)
      \/ (buttons = 0%Z /\ pressure = 0%float /\ button = (-1)%Z /\ type <> "pointerdown"%string)
  | WheelEvent _ _ _ deltaMode => deltaMode = 0%Z
  | MouseEvent type _ _ => type = "click"%string
  end.

(* ------------------------------------------------------------------ *)
(** * Proofs *)

(** ** Symbolic execution of method bodies *)

Ltac exec :=
  cbv [bind ret get modify emit defined when scrollZoom
       set_handLandmarker set_video set_animationId set_lastVideoTime set_callback set_cursorX
       set_cursorY set_targetX set_targetY set_wasPinching set_pinchStartTime set_isScrolling
       set_lastScrollX set_lastScrollY set_lastHandScale];
  cbn [completion final trace app andb orb negb
       handLandmarker video animationId lastVideoTime callback cursorX cursorY targetX targetY
       wasPinching pinchStartTime isScrolling lastScrollX lastScrollY lastHandScale].

Ltac cond_atom b :=
  lazymatch b with
  | andb ?x _ => cond_atom x
  | orb ?x _ => cond_atom x
  | negb ?x => cond_atom x
  | _ => b
  end.

Ltac split_cond :=
  match goal with
  | |- context [if ?b then _ else _] =>
      lazymatch type of b with
      | bool =>
          let a := cond_atom b in
          lazymatch a with
          | true => fail
          | false => fail
          | _ => destruct a eqn:?
          end
      end
  | |- context [match ?o with Some _ => _ | None => _ end] => destruct o eqn:?
  end.

Lemma points_nth (hand : Hand) (p : Points) :
  points hand = Some p ->
  nth_error hand 0 = Some (wrist p) /\ nth_error hand 4 = Some (thumbTip p)
  /\ nth_error hand 8 = Some (indexTip p) /\ nth_error hand 9 = Some (middleMCP p).
Proof.
  unfold points.
  destruct (nth_error hand 0), (nth_error hand 4), (nth_error hand 8), (nth_error hand 9);
    try discriminate.
  intros [= <-]. cbn. auto.
Qed.

Ltac fields :=
  cbn [handLandmarker video animationId lastVideoTime callback cursorX cursorY targetX targetY
       wasPinching pinchStartTime isScrolling lastScrollX lastScrollY lastHandScale] in *.

(** A tracked frame runs to completion and is exactly its closed form. *)
Lemma detectLoop_tracked (env : Tick) (this : Engine) (p : Points) :
  sees env this = Some p ->
  detectLoop env this = mkResult (Some tt) (trackedEngine env this p) (trackedTrace env this p).
Proof.
  unfold sees, tracked. intros Hs.
  unfold detectLoop, trackHand.
  unfold trackedEngine, trackedTrace, panCalls, zoomCalls, releaseClick, updateCalls, reported,
    panDeltaX, panDeltaY, scaleDelta, held, movedX, movedY, pinching.
  destruct this as [hl vid aid lvt cb cx cy tx ty wp pst sc lsx lsy lhs]; fields.
  destruct vid as [v|]; [|discriminate].
  destruct hl as [h|]; [|discriminate].
  destruct (currentTime env =? lvt)%float eqn:Ec; [discriminate|].
  destruct (landmarks env) as [|hand rest] eqn:Elm; [discriminate|].
  cbn [hd_error] in Hs. apply points_nth in Hs. destruct Hs as (H0 & H4 & H8 & H9).
  rewrite H0, H4, H8, H9.
  exec. rewrite Ec. exec.
  repeat (split_cond; exec); reflexivity.
Qed.

(** A frame with no tracked hand does nothing but re-arm the loop. *)
Lemma detectLoop_untracked (env : Tick) (this : Engine) :
  tracked env this = None ->
  detectLoop env this = mkResult (Some tt) (untrackedEngine env this) [RequestAnimationFrame].
Proof.
  unfold tracked, detectLoop, untrackedEngine. intros Ht.
  destruct this as [hl vid aid lvt cb cx cy tx ty wp pst sc lsx lsy lhs]; fields.
  exec.
  destruct vid; [|reflexivity].
  destruct hl; [|reflexivity].
  destruct (currentTime env =? lvt)%float; [reflexivity|].
  destruct (landmarks env); [reflexivity|discriminate].
Qed.

Lemma frame_tracked (env : Tick) (this : Engine) (p : Points) :
  sees env this = Some p -> frame env this = trackedEngine env this p.
Proof. intros H. unfold frame. now rewrite (detectLoop_tracked env this p H). Qed.

Lemma effects_tracked (env : Tick) (this : Engine) (p : Points) :
  sees env this = Some p -> effects env this = trackedTrace env this p.
Proof. intros H. unfold effects. now rewrite (detectLoop_tracked env this p H). Qed.

Lemma returns_tracked (env : Tick) (this : Engine) (p : Points) :
  sees env this = Some p -> returns env this = true.
Proof. intros H. unfold returns. now rewrite (detectLoop_tracked env this p H). Qed.

Lemma frame_untracked (env : Tick) (this : Engine) :
  tracked env this = None -> frame env this = untrackedEngine env this.
Proof. intros H. unfold frame. now rewrite (detectLoop_untracked env this H). Qed.

Lemma effects_untracked (env : Tick) (this : Engine) :
  tracked env this = None -> effects env this = [RequestAnimationFrame].
Proof. intros H. unfold effects. now rewrite (detectLoop_untracked env this H). Qed.

(** The detector reporting no hand is one way of tracking none. *)
Lemma no_landmarks_untracked (env : Tick) (this : Engine) :
  landmarks env = [] -> tracked env this = None.
Proof.
  intros H. unfold tracked. rewrite H.
  destruct (video this), (handLandmarker this); try reflexivity.
  now destruct (currentTime env =? lastVideoTime this)%float.
Qed.

(** A hand that lacks one of the landmarks the service reads makes the
    call throw before anything is dispatched. *)
Lemma detectLoop_malformed (env : Tick) (this : Engine) :
  kind env this = Malformed ->
  completion (detectLoop env this) = None /\ trace (detectLoop env this) = [].
Proof.
  unfold kind, tracked, points, detectLoop, trackHand.
  destruct this as [hl vid aid lvt cb cx cy tx ty wp pst sc lsx lsy lhs]; fields.
  destruct vid as [v|]; [|discriminate].
  destruct hl as [h|]; [|discriminate].
  destruct (currentTime env =? lvt)%float eqn:Ec; [discriminate|].
  destruct (landmarks env) as [|hand rest]; [discriminate|].
  cbn [hd_error].
  destruct (nth_error hand 8) as [i|]; [|intros _; exec; rewrite Ec; split; reflexivity].
  destruct (nth_error hand 4) as [t|]; [|intros _; exec; rewrite Ec; split; reflexivity].
  destruct (nth_error hand 9) as [m|]; [|intros _; exec; rewrite Ec; split; reflexivity].
  destruct (nth_error hand 0) as [w|]; [|intros _; exec; rewrite Ec; split; reflexivity].
  destruct (pinching (mkPoints w t i m)); discriminate.
Qed.

(** ** No hand, no change *)

(** C3.  In a frame with no detected hand the call returns normally; the
    cursor, the raw target and every field of the pinch session are what
    they were; the only effect is the request for the next animation
    frame, so no pointer, wheel or click dispatch, no [scrollBy] and no
    host callback happen, and no event reaches the document. *)
Theorem no_hand_frame_is_inert (env : Tick) (this : Engine) :
  tracked env this = None ->
  returns env this = true
  /\ cursorX (frame env this) = cursorX this
  /\ cursorY (frame env this) = cursorY this
  /\ targetX (frame env this) = targetX this
  /\ targetY (frame env this) = targetY this
  /\ wasPinching (frame env this) = wasPinching this
  /\ pinchStartTime (frame env this) = pinchStartTime this
  /\ isScrolling (frame env this) = isScrolling this
  /\ lastScrollX (frame env this) = lastScrollX this
  /\ lastScrollY (frame env this) = lastScrollY this
  /\ lastHandScale (frame env this) = lastHandScale this
  /\ callback (frame env this) = callback this
  /\ effects env this = [RequestAnimationFrame]
  /\ reports (effects env this) = []
  /\ deliveries (elementFromPoint env) (effects env this) = [].
Proof.
  intros H.
  rewrite (frame_untracked env this H), (effects_untracked env this H).
  unfold returns. rewrite (detectLoop_untracked env this H).
  unfold untrackedEngine.
  destruct (video this), (handLandmarker this), (currentTime env =? lastVideoTime this)%float;
    cbn; repeat split; reflexivity.
Qed.

(** ** Classification of the pinch *)

(** C8.  In a frame that tracks a hand, the pinch classification (kept in
    [wasPinching], sent as [isDown] and as the button state of the
    pointermove) is true exactly when the Euclidean distance between the
    index tip and the thumb tip, [sqrt (dx*dx + dy*dy)] of their
    coordinate differences as binary64 computes it, compares strictly
    below 0.06; a distance equal to 0.06 is classified as not pinching. *)
Theorem pinch_threshold (env : Tick) (this : Engine) (p : Points) :
  sees env this = Some p ->
  let dx := (Landmark.x (indexTip p) - Landmark.x (thumbTip p))%float in
  let dy := (Landmark.y (indexTip p) - Landmark.y (thumbTip p))%float in
  let distance := PrimFloat.sqrt (dx * dx + dy * dy)%float in
  (wasPinching (frame env this) = true <-> (distance <? 0.06)%float = true)
  /\ (distance = 0.06%float -> wasPinching (frame env this) = false)
  /\ (forall data, In data (reports (effects env this)) ->
        CursorState.isDown data = wasPinching (frame env this))
  /\ In (CallDispatchPointerEvent "pointermove" (cursorX (frame env this)) (cursorY (frame env this))
           (if wasPinching (frame env this) then 1 else 0)%Z)
        (effects env this).
Proof.
  intros H dx dy distance.
  rewrite (frame_tracked env this p H), (effects_tracked env this p H).
  cbn [wasPinching cursorX cursorY trackedEngine].
  split; [reflexivity|]. split.
  - unfold pinching, pinchDistance. fold dx dy distance. intros ->. reflexivity.
  - split; [|left; reflexivity].
    intros data. unfold trackedTrace, updateCalls, panCalls, zoomCalls, releaseClick.
    repeat (split_cond; cbn [andb negb orb app reports In]); intros Hin;
      repeat (destruct Hin as [<- | Hin]; [reflexivity|]); try contradiction.
Qed.

(** ** The raw target *)

(** C10.  In a frame that tracks a hand the raw target is mirrored
    horizontally and only horizontally: its x is
    [(1 - indexTip.x) * innerWidth], its y is [indexTip.y * innerHeight].
    Read in exact arithmetic on a window of positive width, the mirrored
    x strictly decreases as the fingertip's x increases. *)
Theorem target_is_mirrored (env : Tick) (this : Engine) (p : Points) :
  sees env this = Some p ->
  targetX (frame env this) = ((1 - Landmark.x (indexTip p)) * innerWidth env)%float
  /\ targetY (frame env this) = (Landmark.y (indexTip p) * innerHeight env)%float
  /\ (forall x1 x2 width : Q, (0 < width)%Q -> (x1 < x2)%Q -> (mirror x2 width < mirror x1 width)%Q).
Proof.
  intros H. rewrite (frame_tracked env this p H).
  split; [reflexivity|]. split; [reflexivity|].
  intros x1 x2 width Hw Hx. unfold mirror. cbn [Num.mul Num.sub Num.one Q_ops].
  nra.
Qed.

(** ** Entering scroll mode *)

(** C2 (as the code has it).  In a frame where the pinch continues, the
    service enters scroll mode -- it sets [isScrolling] and reports the
    gesture SCROLL to the host -- exactly when the time since the pinch
    started is strictly greater than 2000 ms.  At 2000 ms or less the
    frame leaves [isScrolling] as it was and reports PINCH. *)
Theorem scroll_mode_entry (env : Tick) (this : Engine) (p : Points) (cb : HandUpdateCallback) :
  sees env this = Some p ->
  pinching p = true ->
  wasPinching this = true ->
  callback this = Some cb ->
  ((2000 < now env - pinchStartTime this)%Z ->
     isScrolling (frame env this) = true
     /\ reports (effects env this)
        = [CursorState.mk (cursorX (frame env this)) (cursorY (frame env this)) true SCROLL])
  /\ ((now env - pinchStartTime this <= 2000)%Z ->
        isScrolling (frame env this) = isScrolling this
        /\ reports (effects env this)
           = [CursorState.mk (cursorX (frame env this)) (cursorY (frame env this)) true PINCH]).
Proof.
  intros H Hp Hw Hcb.
  rewrite (frame_tracked env this p H), (effects_tracked env this p H).
  cbn [isScrolling cursorX cursorY trackedEngine].
  unfold trackedTrace, updateCalls, reported, held. rewrite Hp, Hw, Hcb. cbn [andb negb app].
  split; intros Hd.
  - apply Z.ltb_lt in Hd. rewrite Hd. split; [reflexivity|].
    unfold panCalls, zoomCalls.
    repeat (split_cond; cbn [andb orb negb app reports]); reflexivity.
  - apply Z.ltb_ge in Hd. rewrite Hd. split; reflexivity.
Qed.

(** ** Zoom *)

(** Wheel events reach the document only through [dispatchWheelEvent]. *)
Lemma wheel_deliveries (efp : float -> float -> option Element) (t : list Effect) :
  filter isWheelEvent (deliveries efp t) = deliveries efp (wheelCalls t).
Proof.
  induction t as [|e t IH]; [reflexivity|].
  destruct e; cbn [deliveries delivery wheelCalls filter isWheelCall];
    unfold dispatchPointerEvent, dispatchWheelEvent, dispatchClickEvent;
    try destruct (efp x y); cbn [filter isWheelEvent snd deliveries delivery];
    unfold dispatchWheelEvent;
    try match goal with H : efp ?x ?y = _ |- _ => rewrite H end;
    fold (wheelCalls t); rewrite ?IH; try reflexivity.
Qed.

(** Click events reach the document only through [dispatchClickEvent]. *)
Lemma click_deliveries (efp : float -> float -> option Element) (t : list Effect) :
  filter isClickEvent (deliveries efp t) = deliveries efp (clickCalls t).
Proof.
  induction t as [|e t IH]; [reflexivity|].
  destruct e; cbn [deliveries delivery clickCalls filter isClickCall];
    unfold dispatchPointerEvent, dispatchWheelEvent, dispatchClickEvent;
    try destruct (efp x y); cbn [filter isClickEvent snd deliveries delivery];
    unfold dispatchClickEvent;
    try match goal with H : efp ?x ?y = _ |- _ => rewrite H end;
    fold (clickCalls t); rewrite ?IH; try reflexivity.
Qed.

(** C6.  In a scroll-mode frame (the pinch continues and has lasted more
    than 2000 ms) [dispatchWheelEvent] is called exactly once when the
    absolute change of hand scale since the previous frame exceeds 0.002,
    with [deltaY = -scaleDelta * 3000] at the cursor, and not at all
    otherwise.  The helper turns the call into one wheel event with that
    [deltaY] for the element under the cursor; with no element there the
    event is dropped. *)
Theorem zoom_wheel_dispatch (env : Tick) (this : Engine) (p : Points) :
  sees env this = Some p ->
  pinching p = true ->
  wasPinching this = true ->
  (2000 < now env - pinchStartTime this)%Z ->
  ((0.002 <? PrimFloat.abs (handScale (wrist p) (middleMCP p) - lastHandScale this))%float = true ->
     wheelCalls (effects env this)
     = [CallDispatchWheelEvent (cursorX (frame env this)) (cursorY (frame env this))
          (- (handScale (wrist p) (middleMCP p) - lastHandScale this) * 3000)%float]
     /\ (forall element,
           elementFromPoint env (cursorX (frame env this)) (cursorY (frame env this)) = Some element ->
           filter isWheelEvent (deliveries (elementFromPoint env) (effects env this))
           = [(element,
               WheelEvent (cursorX (frame env this)) (cursorY (frame env this))
                 (- (handScale (wrist p) (middleMCP p) - lastHandScale this) * 3000)%float 0%Z)]))
  /\ ((0.002 <? PrimFloat.abs (handScale (wrist p) (middleMCP p) - lastHandScale this))%float = false ->
        wheelCalls (effects env this) = []
        /\ filter isWheelEvent (deliveries (elementFromPoint env) (effects env this)) = [])
  /\ (elementFromPoint env (cursorX (frame env this)) (cursorY (frame env this)) = None ->
        filter isWheelEvent (deliveries (elementFromPoint env) (effects env this)) = []).
Proof.
  intros H Hp Hw Hd. apply Z.ltb_lt in Hd.
  rewrite wheel_deliveries.
  rewrite (frame_tracked env this p H), (effects_tracked env this p H).
  cbn [cursorX cursorY trackedEngine].
  assert (Hcalls : wheelCalls (trackedTrace env this p) = zoomCalls env this p).
  { unfold trackedTrace, updateCalls, panCalls, zoomCalls, releaseClick, held.
    rewrite Hp, Hw, Hd. cbn [andb negb app].
    repeat (split_cond; cbn [andb orb negb app wheelCalls filter isWheelCall]); reflexivity. }
  rewrite Hcalls. unfold zoomCalls, scaleDelta, zoomSensitivity.
  split; [|split].
  - intros Hz. rewrite Hz. split; [reflexivity|].
    intros element He. cbn [deliveries delivery]. unfold dispatchWheelEvent. now rewrite He.
  - intros Hz. rewrite Hz. split; reflexivity.
  - intros He.
    destruct (0.002 <? PrimFloat.abs (handScale (wrist p) (middleMCP p) - lastHandScale this))%float;
      [|reflexivity].
    cbn [deliveries delivery]. unfold dispatchWheelEvent. now rewrite He.
Qed.

(** ** Pan *)

(** [getScrollParent] answers with the nearest node of the chain, the
    node itself included, that passes the test of line 287. *)
Lemma getScrollParentFrom_find :
  forall node : Element, getScrollParentFrom node = find scrollTarget (ancestors node).
Proof.
  fix IH 1. intros node.
  destruct node as [id html oy ox sh ch sw cw parent].
  cbn [getScrollParentFrom ancestors find].
  destruct (scrollTarget (mkElement id html oy ox sh ch sw cw parent)); [reflexivity|].
  destruct parent as [q|]; [apply IH|reflexivity].
Qed.

(** What [getScrollParent] resolves is an ancestor that passes the test. *)
Lemma getScrollParent_sound (node target : Element) :
  getScrollParent (Some node) = Some target ->
  In target (ancestors node) /\ scrollTarget target = true.
Proof.
  cbn [getScrollParent]. rewrite getScrollParentFrom_find. intros H.
  apply find_some in H. exact H.
Qed.

(** With no scrollable ancestor under the point nothing is resolved. *)
Lemma getScrollParent_none (node : option Element) :
  (forall element, node = Some element ->
     forall a, In a (ancestors element) -> scrollTarget a = false) ->
  getScrollParent node = None.
Proof.
  intros H. destruct node as [element|]; [|reflexivity].
  cbn [getScrollParent]. rewrite getScrollParentFrom_find.
  destruct (find scrollTarget (ancestors element)) as [a|] eqn:E; [|reflexivity].
  apply find_some in E. destruct E as [Hin Hs].
  rewrite (H element eq_refl a Hin) in Hs. discriminate.
Qed.

(** The service after a frame does not depend on the document. *)
Lemma frame_withDocument (efp : float -> float -> option Element) (env : Tick)
    (this : Engine) (p : Points) :
  sees env this = Some p -> frame (withDocument efp env) this = frame env this.
Proof.
  intros H.
  assert (H' : sees (withDocument efp env) this = Some p) by exact H.
  rewrite (frame_tracked _ this p H'), (frame_tracked env this p H). reflexivity.
Qed.

(** C7.  In a scroll-mode frame whose cursor moved by more than one pixel
    along at least one axis since the previous frame, [scrollBy] is called
    once, on the scroll parent resolved from the element under the cursor,
    with the movement times -1.5 on each axis.  When nothing under the
    cursor is scrollable the pan is dropped: no [scrollBy], the call still
    returns normally, and the service ends the frame in the state it would
    have with any other document; in particular the last scroll position
    and hand scale are updated all the same. *)
Theorem pan_scroll_by (env : Tick) (this : Engine) (p : Points) :
  sees env this = Some p ->
  pinching p = true ->
  wasPinching this = true ->
  (2000 < now env - pinchStartTime this)%Z ->
  ((1 <? PrimFloat.abs (cursorX (frame env this) - lastScrollX this))%float
   || (1 <? PrimFloat.abs (cursorY (frame env this) - lastScrollY this))%float) = true ->
  (forall scrollable,
     getScrollParent
       (elementFromPoint env (cursorX (frame env this)) (cursorY (frame env this))) = Some scrollable ->
     scrollCalls (effects env this)
     = [ScrollBy scrollable
          ((cursorX (frame env this) - lastScrollX this) * -1.5)%float
          ((cursorY (frame env this) - lastScrollY this) * -1.5)%float])
  /\ ((forall element,
         elementFromPoint env (cursorX (frame env this)) (cursorY (frame env this)) = Some element ->
         forall a, In a (ancestors element) -> scrollTarget a = false) ->
      scrollCalls (effects env this) = []
      /\ returns env this = true
      /\ forall efp, frame (withDocument efp env) this = frame env this)
  /\ lastScrollX (frame env this) = cursorX (frame env this)
  /\ lastScrollY (frame env this) = cursorY (frame env this)
  /\ lastHandScale (frame env this) = handScale (wrist p) (middleMCP p).
Proof.
  intros H Hp Hw Hd Hmove. apply Z.ltb_lt in Hd.
  assert (Hdoc := fun efp => frame_withDocument efp env this p H).
  rewrite (returns_tracked env this p H).
  rewrite (frame_tracked env this p H), (effects_tracked env this p H) in *.
  cbn [cursorX cursorY lastScrollX lastScrollY lastHandScale trackedEngine] in *.
  rewrite Hp.
  assert (Hcalls : scrollCalls (trackedTrace env this p) = panCalls env this p).
  { unfold trackedTrace, updateCalls, panCalls, zoomCalls, releaseClick, held.
    rewrite Hp, Hw, Hd. cbn [andb negb app].
    repeat (split_cond; cbn [andb orb negb app scrollCalls filter isScrollBy]); reflexivity. }
  rewrite Hcalls. unfold panCalls, panDeltaX, panDeltaY. rewrite Hmove.
  split; [|split; [|repeat split]].
  - intros scrollable Hs. now rewrite Hs.
  - intros Hnone. rewrite (getScrollParent_none _ Hnone). repeat split. exact Hdoc.
Qed.

(** ** Pinch sessions: release and click *)

Lemma kind_untracked (env : Tick) (this : Engine) :
  kind env this = Untracked -> tracked env this = None.
Proof.
  unfold kind. destruct (tracked env this) as [hand|]; [|reflexivity].
  destruct (points hand) as [p|]; [|discriminate].
  destruct (pinching p); discriminate.
Qed.

Lemma kind_pinched (env : Tick) (this : Engine) :
  kind env this = Pinched -> exists p, sees env this = Some p /\ pinching p = true.
Proof.
  unfold kind, sees. destruct (tracked env this) as [hand|]; [|discriminate].
  destruct (points hand) as [p|]; [|discriminate].
  destruct (pinching p) eqn:E; [|discriminate].
  intros _. exists p. auto.
Qed.

(** A frame that tracks no hand leaves the pinch session alone. *)
Lemma untracked_session (env : Tick) (this : Engine) :
  tracked env this = None ->
  wasPinching (frame env this) = wasPinching this
  /\ pinchStartTime (frame env this) = pinchStartTime this
  /\ isScrolling (frame env this) = isScrolling this.
Proof.
  intros H. rewrite (frame_untracked env this H). unfold untrackedEngine.
  destruct (video this), (handLandmarker this), (currentTime env =? lastVideoTime this)%float;
    cbn; repeat split; reflexivity.
Qed.

(** A frame in which the pinch continues keeps the session open and its
    start time, and can only switch scroll mode on. *)
Lemma pinched_session (env : Tick) (this : Engine) (p : Points) :
  sees env this = Some p -> pinching p = true -> wasPinching this = true ->
  wasPinching (frame env this) = true
  /\ pinchStartTime (frame env this) = pinchStartTime this
  /\ isScrolling (frame env this) = (if (2000 <? held env this)%Z then true else isScrolling this).
Proof.
  intros H Hp Hw. rewrite (frame_tracked env this p H).
  cbn [wasPinching pinchStartTime isScrolling trackedEngine].
  rewrite Hp, Hw. cbn [andb negb]. repeat split; reflexivity.
Qed.

(** Through frames that keep the pinch below the dwell threshold the
    session stays open, with its start time, out of scroll mode. *)
Lemma dwells_session (envs : list Tick) :
  forall this : Engine,
    dwells envs this = true -> wasPinching this = true ->
    wasPinching (frames envs this) = true
    /\ pinchStartTime (frames envs this) = pinchStartTime this
    /\ isScrolling (frames envs this) = isScrolling this.
Proof.
  induction envs as [|env rest IH]; intros this Hd Hw; [cbn; auto|].
  cbn [dwells frames] in *.
  destruct (kind env this) eqn:Ek; try discriminate.
  - destruct (untracked_session env this (kind_untracked env this Ek)) as (Hw' & Ht' & Hs').
    destruct (IH (frame env this) Hd) as (IHw & IHt & IHs); [congruence|].
    repeat split; congruence.
  - apply andb_prop in Hd. destruct Hd as [Hheld Hd].
    destruct (kind_pinched env this Ek) as (p & Hsee & Hp).
    destruct (pinched_session env this p Hsee Hp Hw) as (Hw' & Ht' & Hs').
    apply Z.leb_le in Hheld. apply Z.ltb_ge in Hheld. rewrite Hheld in Hs'.
    destruct (IH (frame env this) Hd Hw') as (IHw & IHt & IHs).
    repeat split; congruence.
Qed.

(** Through frames that keep the pinch the session stays open, and scroll
    mode, once on, stays on. *)
Lemma sustains_session (envs : list Tick) :
  forall this : Engine,
    sustains envs this = true -> wasPinching this = true -> isScrolling this = true ->
    wasPinching (frames envs this) = true /\ isScrolling (frames envs this) = true.
Proof.
  induction envs as [|env rest IH]; intros this Hd Hw Hs; [cbn; auto|].
  cbn [sustains frames] in *.
  destruct (kind env this) eqn:Ek; try discriminate.
  - destruct (untracked_session env this (kind_untracked env this Ek)) as (Hw' & _ & Hs').
    apply (IH (frame env this) Hd); congruence.
  - destruct (kind_pinched env this Ek) as (p & Hsee & Hp).
    destruct (pinched_session env this p Hsee Hp Hw) as (Hw' & _ & Hs').
    rewrite Hs in Hs'. apply (IH (frame env this) Hd Hw').
    rewrite Hs'. now destruct (2000 <? held env this)%Z.
Qed.

(** The click calls of a release frame are those of its click test. *)
Lemma release_clicks (env : Tick) (this : Engine) (p : Points) :
  sees env this = Some p -> pinching p = false -> wasPinching this = true ->
  clickCalls (effects env this) = releaseClick env this p
  /\ isScrolling (frame env this) = false
  /\ wasPinching (frame env this) = false.
Proof.
  intros H Hp Hw.
  rewrite (frame_tracked env this p H), (effects_tracked env this p H).
  cbn [isScrolling wasPinching trackedEngine]. rewrite Hp, Hw.
  split; [|split; reflexivity].
  unfold trackedTrace, updateCalls, releaseClick. rewrite Hp, Hw. cbn [andb negb app].
  repeat (split_cond; cbn [andb orb negb app clickCalls filter isClickCall]); reflexivity.
Qed.

(** C1 (as the code has it).  A pinch session that starts in frame
    [start], continues through [mids] without ever being seen held for
    more than 2000 ms, and is released in frame [release], calls
    [dispatchClickEvent] on release -- once, at the release position --
    exactly when the duration between start and release is strictly
    between 200 ms and 1800 ms.  So 200 ms gives no click, 201 ms and
    1799 ms give one, 1800 ms and 1801 ms give none.  The call delivers
    one click event to the element under the cursor when there is one. *)
Theorem release_click_window (start release : Tick) (mids : list Tick) (this : Engine)
    (p0 pr : Points) :
  wasPinching this = false ->
  sees start this = Some p0 ->
  pinching p0 = true ->
  dwells mids (frame start this) = true ->
  sees release (frames mids (frame start this)) = Some pr ->
  pinching pr = false ->
  ((200 < now release - now start < 1800)%Z ->
     clickCalls (effects release (frames mids (frame start this)))
     = [CallDispatchClickEvent
          (cursorX (frame release (frames mids (frame start this))))
          (cursorY (frame release (frames mids (frame start this))))]
     /\ forall element,
          elementFromPoint release
            (cursorX (frame release (frames mids (frame start this))))
            (cursorY (frame release (frames mids (frame start this)))) = Some element ->
          filter isClickEvent
            (deliveries (elementFromPoint release)
               (effects release (frames mids (frame start this))))
          = [(element,
              MouseEvent "click"
                (cursorX (frame release (frames mids (frame start this))))
                (cursorY (frame release (frames mids (frame start this)))))])
  /\ ((now release - now start <= 200 \/ 1800 <= now release - now start)%Z ->
        clickCalls (effects release (frames mids (frame start this))) = []
        /\ filter isClickEvent
             (deliveries (elementFromPoint release)
                (effects release (frames mids (frame start this)))) = []).
Proof.
  intros Hw0 Hs0 Hp0 Hd Hsr Hpr.
  assert (Hstart : wasPinching (frame start this) = true
                   /\ pinchStartTime (frame start this) = now start
                   /\ isScrolling (frame start this) = false).
  { rewrite (frame_tracked start this p0 Hs0).
    cbn [wasPinching pinchStartTime isScrolling trackedEngine].
    rewrite Hp0, Hw0. cbn [andb negb]. repeat split; reflexivity. }
  destruct Hstart as (Hw1 & Ht1 & Hsc1).
  destruct (dwells_session mids (frame start this) Hd Hw1) as (Hw & Ht & Hsc).
  set (S := frames mids (frame start this)) in *.
  destruct (release_clicks release S pr Hsr Hpr Hw) as (Hclicks & _ & _).
  rewrite click_deliveries, Hclicks.
  rewrite (frame_tracked release S pr Hsr). cbn [cursorX cursorY trackedEngine].
  unfold releaseClick, held. rewrite Hsc, Ht, Hsc1, Ht1. cbn [negb andb].
  split.
  - intros [Hlo Hhi]. apply Z.ltb_lt in Hlo, Hhi. rewrite Hlo, Hhi. cbn [andb].
    split; [reflexivity|].
    intros element He. cbn [deliveries delivery]. unfold dispatchClickEvent. now rewrite He.
  - intros [Hlo|Hhi].
    + apply Z.ltb_ge in Hlo. rewrite Hlo. split; reflexivity.
    + apply Z.ltb_ge in Hhi. rewrite Hhi.
      destruct (200 <? now release - now start)%Z; split; reflexivity.
Qed.

(** C5.  Once a frame of a pinch session has switched scroll mode on, the
    release of that pinch -- however many frames later and whatever the
    session's duration -- never calls [dispatchClickEvent], so no click
    event reaches the document; the release also ends scroll mode. *)
Theorem scrolled_session_never_clicks (enter release : Tick) (mids : list Tick)
    (this : Engine) (p pr : Points) :
  wasPinching this = true ->
  sees enter this = Some p ->
  pinching p = true ->
  (2000 < now enter - pinchStartTime this)%Z ->
  sustains mids (frame enter this) = true ->
  sees release (frames mids (frame enter this)) = Some pr ->
  pinching pr = false ->
  isScrolling (frame enter this) = true
  /\ clickCalls (effects release (frames mids (frame enter this))) = []
  /\ filter isClickEvent
       (deliveries (elementFromPoint release)
          (effects release (frames mids (frame enter this)))) = []
  /\ isScrolling (frame release (frames mids (frame enter this))) = false.
Proof.
  intros Hw0 Hs Hp Hlong Hd Hsr Hpr.
  destruct (pinched_session enter this p Hs Hp Hw0) as (Hw1 & _ & Hsc1).
  apply Z.ltb_lt in Hlong. unfold held in Hsc1. rewrite Hlong in Hsc1.
  destruct (sustains_session mids (frame enter this) Hd Hw1 Hsc1) as (Hw & Hsc).
  set (S := frames mids (frame enter this)) in *.
  destruct (release_clicks release S pr Hsr Hpr Hw) as (Hclicks & Hoff & _).
  rewrite click_deliveries, Hclicks. unfold releaseClick. rewrite Hsc. cbn [negb andb].
  repeat split; assumption.
Qed.

(** ** The smoother *)

(** Frames that keep asking for one target iterate the interpolation. *)
Lemma aimsAt_cursor (tx ty : float) (envs : list Tick) :
  forall this : Engine,
    aimsAt tx ty envs this ->
    cursorX (frames envs this) = lerp_iter smoothing tx (List.length envs) (cursorX this)
    /\ cursorY (frames envs this) = lerp_iter smoothing ty (List.length envs) (cursorY this).
Proof.
  induction envs as [|env rest IH]; intros this Ha; [split; reflexivity|].
  cbn [aimsAt] in Ha. destruct Ha as ((p & Hs & Hx & Hy) & Hrest).
  cbn [frames List.length]. destruct (IH (frame env this) Hrest) as (IHx & IHy).
  rewrite IHx, IHy. unfold lerp_iter. rewrite !Nat.iter_succ_r.
  rewrite (frame_tracked env this p Hs). cbn [cursorX cursorY trackedEngine].
  unfold movedX, movedY. rewrite Hx, Hy. split; reflexivity.
Qed.

(** *** Rounding in binary64 *)

(** What follows derives, from the standard library's specification of
    binary64 arithmetic ([SpecFloat], which the primitive operations obey
    by [add_spec], [sub_spec], [mul_spec] and [leb_spec]), that a sum, a
    difference and a product are the exact result rounded down or up to
    a binary64 number, as long as the exact result is within range. *)
Section Binary64.
Open Scope Z_scope.

(** Powers of two. *)
Lemma twoTo_pos (n : Z) : 0 <= n -> 0 < twoTo n.
Proof. intros H. unfold twoTo. apply Z.pow_pos_nonneg; lia. Qed.

Lemma twoTo_add (a b : Z) : 0 <= a -> 0 <= b -> twoTo (a + b) = twoTo a * twoTo b.
Proof. intros Ha Hb. unfold twoTo. apply Z.pow_add_r; assumption. Qed.

Lemma twoTo_le (a b : Z) : 0 <= a <= b -> twoTo a <= twoTo b.
Proof. intros H. unfold twoTo. apply Z.pow_le_mono_r; lia. Qed.

Lemma twoTo_lt (a b : Z) : 0 <= a < b -> twoTo a < twoTo b.
Proof. intros H. unfold twoTo. apply Z.pow_lt_mono_r; lia. Qed.

Lemma twoTo_succ (a : Z) : 0 <= a -> twoTo (a + 1) = 2 * twoTo a.
Proof. intros H. rewrite twoTo_add by lia. change (twoTo 1) with 2. lia. Qed.

(** The number of binary digits of a mantissa. *)
Lemma digits2_bounds (m : positive) :
  twoTo (Zpos (digits2_pos m) - 1) <= Zpos m < twoTo (Zpos (digits2_pos m)).
Proof.
  induction m as [m IH | m IH |]; cbn [digits2_pos].
  - rewrite Pos2Z.inj_succ. replace (Z.succ (Zpos (digits2_pos m)) - 1) with (Zpos (digits2_pos m) - 1 + 1) by lia.
    rewrite twoTo_succ by lia. unfold Z.succ. rewrite twoTo_succ by lia. lia.
  - rewrite Pos2Z.inj_succ. replace (Z.succ (Zpos (digits2_pos m)) - 1) with (Zpos (digits2_pos m) - 1 + 1) by lia.
    rewrite twoTo_succ by lia. unfold Z.succ. rewrite twoTo_succ by lia. lia.
  - cbn. unfold twoTo. cbn. lia.
Qed.

Lemma digits2_unique (m : positive) (d : Z) :
  twoTo (d - 1) <= Zpos m < twoTo d -> 1 <= d -> Zpos (digits2_pos m) = d.
Proof.
  intros H Hd. pose proof (digits2_bounds m) as Hb.
  destruct (Z.lt_trichotomy (Zpos (digits2_pos m)) d) as [Hlt | [Heq | Hgt]]; [|exact Heq|].
  - assert (twoTo (Zpos (digits2_pos m)) <= twoTo (d - 1)) by (apply twoTo_le; lia). lia.
  - assert (twoTo d <= twoTo (Zpos (digits2_pos m) - 1)) by (apply twoTo_le; lia). lia.
Qed.

(** One step of [shr] halves the mantissa, rounding down, and remembers
    whether a digit was lost. *)
Lemma shr_1_spec (mrs : shr_record) :
  0 <= shr_m mrs ->
  shr_m (shr_1 mrs) = shr_m mrs / 2
  /\ inexact (shr_1 mrs) = negb (Z.even (shr_m mrs)) || inexact mrs.
Proof.
  destruct mrs as [m r s]. cbn [shr_m]. intros Hm.
  destruct m as [|p|p]; [| |lia].
  - cbn. split; [reflexivity|]. unfold inexact. cbn. destruct r, s; reflexivity.
  - destruct p as [p|p|]; cbn [shr_1 shr_m inexact shr_r shr_s Z.even negb orb].
    + split; [rewrite Pos2Z.inj_xI; apply Z.div_unique with 1; lia|].
      reflexivity.
    + split; [rewrite Pos2Z.inj_xO; apply Z.div_unique with 0; lia|].
      unfold inexact; reflexivity.
    + split; reflexivity.
Qed.

Lemma iter_pos_nat {A : Type} (f : A -> A) (p : positive) :
  forall x, SpecFloat.iter_pos f p x = Nat.iter (Pos.to_nat p) f x.
Proof.
  induction p as [p IH | p IH |]; intros x; cbn [SpecFloat.iter_pos].
  - rewrite !IH.
    replace (Pos.to_nat p~1) with (S (Pos.to_nat p + Pos.to_nat p)) by lia.
    rewrite Nat.iter_succ_r, Nat.iter_add. reflexivity.
  - rewrite !IH.
    replace (Pos.to_nat p~0) with (Pos.to_nat p + Pos.to_nat p)%nat by lia.
    rewrite Nat.iter_add. reflexivity.
  - reflexivity.
Qed.

Lemma shr_nat_spec (n : nat) (mrs : shr_record) :
  0 <= shr_m mrs -> inexact mrs = false ->
  shr_m (Nat.iter n shr_1 mrs) = shr_m mrs / twoTo (Z.of_nat n)
  /\ (inexact (Nat.iter n shr_1 mrs) = false <-> shr_m mrs mod twoTo (Z.of_nat n) = 0).
Proof.
  intros Hm Hi. induction n as [|n [IHm IHi]].
  - cbn [Nat.iter]. change (twoTo (Z.of_nat 0)) with 1. rewrite Z.div_1_r, Z.mod_1_r.
    split; [reflexivity|]. split; intros _; [reflexivity | exact Hi].
  - change (Nat.iter (S n) shr_1 mrs) with (shr_1 (Nat.iter n shr_1 mrs)).
    assert (Hpos : 0 < twoTo (Z.of_nat n)) by (apply twoTo_pos; lia).
    assert (Hnn : 0 <= shr_m (Nat.iter n shr_1 mrs)).
    { rewrite IHm. apply Z.div_pos; lia. }
    destruct (shr_1_spec _ Hnn) as [Hm1 Hi1].
    rewrite Nat2Z.inj_succ. unfold Z.succ. rewrite twoTo_succ by lia.
    split.
    + rewrite Hm1, IHm, Z.div_div by lia. f_equal. lia.
    + rewrite Hi1, orb_false_iff, negb_false_iff, IHi, IHm.
      rewrite (Z.mul_comm 2), Z.rem_mul_r by lia.
      rewrite (Zmod_even (shr_m mrs / twoTo (Z.of_nat n))).
      pose proof (Z.mod_pos_bound (shr_m mrs) (twoTo (Z.of_nat n)) Hpos) as Hb1.
      destruct (Z.even (shr_m mrs / twoTo (Z.of_nat n))); split.
      * intros [_ H0]. lia.
      * intros H. split; [reflexivity | lia].
      * intros [H _]. discriminate H.
      * intros H. exfalso. nia.
Qed.

Lemma inexact_loc (mrs : shr_record) :
  loc_of_shr_record mrs = loc_Exact <-> inexact mrs = false.
Proof. destruct mrs as [m [|] [|]]; cbn; split; intros H; try reflexivity; discriminate H. Qed.

(** [shr] by [n] digits: the mantissa is divided by [2^n], rounding
    down, and the location says whether anything was lost. *)
Lemma shr_spec (m e n : Z) :
  0 <= m ->
  exists mrs,
    shr (Build_shr_record m false false) e n = (mrs, e + Z.max 0 n)
    /\ shr_m mrs = m / twoTo (Z.max 0 n)
    /\ (loc_of_shr_record mrs = loc_Exact <-> m mod twoTo (Z.max 0 n) = 0).
Proof.
  intros Hm. destruct n as [|p|p].
  - exists (Build_shr_record m false false). cbn [shr Z.max Z.compare].
    change (Z.max 0 0) with 0. change (twoTo 0) with 1.
    rewrite Z.add_0_r, Z.div_1_r, Z.mod_1_r. repeat split; reflexivity.
  - exists (SpecFloat.iter_pos shr_1 p (Build_shr_record m false false)).
    cbn [shr]. rewrite Z.max_r by lia.
    split; [reflexivity|].
    rewrite iter_pos_nat, inexact_loc.
    destruct (shr_nat_spec (Pos.to_nat p) (Build_shr_record m false false) Hm eq_refl) as [H1 H2].
    rewrite positive_nat_Z in H1, H2. cbn [shr_m] in H1, H2. split; assumption.
  - exists (Build_shr_record m false false). cbn [shr].
    rewrite Z.max_l by lia. change (twoTo 0) with 1.
    rewrite Z.add_0_r, Z.div_1_r, Z.mod_1_r. repeat split; reflexivity.
Qed.

(** Rounding to nearest keeps the shifted mantissa or takes the next one,
    and keeps it when nothing was lost. *)
Lemma round_nearest_even_spec (m : Z) (l : location) :
  (l = loc_Exact -> round_nearest_even m l = m)
  /\ (round_nearest_even m l = m \/ round_nearest_even m l = m + 1).
Proof.
  split; [intros ->; reflexivity|].
  destruct l as [|[| |]]; cbn [round_nearest_even]; [left | | left | right]; try reflexivity.
  destruct (Z.even m); [left | right]; reflexivity.
Qed.

Lemma fexp64 (x : Z) : fexp prec emax x = Z.max (x - 53) (-1074).
Proof. reflexivity. Qed.

Lemma Zdigits2_bounds (m : Z) :
  0 < m -> twoTo (Zdigits2 m - 1) <= m < twoTo (Zdigits2 m).
Proof. destruct m as [|p|p]; try lia. intros _. exact (digits2_bounds p). Qed.

Lemma Zdigits2_pos (m : Z) : 0 < m -> 1 <= Zdigits2 m.
Proof. destruct m as [|p|p]; try lia. intros _. cbn. lia. Qed.

Lemma Zdigits2_le (m d : Z) : 0 < m -> 0 <= d -> m < twoTo d -> Zdigits2 m <= d.
Proof.
  intros Hm Hd H. pose proof (Zdigits2_bounds m Hm) as Hb. pose proof (Zdigits2_pos m Hm).
  destruct (Z_le_gt_dec (Zdigits2 m) d) as [|Hgt]; [assumption|].
  assert (twoTo d <= twoTo (Zdigits2 m - 1)) by (apply twoTo_le; lia). lia.
Qed.

(** Rounding a magnitude onto the grid of step [2^e1] never steps over a
    representable magnitude. *)
Lemma faithful_core (m e e1 m2 Y : Z) :
  0 < m -> -2148 <= e -> e <= e1 -> -1074 <= e1 ->
  (e1 = -1074 \/ twoTo 52 <= m / twoTo (e1 - e)) ->
  (m2 = m / twoTo (e1 - e) \/ (m2 = m / twoTo (e1 - e) + 1 /\ m mod twoTo (e1 - e) <> 0)) ->
  rep Y ->
  (m * twoTo (e + 2148) <= Y -> m2 * twoTo (e1 + 2148) <= Y)
  /\ (Y <= m * twoTo (e + 2148) -> Y <= m2 * twoTo (e1 + 2148)).
Proof.
  intros Hm He He1 Hmin Hnorm Hm2 (my & ey & Hmy & Hey & ->).
  set (n := e1 - e) in *. set (m1 := m / twoTo n) in *.
  assert (Hn : 0 < twoTo n) by (apply twoTo_pos; lia).
  assert (HG : twoTo (e1 + 2148) = twoTo (e + 2148) * twoTo n).
  { rewrite <- twoTo_add by lia. f_equal. lia. }
  assert (Hu : 0 < twoTo (e + 2148)) by (apply twoTo_pos; lia).
  pose proof (Z.div_mod m (twoTo n) ltac:(lia)) as Hdm. fold m1 in Hdm.
  pose proof (Z.mod_pos_bound m (twoTo n) Hn) as Hr.
  set (r := m mod twoTo n) in *. set (u := twoTo (e + 2148)) in *. set (g := twoTo n) in *.
  rewrite HG.
  destruct (Z_le_gt_dec e1 ey) as [Hge | Hlt].
  - assert (Hy : twoTo (ey + 2148) = u * g * twoTo (ey - e1)).
    { unfold u, g. rewrite <- !twoTo_add by lia. f_equal. lia. }
    assert (Hk : 0 < twoTo (ey - e1)) by (apply twoTo_pos; lia).
    rewrite Hy. set (k := twoTo (ey - e1)) in *.
    assert (Hug : 0 < u * g) by nia.
    assert (Hcmp : forall a b : Z, a * (u * g) <= b * (u * g) <-> a <= b).
    { intros a b. symmetry. apply Z.mul_le_mono_pos_r. exact Hug. }
    assert (Hcmp' : forall a b : Z, a * (u * g) < b * (u * g) <-> a < b).
    { intros a b. symmetry. apply Z.mul_lt_mono_pos_r. exact Hug. }
    replace (my * (u * g * k)) with ((my * k) * (u * g)) by ring.
    replace (m2 * (u * g)) with (m2 * (u * g)) by ring.
    assert (HX : m * u = m1 * (u * g) + r * u) by nia.
    assert (Hru0 : 0 <= r * u) by nia.
    assert (Hrug : r * u < u * g) by nia.
    assert (Hru1 : r <> 0 -> 0 < r * u) by (intros; nia).
    rewrite HX. split; intros H.
    + apply Hcmp. destruct Hm2 as [-> | [-> Hne]].
      * apply Hcmp. lia.
      * specialize (Hru1 Hne).
        assert (Hlt : m1 * (u * g) < my * k * (u * g)) by lia.
        apply (proj1 (Hcmp' _ _)) in Hlt. lia.
    + apply Hcmp.
      assert (Hlt : my * k * (u * g) < (m1 + 1) * (u * g)) by lia.
      apply (proj1 (Hcmp' _ _)) in Hlt. destruct Hm2 as [-> | [-> Hne]]; lia.
  - destruct Hnorm as [-> | Hnorm]; [lia|].
    assert (Hy : u * g = twoTo (ey + 2148) * twoTo (e1 - ey)).
    { unfold u, g. rewrite <- !twoTo_add by lia. f_equal. lia. }
    assert (Hk : 2 <= twoTo (e1 - ey)).
    { change 2 with (twoTo 1). apply twoTo_le. lia. }
    assert (Hv : 0 < twoTo (ey + 2148)) by (apply twoTo_pos; lia).
    assert (H53 : twoTo 53 = 2 * twoTo 52) by reflexivity.
    set (k := twoTo (e1 - ey)) in *. set (v := twoTo (ey + 2148)) in *.
    assert (HY : my * v < m1 * (u * g)).
    { rewrite Hy. assert (my * v < twoTo 52 * 2 * v) by nia. nia. }
    assert (HX : m1 * (u * g) <= m * u) by nia.
    split; intros H; [lia|].
    destruct Hm2 as [-> | [-> _]]; nia.
Qed.

Lemma rep_bound (Y : Z) : rep Y -> 0 <= Y < twoTo 53 * twoTo (971 + 2148).
Proof.
  intros (my & ey & Hmy & Hey & ->).
  assert (0 < twoTo (ey + 2148)) by (apply twoTo_pos; lia).
  assert (twoTo (ey + 2148) <= twoTo (971 + 2148)) by (apply twoTo_le; lia).
  nia.
Qed.

(** [binary_round_aux], the rounding every operation ends with, on an
    exact magnitude [m * 2^e]: the result has the sign asked for; it is
    finite and not above any representable magnitude that the exact one
    does not exceed, and not below any that the exact one reaches. *)
Lemma round_aux_faithful (s : bool) (m : positive) (e : Z) :
  -2148 <= e -> e <= fexp prec emax (Zpos (digits2_pos m) + e) ->
  hasSign s (binary_round_aux prec emax s (Zpos m) e loc_Exact)
  /\ forall Y, rep Y ->
       (Zpos m * twoTo (e + 2148) <= Y ->
        finiteSF (binary_round_aux prec emax s (Zpos m) e loc_Exact) = true
        /\ mag (binary_round_aux prec emax s (Zpos m) e loc_Exact) <= Y)
       /\ (Y <= Zpos m * twoTo (e + 2148) ->
           finiteSF (binary_round_aux prec emax s (Zpos m) e loc_Exact) = true ->
           Y <= mag (binary_round_aux prec emax s (Zpos m) e loc_Exact)).
Proof.
  intros He Hfexp. unfold binary_round_aux, shr_fexp.
  cbn [shr_record_of_loc Zdigits2].
  rewrite !fexp64 in *.
  set (d := Zpos (digits2_pos m)) in *.
  set (e1 := Z.max (d + e - 53) (-1074)) in *.
  destruct (shr_spec (Zpos m) e (e1 - e) ltac:(lia)) as (mrs1 & Hshr1 & Hm1 & Hloc1).
  rewrite Hshr1. cbv beta iota. rewrite Z.max_r in * by lia.
  replace (e + (e1 - e)) with e1 by lia.
  rewrite ?fexp64. cbn [shr_record_of_loc].
  set (m1 := shr_m mrs1) in *.
  destruct (round_nearest_even_spec m1 (loc_of_shr_record mrs1)) as [Hex Hrne].
  set (m2 := round_nearest_even m1 (loc_of_shr_record mrs1)) in *.
  pose proof (digits2_bounds m) as Hd. fold d in Hd.
  assert (Hd1 : 1 <= d) by (unfold d; lia).
  assert (Hn1 : 0 < twoTo (e1 - e)) by (apply twoTo_pos; lia).
  assert (Hm1lo : e1 = -1074 \/ twoTo 52 <= m1).
  { destruct (Z.max_spec (d + e - 53) (-1074)) as [[_ H]|[Hc H]]; fold e1 in H; [left; exact H|].
    right. rewrite Hm1. apply Z.div_le_lower_bound; [exact Hn1|].
    rewrite Z.mul_comm, <- twoTo_add by lia.
    replace (52 + (e1 - e)) with (d - 1) by lia. lia. }
  assert (Hm1hi : m1 < twoTo 53).
  { rewrite Hm1. apply Z.div_lt_upper_bound; [exact Hn1|].
    rewrite Z.mul_comm, <- twoTo_add by lia.
    assert (twoTo d <= twoTo (53 + (e1 - e))) by (apply twoTo_le; lia). lia. }
  assert (Hm1nn : 0 <= m1) by (rewrite Hm1; apply Z.div_pos; lia).
  assert (Hm2 : m2 = Zpos m / twoTo (e1 - e)
                \/ (m2 = Zpos m / twoTo (e1 - e) + 1 /\ Zpos m mod twoTo (e1 - e) <> 0)).
  { rewrite <- Hm1. destruct Hrne as [H|H]; [left; exact H|].
    destruct (Z.eq_dec (Zpos m mod twoTo (e1 - e)) 0) as [H0|H0].
    - left. apply Hex. apply Hloc1. exact H0.
    - right. split; assumption. }
  assert (Hcore := fun Y => faithful_core (Zpos m) e e1 m2 Y ltac:(lia) He ltac:(lia) ltac:(lia)
                             ltac:(rewrite <- Hm1; exact Hm1lo) Hm2).
  destruct (shr_spec m2 e1 (Z.max (Zdigits2 m2 + e1 - 53) (-1074) - e1) ltac:(lia))
    as (mrs3 & Hshr3 & Hm3 & _).
  rewrite Hshr3. cbv beta iota.
  set (n2 := Z.max 0 (Z.max (Zdigits2 m2 + e1 - 53) (-1074) - e1)) in *.
  set (m3 := shr_m mrs3) in *.
  assert (H52 : twoTo 53 = 2 * twoTo 52) by reflexivity.
  assert (H52p : 0 < twoTo 52) by (apply twoTo_pos; lia).
  assert (Hval : m3 * twoTo (e1 + n2 + 2148) = m2 * twoTo (e1 + 2148)
                 /\ 0 <= m3
                 /\ (e1 + n2 = -1074 \/ m3 = 0 \/ twoTo 52 <= m3)).
  { destruct (Z.eq_dec m2 (twoTo 53)) as [Htop | Hlow].
    - assert (Hn2 : n2 = 1).
      { unfold n2. rewrite Htop. change (Zdigits2 (twoTo 53)) with 54. lia. }
      rewrite Hm3, Hn2, Htop.
      change (twoTo 53 / twoTo 1) with (twoTo 52).
      replace (e1 + 1 + 2148) with (e1 + 2148 + 1) by lia.
      rewrite twoTo_succ by lia. split; [lia|]. split; [lia|]. right. right. lia.
    - assert (Hn2 : n2 = 0).
      { unfold n2. destruct (Z.eq_dec m2 0) as [H0 | H0].
        - rewrite H0. cbn [Zdigits2]. lia.
        - assert (Hle : Zdigits2 m2 <= 53) by (apply Zdigits2_le; lia). lia. }
      rewrite Hm3, Hn2. change (twoTo 0) with 1. rewrite Z.div_1_r, Z.add_0_r.
      split; [reflexivity|]. split; [lia|].
      destruct Hm1lo as [H|H]; [left; exact H|]. right. right. lia. }
  destruct Hval as (Hval & Hm3nn & Hm3lo).
  set (e3 := e1 + n2) in *.
  change (emax - prec) with 971.
  destruct m3 as [|p|p] eqn:Ep; [| |lia].
  - split; [reflexivity|]. intros Y HY. destruct (Hcore Y HY) as [HM1 HM2].
    pose proof (rep_bound Y HY) as HYb.
    cbn [finiteSF mag]. split.
    + intros H. split; [reflexivity | lia].
    + intros H _. specialize (HM2 H). lia.
  - destruct (Z.leb_spec e3 971) as [Hfin | Hinf].
    + split; [reflexivity|]. intros Y HY. destruct (Hcore Y HY) as [HM1 HM2].
      cbn [finiteSF mag]. rewrite Hval. split.
      * intros H. split; [reflexivity | exact (HM1 H)].
      * intros H _. exact (HM2 H).
    + split; [reflexivity|]. intros Y HY. destruct (Hcore Y HY) as [HM1 HM2].
      pose proof (rep_bound Y HY) as HYb.
      cbn [finiteSF mag]. split.
      * intros H. exfalso. specialize (HM1 H). rewrite <- Hval in HM1.
        assert (Hp : twoTo 52 <= Zpos p) by lia.
        assert (Hg : twoTo (972 + 2148) <= twoTo (e3 + 2148)) by (apply twoTo_le; lia).
        assert (Hs : twoTo (972 + 2148) = 2 * twoTo (971 + 2148)).
        { replace (972 + 2148) with (971 + 2148 + 1) by lia. apply twoTo_succ. lia. }
        assert (0 < twoTo (971 + 2148)) by (apply twoTo_pos; lia).
        nia.
      * intros _ Hf. discriminate Hf.
Qed.

Lemma iter_xO (m d : positive) : Zpos (Pos.iter xO m d) = Zpos m * twoTo (Zpos d).
Proof.
  change (Pos.iter xO m d) with (shift_pos d m).
  rewrite shift_pos_correct. unfold twoTo. cbn [Z.pow]. lia.
Qed.

(** Aligning a mantissa to a lower exponent keeps the number. *)
Lemma shl_align_spec (mx : positive) (ex ex' : Z) :
  snd (shl_align mx ex ex') = Z.min ex ex'
  /\ Zpos (fst (shl_align mx ex ex')) = Zpos mx * twoTo (ex - Z.min ex ex').
Proof.
  unfold shl_align. destruct (ex' - ex) as [|d|d] eqn:E; cbn [fst snd].
  - rewrite Z.min_l by lia. replace (ex - ex) with 0 by lia. change (twoTo 0) with 1. lia.
  - rewrite Z.min_l by lia. replace (ex - ex) with 0 by lia. change (twoTo 0) with 1. lia.
  - rewrite Z.min_r by lia. rewrite iter_xO. split; [reflexivity|]. f_equal. f_equal. lia.
Qed.

(** The same for [binary_round], which aligns the mantissa first. *)
Lemma binary_round_faithful (s : bool) (m : positive) (e : Z) :
  -2148 <= e ->
  hasSign s (binary_round prec emax s m e)
  /\ forall Y, rep Y ->
       (Zpos m * twoTo (e + 2148) <= Y ->
        finiteSF (binary_round prec emax s m e) = true
        /\ mag (binary_round prec emax s m e) <= Y)
       /\ (Y <= Zpos m * twoTo (e + 2148) ->
           finiteSF (binary_round prec emax s m e) = true ->
           Y <= mag (binary_round prec emax s m e)).
Proof.
  intros He. unfold binary_round.
  pose proof (shl_align_spec m e (fexp prec emax (Zpos (digits2_pos m) + e))) as [He' Hm'].
  destruct (shl_align m e (fexp prec emax (Zpos (digits2_pos m) + e))) as [mz ez].
  cbn [fst snd] in He', Hm'. rewrite fexp64 in He', Hm'. rewrite <- He' in Hm'.
  set (d := Zpos (digits2_pos m)) in *.
  pose proof (digits2_bounds m) as Hd. fold d in Hd.
  assert (Hd1 : 1 <= d) by (unfold d; lia).
  assert (Hk : 0 < twoTo (e - ez)) by (apply twoTo_pos; lia).
  assert (Hdz : Zpos (digits2_pos mz) = d + (e - ez)).
  { apply digits2_unique; [|lia]. rewrite Hm'.
    replace (d + (e - ez) - 1) with (d - 1 + (e - ez)) by lia.
    rewrite !twoTo_add by lia. nia. }
  assert (Hval : Zpos mz * twoTo (ez + 2148) = Zpos m * twoTo (e + 2148)).
  { rewrite Hm'. rewrite <- Z.mul_assoc, <- twoTo_add by lia. f_equal. f_equal. lia. }
  rewrite <- Hval. apply round_aux_faithful; [lia|].
  rewrite Hdz, fexp64. replace (d + (e - ez) + ez) with (d + e) by lia. lia.
Qed.

Lemma faithful_opp (R X : Z) : faithful R X -> faithful (- R) (- X).
Proof.
  intros H Y HY. destruct (H (- Y)) as [H1 H2]; [rewrite Z.abs_opp; exact HY|].
  split; intros; lia.
Qed.

Lemma faithful_exact (X : Z) : faithful X X.
Proof. intros Y _. split; intros; assumption. Qed.

Lemma faithful_eq (R X : Z) : R = X -> faithful R X.
Proof. intros ->. apply faithful_exact. Qed.

Lemma mag_nonneg (x : spec_float) : 0 <= mag x.
Proof.
  destruct x as [| | |s m e]; cbn [mag]; try lia.
  unfold twoTo. pose proof (Z.pow_nonneg 2 (e + 2148)). nia.
Qed.

Lemma units_mag (s : bool) (x : spec_float) :
  hasSign s x -> units x = if s then - mag x else mag x.
Proof.
  destruct x as [s'|s'| |s' m e]; cbn [hasSign units mag]; try (intros <-); try contradiction;
    destruct s'; reflexivity.
Qed.

(** From a rounded magnitude to a rounded signed value. *)
Lemma signed_faithful (s : bool) (r : spec_float) (X : Z) :
  0 < X ->
  hasSign s r ->
  (forall Y, rep Y ->
     (X <= Y -> finiteSF r = true /\ mag r <= Y)
     /\ (Y <= X -> finiteSF r = true -> Y <= mag r)) ->
  ((exists B, rep B /\ X <= B) -> finiteSF r = true)
  /\ (finiteSF r = true -> faithful (units r) (if s then - X else X)).
Proof.
  intros HX Hs H. split.
  - intros (B & HB & HXB). exact (proj1 (proj1 (H B HB) HXB)).
  - intros Hf. rewrite (units_mag s r Hs). pose proof (mag_nonneg r) as Hm.
    assert (Hpos : faithful (mag r) X).
    { intros Y HY. split; intros HXY.
      - rewrite Z.abs_eq in HY by lia. exact (proj2 (proj1 (H Y HY) HXY)).
      - destruct (Z_lt_le_dec Y 0) as [Hneg|Hnn]; [lia|].
        rewrite Z.abs_eq in HY by lia. exact (proj2 (H Y HY) HXY Hf). }
    destruct s; [apply faithful_opp|]; exact Hpos.
Qed.

(** [binary_normalize] rounds the signed exact number [z * 2^e]. *)
Lemma normalize_faithful (z e : Z) :
  -2148 <= e ->
  ((exists B, rep B /\ Z.abs (z * twoTo (e + 2148)) <= B) ->
   finiteSF (binary_normalize prec emax z e false) = true)
  /\ (finiteSF (binary_normalize prec emax z e false) = true ->
      faithful (units (binary_normalize prec emax z e false)) (z * twoTo (e + 2148))).
Proof.
  intros He. assert (Hu : 0 < twoTo (e + 2148)) by (apply twoTo_pos; lia).
  destruct z as [|m|m]; cbn [binary_normalize].
  - split; [reflexivity|]. intros _. cbn [units]. rewrite Z.mul_0_l. apply faithful_exact.
  - destruct (binary_round_faithful false m e He) as [Hs H].
    rewrite Z.abs_eq by nia.
    exact (signed_faithful false _ (Zpos m * twoTo (e + 2148)) ltac:(nia) Hs H).
  - destruct (binary_round_faithful true m e He) as [Hs H].
    replace (Zneg m * twoTo (e + 2148)) with (- (Zpos m * twoTo (e + 2148))) by lia.
    rewrite Z.abs_opp, Z.abs_eq by nia.
    exact (signed_faithful true _ (Zpos m * twoTo (e + 2148)) ltac:(nia) Hs H).
Qed.

(** What validity says about a finite number: its exponent is in range
    and its mantissa has at most 53 digits, exactly 53 above the least
    exponent. *)
Lemma valid_finite (s : bool) (m : positive) (e : Z) :
  valid_binary (S754_finite s m e) = true ->
  -1074 <= e <= 971 /\ Zpos m < twoTo 53 /\ (e = -1074 \/ twoTo 52 <= Zpos m).
Proof.
  cbn [SpecFloat.valid_binary]. unfold bounded, canonical_mantissa.
  rewrite andb_true_iff, Z.eqb_eq, Z.leb_le, fexp64. change (emax - prec) with 971.
  intros [Hc He]. pose proof (digits2_bounds m) as Hd.
  set (d := Zpos (digits2_pos m)) in *.
  assert (Hd1 : 1 <= d) by (unfold d; lia).
  split; [lia|]. split.
  - assert (twoTo d <= twoTo 53) by (apply twoTo_le; lia). lia.
  - destruct (Z.eq_dec e (-1074)) as [|Hne]; [left; assumption|right].
    assert (d = 53) by lia. replace 52 with (d - 1) by lia. lia.
Qed.

Lemma crep_rep (V : Z) : crep V -> rep (Z.abs V).
Proof. intros (mv & ev & Hm & He & _ & HV). exists mv, ev. repeat split; try lia. Qed.

Lemma crep_opp (V : Z) : crep V -> crep (- V).
Proof. unfold crep. rewrite Z.abs_opp. exact (fun H => H). Qed.

Lemma units_crep (x : spec_float) :
  valid_binary x = true -> crep (units x).
Proof.
  intros Hv. destruct x as [s|s| |s m e]; cbn [units];
    try (exists 0, (-1074); cbn; repeat split; try lia; left; reflexivity).
  destruct (valid_finite s m e Hv) as (He & Hm & Hn).
  assert (0 < twoTo (e + 2148)) by (apply twoTo_pos; lia).
  exists (Zpos m), e. repeat split; try lia. destruct s; lia.
Qed.

Lemma rep_0 : rep 0.
Proof. exists 0, (-1074). cbn. repeat split; lia. Qed.

(** Addition and subtraction round the exact sum and difference. *)
Lemma SFadd_faithful (x y : spec_float) :
  valid_binary x = true -> valid_binary y = true ->
  finiteSF x = true -> finiteSF y = true ->
  ((exists B, rep B /\ Z.abs (units x + units y) <= B) -> finiteSF (SF64add x y) = true)
  /\ (finiteSF (SF64add x y) = true -> faithful (units (SF64add x y)) (units x + units y)).
Proof.
  intros Hx Hy Fx Fy. unfold SF64add.
  destruct x as [sx|sx| |sx mx ex]; try discriminate Fx;
    destruct y as [sy|sy| |sy my ey]; try discriminate Fy; cbn [SFadd].
  - split; [destruct sx, sy; reflexivity|]. intros _.
    destruct sx, sy; cbn [units]; apply faithful_exact.
  - split; [reflexivity|]. intros _. cbn [units]. rewrite Z.add_0_l. apply faithful_exact.
  - split; [reflexivity|]. intros _. cbn [units]. rewrite Z.add_0_r. apply faithful_exact.
  - destruct (valid_finite sx mx ex Hx) as (Hex & _). destruct (valid_finite sy my ey Hy) as (Hey & _).
    destruct (shl_align_spec mx ex (Z.min ex ey)) as [_ Hmx].
    destruct (shl_align_spec my ey (Z.min ex ey)) as [_ Hmy].
    replace (Z.min ex (Z.min ex ey)) with (Z.min ex ey) in Hmx by lia.
    replace (Z.min ey (Z.min ex ey)) with (Z.min ex ey) in Hmy by lia.
    set (ez := Z.min ex ey) in *.
    assert (Hval : (cond_Zopp sx (Zpos (fst (shl_align mx ex ez)))
                    + cond_Zopp sy (Zpos (fst (shl_align my ey ez)))) * twoTo (ez + 2148)
                   = units (S754_finite sx mx ex) + units (S754_finite sy my ey)).
    { rewrite Hmx, Hmy. cbn [units].
      assert (Hax : twoTo (ex + 2148) = twoTo (ex - ez) * twoTo (ez + 2148)).
      { rewrite <- twoTo_add by lia. f_equal. lia. }
      assert (Hay : twoTo (ey + 2148) = twoTo (ey - ez) * twoTo (ez + 2148)).
      { rewrite <- twoTo_add by lia. f_equal. lia. }
      rewrite Hax, Hay. destruct sx, sy; cbn [cond_Zopp]; ring. }
    rewrite <- Hval. apply normalize_faithful. lia.
Qed.

Lemma SFsub_faithful (x y : spec_float) :
  valid_binary x = true -> valid_binary y = true ->
  finiteSF x = true -> finiteSF y = true ->
  ((exists B, rep B /\ Z.abs (units x - units y) <= B) -> finiteSF (SF64sub x y) = true)
  /\ (finiteSF (SF64sub x y) = true -> faithful (units (SF64sub x y)) (units x - units y)).
Proof.
  intros Hx Hy Fx Fy. unfold SF64sub.
  destruct x as [sx|sx| |sx mx ex]; try discriminate Fx;
    destruct y as [sy|sy| |sy my ey]; try discriminate Fy; cbn [SFsub].
  - split; [destruct sx, sy; reflexivity|]. intros _.
    destruct sx, sy; cbn [units]; apply faithful_exact.
  - split; [reflexivity|]. intros _.
    destruct sy; cbn [negb units]; apply faithful_eq; lia.
  - split; [reflexivity|]. intros _. cbn [units]. rewrite Z.sub_0_r. apply faithful_exact.
  - destruct (valid_finite sx mx ex Hx) as (Hex & _). destruct (valid_finite sy my ey Hy) as (Hey & _).
    destruct (shl_align_spec mx ex (Z.min ex ey)) as [_ Hmx].
    destruct (shl_align_spec my ey (Z.min ex ey)) as [_ Hmy].
    replace (Z.min ex (Z.min ex ey)) with (Z.min ex ey) in Hmx by lia.
    replace (Z.min ey (Z.min ex ey)) with (Z.min ex ey) in Hmy by lia.
    set (ez := Z.min ex ey) in *.
    assert (Hval : (cond_Zopp sx (Zpos (fst (shl_align mx ex ez)))
                    - cond_Zopp sy (Zpos (fst (shl_align my ey ez)))) * twoTo (ez + 2148)
                   = units (S754_finite sx mx ex) - units (S754_finite sy my ey)).
    { rewrite Hmx, Hmy. cbn [units].
      assert (Hax : twoTo (ex + 2148) = twoTo (ex - ez) * twoTo (ez + 2148)).
      { rewrite <- twoTo_add by lia. f_equal. lia. }
      assert (Hay : twoTo (ey + 2148) = twoTo (ey - ez) * twoTo (ez + 2148)).
      { rewrite <- twoTo_add by lia. f_equal. lia. }
      rewrite Hax, Hay. destruct sx, sy; cbn [cond_Zopp]; ring. }
    rewrite <- Hval. apply normalize_faithful. lia.
Qed.

(** Multiplication rounds the exact product [X], given by
    [X * 2^2148 = units x * units y]. *)
Lemma SFmul_faithful (x y : spec_float) (X : Z) :
  valid_binary x = true -> valid_binary y = true ->
  finiteSF x = true -> finiteSF y = true ->
  X * twoTo 2148 = units x * units y ->
  ((exists B, rep B /\ Z.abs X <= B) -> finiteSF (SF64mul x y) = true)
  /\ (finiteSF (SF64mul x y) = true -> faithful (units (SF64mul x y)) X).
Proof.
  intros Hx Hy Fx Fy HX. unfold SF64mul.
  assert (HK : 0 < twoTo 2148) by (apply twoTo_pos; lia).
  assert (H0 : units x * units y = 0 -> X = 0) by (intros H; nia).
  destruct x as [sx|sx| |sx mx ex]; try discriminate Fx;
    destruct y as [sy|sy| |sy my ey]; try discriminate Fy; cbn [SFmul];
    try (rewrite (H0 ltac:(cbn [units]; lia));
         split; [reflexivity | intros _; cbn [units]; apply faithful_exact]).
  destruct (valid_finite sx mx ex Hx) as (Hex & Hmx & Hnx).
  destruct (valid_finite sy my ey Hy) as (Hey & Hmy & Hny).
  assert (Hux : 0 < twoTo (ex + 2148)) by (apply twoTo_pos; lia).
  assert (Huy : 0 < twoTo (ey + 2148)) by (apply twoTo_pos; lia).
  assert (Hu : twoTo (ex + 2148) * twoTo (ey + 2148) = twoTo (ex + ey + 2148) * twoTo 2148).
  { rewrite <- !twoTo_add by lia. f_equal. lia. }
  assert (Hv : 0 < twoTo (ex + ey + 2148)) by (apply twoTo_pos; lia).
  assert (Hval : X = if xorb sx sy
                     then - (Zpos (mx * my) * twoTo (ex + ey + 2148))
                     else Zpos (mx * my) * twoTo (ex + ey + 2148)).
  { rewrite Pos2Z.inj_mul. cbn [units] in HX.
    apply (Z.mul_cancel_r _ _ (twoTo 2148)); [lia|]. rewrite HX.
    destruct sx, sy; cbn [xorb]; nia. }
  assert (Hfexp : ex + ey <= fexp prec emax (Zpos (digits2_pos (mx * my)) + (ex + ey))).
  { rewrite fexp64.
    pose proof (digits2_bounds (mx * my)) as Hd. rewrite Pos2Z.inj_mul in Hd.
    set (d := Zpos (digits2_pos (mx * my))) in *.
    destruct Hnx as [Hnx|Hnx]; [destruct Hny as [Hny|Hny]; [lia|]|].
    - assert (twoTo 52 <= Zpos mx * Zpos my) by nia.
      destruct (Z_le_gt_dec 53 d) as [|Hlt]; [lia|].
      assert (twoTo d <= twoTo 52) by (apply twoTo_le; unfold d; lia). lia.
    - assert (twoTo 52 <= Zpos mx * Zpos my) by nia.
      destruct (Z_le_gt_dec 53 d) as [|Hlt]; [lia|].
      assert (twoTo d <= twoTo 52) by (apply twoTo_le; unfold d; lia). lia. }
  destruct (round_aux_faithful (xorb sx sy) (mx * my) (ex + ey) ltac:(lia) Hfexp) as [Hs H].
  pose proof (signed_faithful (xorb sx sy) _ (Zpos (mx * my) * twoTo (ex + ey + 2148))
                ltac:(nia) Hs H) as [Hfin Hfaith].
  rewrite Hval. split.
  - intros (B & HB & HXB). apply Hfin. exists B. split; [exact HB|].
    destruct (xorb sx sy); lia.
  - exact Hfaith.
Qed.

(** Comparison of finite numbers is comparison of their values. *)
Lemma canonical_lt (m1 m2 : positive) (e1 e2 : Z) :
  valid_binary (S754_finite false m1 e1) = true ->
  valid_binary (S754_finite false m2 e2) = true ->
  e1 < e2 ->
  Zpos m1 * twoTo (e1 + 2148) < Zpos m2 * twoTo (e2 + 2148).
Proof.
  intros H1 H2 He.
  destruct (valid_finite _ _ _ H1) as (He1 & Hm1 & _).
  destruct (valid_finite _ _ _ H2) as (He2 & _ & [Hn|Hn]); [lia|].
  assert (Hu : 0 < twoTo (e1 + 2148)) by (apply twoTo_pos; lia).
  assert (Hs : twoTo (e2 + 2148) = twoTo (e1 + 2148) * twoTo (e2 - e1)).
  { rewrite <- twoTo_add by lia. f_equal. lia. }
  assert (Hk : 2 <= twoTo (e2 - e1)) by (change 2 with (twoTo 1); apply twoTo_le; lia).
  assert (H53 : twoTo 53 = 2 * twoTo 52) by reflexivity.
  assert (H52 : 0 < twoTo 52) by (apply twoTo_pos; lia).
  rewrite Hs.
  set (u := twoTo (e1 + 2148)) in *. set (k := twoTo (e2 - e1)) in *.
  assert (Ha : Zpos m1 * u < 2 * twoTo 52 * u) by nia.
  assert (Hb : 2 * twoTo 52 <= Zpos m2 * k) by nia.
  assert (Hc : 2 * twoTo 52 * u <= Zpos m2 * k * u) by nia.
  lia.
Qed.

Lemma SFcompare_units (x y : spec_float) :
  valid_binary x = true -> valid_binary y = true ->
  finiteSF x = true -> finiteSF y = true ->
  SFcompare x y = Some (units x ?= units y).
Proof.
  intros Hx Hy Fx Fy.
  destruct x as [sx|sx| |sx mx ex]; try discriminate Fx;
    destruct y as [sy|sy| |sy my ey]; try discriminate Fy; cbn [SFcompare units].
  - reflexivity.
  - destruct (valid_finite _ _ _ Hy) as (He & _).
    assert (0 < twoTo (ey + 2148)) by (apply twoTo_pos; lia).
    f_equal. symmetry. destruct sy; [apply Z.compare_gt_iff | apply Z.compare_lt_iff]; nia.
  - destruct (valid_finite _ _ _ Hx) as (He & _).
    assert (0 < twoTo (ex + 2148)) by (apply twoTo_pos; lia).
    f_equal. symmetry. destruct sx; [apply Z.compare_lt_iff | apply Z.compare_gt_iff]; nia.
  - destruct (valid_finite _ _ _ Hx) as (Hex & _). destruct (valid_finite _ _ _ Hy) as (Hey & _).
    assert (Hux : 0 < twoTo (ex + 2148)) by (apply twoTo_pos; lia).
    assert (Huy : 0 < twoTo (ey + 2148)) by (apply twoTo_pos; lia).
    assert (Hpos : forall m1 m2 e1 e2,
               valid_binary (S754_finite false m1 e1) = true ->
               valid_binary (S754_finite false m2 e2) = true ->
               match e1 ?= e2 with
               | Lt => Lt
               | Gt => Gt
               | Eq => Pos.compare_cont Eq m1 m2
               end = (Zpos m1 * twoTo (e1 + 2148) ?= Zpos m2 * twoTo (e2 + 2148))).
    { intros m1 m2 e1 e2 V1 V2. destruct (Z.compare_spec e1 e2) as [->|Hlt|Hgt].
      - destruct (valid_finite _ _ _ V2) as (He & _).
        assert (0 < twoTo (e2 + 2148)) by (apply twoTo_pos; lia).
        change (Pos.compare_cont Eq m1 m2) with (Zpos m1 ?= Zpos m2).
        apply Zmult_compare_compat_r. lia.
      - symmetry. apply Z.compare_lt_iff. apply canonical_lt; assumption.
      - symmetry. apply Z.compare_gt_iff. apply canonical_lt; assumption. }
    f_equal. destruct sx, sy.
    + transitivity (CompOpp (Zpos mx * twoTo (ex + 2148) ?= Zpos my * twoTo (ey + 2148))).
      { rewrite <- (Hpos mx my ex ey Hx Hy). destruct (ex ?= ey); reflexivity. }
      destruct (Z.compare_spec (Zpos mx * twoTo (ex + 2148)) (Zpos my * twoTo (ey + 2148)))
        as [Heq|Hlt|Hgt]; cbn [CompOpp]; symmetry;
        [apply Z.compare_eq_iff | apply Z.compare_gt_iff | apply Z.compare_lt_iff]; lia.
    + symmetry. apply Z.compare_lt_iff. nia.
    + symmetry. apply Z.compare_gt_iff. nia.
    + exact (Hpos mx my ex ey Hx Hy).
Qed.

(** The same facts on the primitive operations. *)
Lemma value_crep (v : float) : crep (value v).
Proof. apply units_crep. apply Prim2SF_valid. Qed.

Lemma leb_value (x y : float) :
  finite x = true -> finite y = true ->
  (x <=? y)%float = (value x <=? value y).
Proof.
  intros Fx Fy. rewrite leb_spec. unfold SFleb.
  rewrite (SFcompare_units _ _ (Prim2SF_valid x) (Prim2SF_valid y) Fx Fy).
  unfold value, Z.leb. destruct (units (Prim2SF x) ?= units (Prim2SF y)); reflexivity.
Qed.

Lemma eqb_value (x y : float) :
  finite x = true -> finite y = true ->
  (x =? y)%float = (value x =? value y).
Proof.
  intros Fx Fy. rewrite FloatAxioms.eqb_spec. unfold SFeqb.
  rewrite (SFcompare_units _ _ (Prim2SF_valid x) (Prim2SF_valid y) Fx Fy).
  unfold value.
  destruct (Z.compare_spec (units (Prim2SF x)) (units (Prim2SF y))) as [E|E|E].
  - rewrite E. symmetry. apply Z.eqb_refl.
  - symmetry. apply Z.eqb_neq. lia.
  - symmetry. apply Z.eqb_neq. lia.
Qed.

Lemma add_value (x y : float) :
  finite x = true -> finite y = true ->
  ((exists B, rep B /\ Z.abs (value x + value y) <= B) -> finite (x + y) = true)
  /\ (finite (x + y) = true -> faithful (value (x + y)) (value x + value y)).
Proof.
  intros Fx Fy. unfold finite, value. rewrite add_spec.
  exact (SFadd_faithful _ _ (Prim2SF_valid x) (Prim2SF_valid y) Fx Fy).
Qed.

Lemma sub_value (x y : float) :
  finite x = true -> finite y = true ->
  ((exists B, rep B /\ Z.abs (value x - value y) <= B) -> finite (x - y) = true)
  /\ (finite (x - y) = true -> faithful (value (x - y)) (value x - value y)).
Proof.
  intros Fx Fy. unfold finite, value. rewrite sub_spec.
  exact (SFsub_faithful _ _ (Prim2SF_valid x) (Prim2SF_valid y) Fx Fy).
Qed.

Lemma mul_value (x y : float) (X : Z) :
  finite x = true -> finite y = true ->
  X * twoTo 2148 = value x * value y ->
  ((exists B, rep B /\ Z.abs X <= B) -> finite (x * y) = true)
  /\ (finite (x * y) = true -> faithful (value (x * y)) X).
Proof.
  intros Fx Fy HX. unfold finite, value. rewrite mul_spec.
  exact (SFmul_faithful _ _ X (Prim2SF_valid x) (Prim2SF_valid y) Fx Fy HX).
Qed.

(** A coordinate in range is finite and at most [2^1022]. *)
Lemma inRange_value (v : float) :
  inRange v = true <->
  finite v = true /\ Z.abs (value v) <= twoTo 52 * twoTo (970 + 2148).
Proof.
  unfold inRange, finite, value. rewrite leb_spec, abs_spec.
  assert (Hb : Prim2SF 0x1p1022 = S754_finite false 4503599627370496 970) by (vm_compute; reflexivity).
  rewrite Hb. pose proof (Prim2SF_valid v) as Hv.
  destruct (Prim2SF v) as [s|s| |s m e]; cbn [SFabs finiteSF units].
  - cbn. split; [intros _; split; [reflexivity|] | reflexivity].
    assert (0 < twoTo (970 + 2148)) by (apply twoTo_pos; lia).
    change (twoTo 52) with 4503599627370496. lia.
  - cbn. split; [discriminate | intros [H _]; discriminate H].
  - cbn. split; [discriminate | intros [H _]; discriminate H].
  - assert (Hv' : valid_binary (S754_finite false m e) = true) by exact Hv.
    assert (Hvb : valid_binary (S754_finite false 4503599627370496 970) = true) by reflexivity.
    unfold SFleb. rewrite (SFcompare_units _ _ Hv' Hvb eq_refl eq_refl).
    cbn [units]. destruct (valid_finite _ _ _ Hv) as (He & _).
    assert (0 < twoTo (e + 2148)) by (apply twoTo_pos; lia).
    change 4503599627370496 with (twoTo 52).
    replace (Z.abs (if s then - (Zpos m * twoTo (e + 2148)) else Zpos m * twoTo (e + 2148)))
      with (Zpos m * twoTo (e + 2148)) by (destruct s; nia).
    destruct (Z.compare_spec (Zpos m * twoTo (e + 2148)) (twoTo 52 * twoTo (970 + 2148)));
      split; try (intros _; split; [reflexivity | lia]); try discriminate; intros [_ H']; lia.
Qed.

(** Every finite binary64 value is a multiple of the least positive one,
    [2^-1074]. *)
Lemma crep_multiple (V : Z) : crep V -> exists k, V = k * twoTo 1074.
Proof.
  intros (mv & ev & Hm & He & _ & HV).
  assert (Hs : twoTo (ev + 2148) = twoTo (ev + 1074) * twoTo 1074).
  { rewrite <- twoTo_add by lia. f_equal. lia. }
  rewrite Hs in HV.
  destruct (Z_le_gt_dec 0 V) as [Hp|Hn].
  - exists (mv * twoTo (ev + 1074)). lia.
  - exists (- (mv * twoTo (ev + 1074))). lia.
Qed.

(** One interpolation step towards a target that is not below the
    cursor, on the values: the increment [E], the rounded product of the
    rounded difference [D] by a factor of at most one half, is not
    negative and not more than the exact difference. *)
Lemma step_core (C T D E X2 A : Z) :
  crep C -> crep T -> crep D ->
  faithful D (T - C) ->
  X2 * twoTo 2148 = D * A -> 0 <= A -> 2 * A <= twoTo 2148 ->
  faithful E X2 ->
  C <= T ->
  0 <= E <= T - C.
Proof.
  intros HC HT HD HfD HX2 HA0 HA1 HfE Hle.
  assert (HK : 0 < twoTo 2148) by (apply twoTo_pos; lia).
  assert (HD0 : 0 <= D) by (apply (HfD 0 rep_0); lia).
  assert (HX0 : 0 <= X2) by nia.
  assert (HX2D : 2 * X2 <= D) by nia.
  assert (HE0 : 0 <= E) by (apply (HfE 0 rep_0); lia).
  split; [exact HE0|].
  destruct (Z_le_gt_dec D (T - C)) as [Hdown | Hup].
  - assert (E <= D); [|lia].
    apply (HfE D (crep_rep D HD)). lia.
  - destruct HD as (md & ed & Hmd & Hed & Hnorm & HDv).
    rewrite Z.abs_eq in HDv by lia.
    assert (Hg : 0 < twoTo (ed + 2148)) by (apply twoTo_pos; lia).
    destruct (Z_le_gt_dec 2 md) as [Hbig | Hsmall].
    + set (Y := (md - 1) * twoTo (ed + 2148)).
      assert (HY0 : 0 <= Y) by (unfold Y; nia).
      assert (HYr : rep (Z.abs Y)).
      { rewrite Z.abs_eq by exact HY0. exists (md - 1), ed. repeat split; lia. }
      assert (HYD : Y < D) by (unfold Y; nia).
      assert (HYX : Y < T - C).
      { destruct (Z_lt_le_dec Y (T - C)) as [|Hge]; [assumption|].
        pose proof (proj1 (HfD Y HYr) Hge). lia. }
      assert (HXY : X2 <= Y) by (unfold Y; nia).
      pose proof (proj1 (HfE Y HYr) HXY). lia.
    + exfalso.
      assert (Hmd1 : md = 1) by nia.
      assert (H52 : 0 < twoTo 52) by (apply twoTo_pos; lia).
      assert (Hed1 : ed = -1074) by (destruct Hnorm as [|H]; [assumption | change (twoTo 52) with 4503599627370496 in H; lia]).
      subst md ed. change (-1074 + 2148) with 1074 in *.
      destruct (crep_multiple C HC) as (kc & ->). destruct (crep_multiple T HT) as (kt & ->).
      assert (Hk : kt - kc = 0) by nia.
      assert (H0 : kt * twoTo 1074 - kc * twoTo 1074 <= 0) by nia.
      pose proof (proj1 (HfD 0 rep_0) H0). lia.
Qed.

(** The smoothing factor: the binary64 number nearest to 0.2, which is
    [7205759403792794 * 2^-55], not above one half. *)
Lemma value_smoothing : value smoothing = 7205759403792794 * twoTo 2093.
Proof. reflexivity. Qed.

Lemma finite_smoothing : finite smoothing = true.
Proof. reflexivity. Qed.

Lemma rep_bounds :
  rep (twoTo 52 * twoTo (970 + 2148)) /\ rep (twoTo 52 * twoTo (971 + 2148))
  /\ twoTo 52 * twoTo (971 + 2148) = 2 * (twoTo 52 * twoTo (970 + 2148)).
Proof.
  assert (H52 : 0 < twoTo 52 < twoTo 53) by (split; [apply twoTo_pos | apply twoTo_lt]; lia).
  split; [exists (twoTo 52), 970; repeat split; lia|].
  split; [exists (twoTo 52), 971; repeat split; lia|].
  replace (971 + 2148) with (970 + 2148 + 1) by lia. rewrite twoTo_succ by lia. lia.
Qed.

(** One interpolation step, on the values, in both directions. *)
Lemma lerp_value (c t : float) :
  inRange c = true -> inRange t = true ->
  finite (c + (t - c) * smoothing) = true
  /\ (value c <= value t ->
      value c <= value (c + (t - c) * smoothing) <= value t)
  /\ (value t <= value c ->
      value t <= value (c + (t - c) * smoothing) <= value c).
Proof.
  intros Hc Ht.
  apply inRange_value in Hc, Ht. destruct Hc as [Fc Bc], Ht as [Ft Bt].
  destruct rep_bounds as (Hr1 & Hr2 & H2).
  set (B := twoTo 52 * twoTo (970 + 2148)) in *.
  (* the difference *)
  destruct (sub_value t c Ft Fc) as [Fd' Hd'].
  assert (Fd : finite (t - c) = true).
  { apply Fd'. exists (twoTo 52 * twoTo (971 + 2148)). split; [exact Hr2 | lia]. }
  specialize (Hd' Fd). clear Fd'.
  (* the product *)
  pose proof (value_crep (t - c)) as HDc.
  destruct (crep_multiple _ HDc) as (k & Hk).
  set (X2 := k * (7205759403792794 * twoTo 1019)).
  assert (H2093 : twoTo 2093 = twoTo 1019 * twoTo 1074) by (rewrite <- twoTo_add by lia; reflexivity).
  assert (H2148 : twoTo 2148 = twoTo 1074 * twoTo 1074) by (rewrite <- twoTo_add by lia; reflexivity).
  assert (H55 : twoTo 2148 = 36028797018963968 * twoTo 2093).
  { change 36028797018963968 with (twoTo 55). rewrite <- twoTo_add by lia. reflexivity. }
  assert (Hu : 0 < twoTo 1074) by (apply twoTo_pos; lia).
  assert (Hv : 0 < twoTo 1019) by (apply twoTo_pos; lia).
  assert (Hw : 0 < twoTo 2093) by (apply twoTo_pos; lia).
  assert (HX2 : X2 * twoTo 2148 = value (t - c) * value smoothing).
  { rewrite Hk, value_smoothing, H2093, H2148. unfold X2. ring. }
  assert (HA0 : 0 <= value smoothing) by (rewrite value_smoothing; lia).
  assert (HA1 : 2 * value smoothing <= twoTo 2148) by (rewrite value_smoothing, H55; lia).
  destruct (mul_value (t - c) smoothing X2 Fd finite_smoothing HX2) as [Fe' He'].
  assert (HX2abs : Z.abs X2 <= Z.abs (value (t - c))).
  { assert (2 * Z.abs X2 * twoTo 2148 <= Z.abs (value (t - c)) * twoTo 2148); [|nia].
    rewrite <- Z.mul_assoc, <- (Z.abs_eq (twoTo 2148)) at 1 by lia.
    rewrite <- Z.abs_mul, HX2, Z.abs_mul, (Z.abs_eq (value smoothing)) by lia.
    pose proof (Z.abs_nonneg (value (t - c))). nia. }
  assert (Fe : finite ((t - c) * smoothing) = true).
  { apply Fe'. exists (Z.abs (value (t - c))). split; [apply crep_rep; exact HDc | exact HX2abs]. }
  specialize (He' Fe). clear Fe'.
  (* the increment lies between zero and the exact difference *)
  assert (Hup : value c <= value t -> 0 <= value ((t - c) * smoothing) <= value t - value c).
  { intros Hle.
    exact (step_core _ _ _ _ X2 _ (value_crep c) (value_crep t) HDc Hd' HX2 HA0 HA1 He' Hle). }
  assert (Hdown : value t <= value c -> value t - value c <= value ((t - c) * smoothing) <= 0).
  { intros Hle.
    assert (H : 0 <= - value ((t - c) * smoothing) <= - value t - - value c); [|lia].
    apply (step_core (- value c) (- value t) (- value (t - c)) _ (- X2) (value smoothing)).
    - apply crep_opp, value_crep.
    - apply crep_opp, value_crep.
    - apply crep_opp, HDc.
    - replace (- value t - - value c) with (- (value t - value c)) by lia.
      apply faithful_opp, Hd'.
    - lia.
    - exact HA0.
    - exact HA1.
    - apply faithful_opp, He'.
    - lia. }
  (* the sum *)
  destruct (add_value c ((t - c) * smoothing) Fc Fe) as [Fs' Hs'].
  assert (Fs : finite (c + (t - c) * smoothing) = true).
  { apply Fs'. exists B. split; [exact Hr1|].
    destruct (Z_le_gt_dec (value c) (value t)) as [Hle|Hgt]; [specialize (Hup Hle) | specialize (Hdown ltac:(lia))]; lia. }
  specialize (Hs' Fs). clear Fs'.
  split; [exact Fs|]. split; intros Hle.
  - specialize (Hup Hle). split.
    + apply (Hs' (value c) (crep_rep _ (value_crep c))). lia.
    + apply (Hs' (value t) (crep_rep _ (value_crep t))). lia.
  - specialize (Hdown Hle). split.
    + apply (Hs' (value t) (crep_rep _ (value_crep t))). lia.
    + apply (Hs' (value c) (crep_rep _ (value_crep c))). lia.
Qed.

(** One interpolation step in binary64: the new cursor is between the
    old one and the target. *)
Lemma lerp_between (c t : float) :
  inRange c = true -> inRange t = true ->
  inRange (c + (t - c) * smoothing) = true
  /\ ((c <=? t)%float = true ->
      (c <=? c + (t - c) * smoothing)%float = true
      /\ (c + (t - c) * smoothing <=? t)%float = true)
  /\ ((t <=? c)%float = true ->
      (t <=? c + (t - c) * smoothing)%float = true
      /\ (c + (t - c) * smoothing <=? c)%float = true).
Proof.
  intros Hc Ht. destruct (lerp_value c t Hc Ht) as (Fs & Hup & Hdown).
  pose proof (proj1 (inRange_value c) Hc) as [Fc Bc].
  pose proof (proj1 (inRange_value t) Ht) as [Ft Bt].
  rewrite !leb_value by assumption. rewrite !Z.leb_le.
  split; [|split; assumption].
  apply inRange_value. split; [exact Fs|].
  destruct (Z_le_gt_dec (value c) (value t)) as [Hle|Hgt];
    [specialize (Hup Hle) | specialize (Hdown ltac:(lia))]; lia.
Qed.

Lemma value_finite (v : float) (s : bool) (m : positive) (e : Z) :
  Prim2SF v = S754_finite s m e -> -1074 <= e.
Proof.
  intros H. pose proof (Prim2SF_valid v) as Hv. rewrite H in Hv.
  destruct (valid_finite _ _ _ Hv) as (He & _). lia.
Qed.
End Binary64.

(** *** Exact values *)

(** The number a binary64 value denotes is its count of units times
    [2^-2148], so the two orders agree. *)
Lemma exact_value (v : float) : (exact v == inject_Z (value v) * 2 ^ (-2148))%Q.
Proof.
  unfold exact, value. destruct (Prim2SF v) as [s|s| |s m e] eqn:E; cbn [units];
    try (rewrite Qmult_0_l; reflexivity).
  pose proof (value_finite v s m e E) as He.
  assert (Hp : (2 ^ e == inject_Z (twoTo (e + 2148)) * 2 ^ (-2148))%Q).
  { unfold twoTo. rewrite Zpower_Qpower by lia. rewrite <- Qpower_plus by discriminate.
    replace (e + 2148 + -2148)%Z with e by lia. reflexivity. }
  rewrite Hp. destruct s.
  - rewrite inject_Z_opp, inject_Z_mult. ring.
  - rewrite inject_Z_mult. ring.
Qed.

Lemma exact_le (x y : float) : (value x <= value y)%Z <-> (exact x <= exact y)%Q.
Proof.
  rewrite !exact_value.
  assert (Hc : (0 < 2 ^ (-2148))%Q) by (apply Qpower_0_lt; reflexivity).
  rewrite Zle_Qle. split; intros H.
  - apply Qmult_le_compat_r; [exact H | apply Qlt_le_weak; exact Hc].
  - apply Qmult_le_r in H; assumption.
Qed.

Lemma exact_lt (x y : float) : (value x < value y)%Z <-> (exact x < exact y)%Q.
Proof.
  rewrite !exact_value.
  assert (Hc : (0 < 2 ^ (-2148))%Q) by (apply Qpower_0_lt; reflexivity).
  rewrite Zlt_Qlt. split; intros H.
  - apply Qmult_lt_compat_r; assumption.
  - apply Qmult_lt_r in H; assumption.
Qed.

(** A point between [c] and [t] is not farther from [t] than [c] is, and
    nearer when it is not [c]. *)
Lemma Qdist_nearer (c c' t : Q) :
  ((c < c' /\ c' <= t) \/ (t <= c' /\ c' < c))%Q ->
  (Qabs (t - c') < Qabs (t - c))%Q.
Proof.
  intros [[H1 H2] | [H1 H2]].
  - rewrite !Qabs_pos by lra. lra.
  - rewrite !Qabs_neg by lra. lra.
Qed.

Lemma Qdist_between (c c' t : Q) :
  ((c <= c' /\ c' <= t) \/ (t <= c' /\ c' <= c))%Q ->
  (Qabs (t - c') <= Qabs (t - c))%Q.
Proof.
  intros [[H1 H2] | [H1 H2]].
  - rewrite !Qabs_pos by lra. lra.
  - rewrite !Qabs_neg by lra. lra.
Qed.

(** *** The smoother on the engine *)

(** One interpolation step in binary64 keeps the cursor in range and
    brings it no farther from the target. *)
Lemma lerp_approaches (c t : float) :
  inRange c = true -> inRange t = true ->
  inRange (c + (t - c) * smoothing) = true
  /\ approaches t c (c + (t - c) * smoothing).
Proof.
  intros Hc Ht. destruct (lerp_value c t Hc Ht) as (Fs & Hup & Hdown).
  destruct (lerp_between c t Hc Ht) as (Hr & Hle & Hge).
  pose proof (proj1 (inRange_value c) Hc) as [Fc _].
  pose proof (proj1 (inRange_value t) Ht) as [Ft _].
  split; [exact Hr|]. split; [exact Hle|]. split; [exact Hge|]. split; [|split].
  - rewrite !leb_value by assumption. rewrite !Z.leb_le. lia.
  - apply Qdist_between.
    destruct (Z_le_gt_dec (value c) (value t)) as [H|H]; [left | right].
    + destruct (Hup H) as [H1 H2]. split; apply exact_le; assumption.
    + destruct (Hdown ltac:(lia)) as [H1 H2]. split; apply exact_le; assumption.
  - rewrite eqb_value by assumption. intros Hne. apply Z.eqb_neq in Hne.
    apply Qdist_nearer.
    destruct (Z_le_gt_dec (value c) (value t)) as [H|H]; [left | right].
    + destruct (Hup H) as [H1 H2]. split; [apply exact_lt; lia | apply exact_le; assumption].
    + destruct (Hdown ltac:(lia)) as [H1 H2].
      split; [apply exact_le; assumption | apply exact_lt; lia].
Qed.

(** Where a tracked frame leaves the cursor: one interpolation step from
    the old cursor towards the frame's raw target. *)
Lemma frame_cursor (env : Tick) (this : Engine) (p : Points) :
  sees env this = Some p ->
  cursorX (frame env this)
  = (cursorX this
     + (mirror (Landmark.x (indexTip p)) (innerWidth env) - cursorX this) * smoothing)%float
  /\ cursorY (frame env this)
     = (cursorY this + (Landmark.y (indexTip p) * innerHeight env - cursorY this) * smoothing)%float.
Proof. intros H. rewrite (frame_tracked env this p H). split; reflexivity. Qed.

(** Over frames that all ask for one target, every frame brings the
    cursor no farther from it, on each axis. *)
Lemma smoother_run (tx ty : float) (envs : list Tick) :
  inRange tx = true -> inRange ty = true ->
  forall this : Engine,
    aimsAt tx ty envs this ->
    inRange (cursorX this) = true -> inRange (cursorY this) = true ->
    forall k, (k < List.length envs)%nat ->
      approaches tx (cursorX (frames (firstn k envs) this))
        (cursorX (frames (firstn (S k) envs) this))
      /\ approaches ty (cursorY (frames (firstn k envs) this))
           (cursorY (frames (firstn (S k) envs) this)).
Proof.
  intros Htx Hty. induction envs as [|env rest IH]; intros this Ha Hcx Hcy k Hk;
    [cbn in Hk; lia|].
  cbn [aimsAt] in Ha. destruct Ha as ((p & Hs & Hx & Hy) & Hrest).
  destruct (frame_cursor env this p Hs) as (Ex & Ey). rewrite Hx in Ex. rewrite Hy in Ey.
  destruct (lerp_approaches (cursorX this) tx Hcx Htx) as (Hrx & Hax).
  destruct (lerp_approaches (cursorY this) ty Hcy Hty) as (Hry & Hay).
  rewrite <- Ex in Hrx, Hax. rewrite <- Ey in Hry, Hay.
  destruct k as [|k].
  - cbn [firstn frames]. split; assumption.
  - cbn [firstn frames]. apply (IH (frame env this) Hrest Hrx Hry k).
    cbn [List.length] in Hk. lia.
Qed.

(** Over such frames the cursor stays on the side of the target it
    started on. *)
Lemma smoother_side (tx ty : float) (envs : list Tick) :
  inRange tx = true -> inRange ty = true ->
  forall this : Engine,
    aimsAt tx ty envs this ->
    inRange (cursorX this) = true -> inRange (cursorY this) = true ->
    forall k : nat,
      ((cursorX this <=? tx)%float = true ->
       (cursorX (frames (firstn k envs) this) <=? tx)%float = true)
      /\ ((tx <=? cursorX this)%float = true ->
          (tx <=? cursorX (frames (firstn k envs) this))%float = true)
      /\ ((cursorY this <=? ty)%float = true ->
          (cursorY (frames (firstn k envs) this) <=? ty)%float = true)
      /\ ((ty <=? cursorY this)%float = true ->
          (ty <=? cursorY (frames (firstn k envs) this))%float = true).
Proof.
  intros Htx Hty. induction envs as [|env rest IH]; intros this Ha Hcx Hcy k.
  - rewrite firstn_nil. cbn [frames]. repeat split; intros H; exact H.
  - destruct k as [|k]; [cbn [firstn frames]; repeat split; intros H; exact H|].
    cbn [aimsAt] in Ha. destruct Ha as ((p & Hs & Hx & Hy) & Hrest).
    destruct (frame_cursor env this p Hs) as (Ex & Ey). rewrite Hx in Ex. rewrite Hy in Ey.
    destruct (lerp_approaches (cursorX this) tx Hcx Htx) as (Hrx & Hlx & Hgx & _).
    destruct (lerp_approaches (cursorY this) ty Hcy Hty) as (Hry & Hly & Hgy & _).
    rewrite <- Ex in Hrx, Hlx, Hgx. rewrite <- Ey in Hry, Hly, Hgy.
    cbn [firstn frames].
    destruct (IH (frame env this) Hrest Hrx Hry k) as (I1 & I2 & I3 & I4).
    split; [intros H; exact (I1 (proj2 (Hlx H)))|].
    split; [intros H; exact (I2 (proj1 (Hgx H)))|].
    split; [intros H; exact (I3 (proj2 (Hly H)))|].
    intros H; exact (I4 (proj1 (Hgy H))).
Qed.

(** C4.  A new service has its cursor at the centre of the window.  Over
    frames that all ask for the raw target [(tx, ty)] the cursor is the
    iteration of [c + (target - c) * 0.2] on each axis, in binary64.
    With target and starting cursor of magnitude at most [2^1022] (far
    beyond any screen; it keeps [target - cursor] from overflowing),
    every frame leaves the cursor between where it was and the target,
    so the cursor never passes the target and stays on the side it
    started on; its exact distance to the target never grows from one
    frame to the next, and shrinks whenever the cursor moves. *)
Theorem smoother_converges (width height tx ty : float) (envs : list Tick) (this : Engine) :
  aimsAt tx ty envs this ->
  inRange tx = true -> inRange ty = true ->
  inRange (cursorX this) = true -> inRange (cursorY this) = true ->
  cursorX (newService width height) = (width / 2)%float
  /\ cursorY (newService width height) = (height / 2)%float
  /\ cursorX (frames envs this)
     = Nat.iter (List.length envs) (fun c => (c + (tx - c) * 0.2)%float) (cursorX this)
  /\ cursorY (frames envs this)
     = Nat.iter (List.length envs) (fun c => (c + (ty - c) * 0.2)%float) (cursorY this)
  /\ (forall k, (k < List.length envs)%nat ->
        let before := frames (firstn k envs) this in
        let after := frames (firstn (S k) envs) this in
        let approaches := fun target c c' : float =>
          ((c <=? target)%float = true ->
           (c <=? c')%float = true /\ (c' <=? target)%float = true)
          /\ ((target <=? c)%float = true ->
              (target <=? c')%float = true /\ (c' <=? c)%float = true)
          /\ ((c <=? target)%float = true \/ (target <=? c)%float = true)
          /\ (Qabs (exact target - exact c') <= Qabs (exact target - exact c))%Q
          /\ ((c =? c')%float = false ->
              (Qabs (exact target - exact c') < Qabs (exact target - exact c))%Q) in
        approaches tx (cursorX before) (cursorX after)
        /\ approaches ty (cursorY before) (cursorY after))
  /\ (forall k : nat,
        let reached := frames (firstn k envs) this in
        ((cursorX this <=? tx)%float = true -> (cursorX reached <=? tx)%float = true)
        /\ ((tx <=? cursorX this)%float = true -> (tx <=? cursorX reached)%float = true)
        /\ ((cursorY this <=? ty)%float = true -> (cursorY reached <=? ty)%float = true)
        /\ ((ty <=? cursorY this)%float = true -> (ty <=? cursorY reached)%float = true)).
Proof.
  intros Haim Htx Hty Hcx Hcy.
  destruct (aimsAt_cursor tx ty envs this Haim) as (Hx & Hy).
  split; [reflexivity|]. split; [reflexivity|].
  split; [exact Hx|]. split; [exact Hy|]. split.
  - intros k Hk. exact (smoother_run tx ty envs Htx Hty this Haim Hcx Hcy k Hk).
  - intros k. exact (smoother_side tx ty envs Htx Hty this Haim Hcx Hcy k).
Qed.

(** ** Teardown *)

(** Stopping the tracks of a stream: one [stop] per track, nothing else. *)
Lemma stop_tracks (tracks : list MediaStreamTrack) (this : Engine) :
  fold_right (fun t k => emit (TrackStop t) ;; k) (ret tt) tracks this
  = mkResult (Some tt) this (map TrackStop tracks).
Proof.
  induction tracks as [|t rest IH]; [reflexivity|].
  cbn [fold_right map]. unfold bind at 1. unfold emit at 1. rewrite IH. reflexivity.
Qed.

(** [disconnect] in closed form. *)
Lemma disconnect_run (this : Engine) :
  disconnect this
  = mkResult (Some tt) (set_handLandmarker None (set_video None this))
      ((match animationId this with
        | Some id => if truthy id then [CancelAnimationFrame id] else []
        | None => []
        end)
       ++ (match video this with
           | Some v =>
               (match srcObject v with Some tracks => map TrackStop tracks | None => [] end)
               ++ [VideoRemove v]
           | None => []
           end)
       ++ (match handLandmarker this with Some h => [LandmarkerClose h] | None => [] end)).
Proof.
  unfold disconnect.
  destruct this as [hl vid aid lvt cb cx cy tx ty wp pst sc lsx lsy lhs].
  unfold bind at 1. unfold get at 1. fields.
  assert (Hcancel : forall s : Engine,
            match aid with
            | Some id => when (truthy id) (emit (CancelAnimationFrame id))
            | None => ret tt
            end s
            = mkResult (Some tt) s
                match aid with
                | Some id => if truthy id then [CancelAnimationFrame id] else []
                | None => []
                end).
  { intros s. destruct aid as [id|]; [|reflexivity]. unfold when. now destruct (truthy id). }
  unfold bind at 1. rewrite Hcancel.
  destruct vid as [[vid tracks]|]; destruct hl as [h|]; cbn [srcObject];
    try destruct tracks as [tracks|];
    exec; rewrite ?stop_tracks; exec; rewrite ?app_nil_r; try reflexivity;
    rewrite <- ?app_assoc; reflexivity.
Qed.

(** C9.  [disconnect] on a service that was never connected returns
    normally, performs no effect at all and leaves the service as it was.
    On any service it returns normally and leaves [video] and
    [handLandmarker] null; a second call returns normally, leaves the
    service exactly as the first call left it, and can do nothing but
    cancel the animation frame once more. *)
Theorem disconnect_idempotent (width height : float) (this : Engine) :
  (completion (disconnect (newService width height)) = Some tt
   /\ trace (disconnect (newService width height)) = []
   /\ final (disconnect (newService width height)) = newService width height)
  /\ completion (disconnect this) = Some tt
  /\ video (final (disconnect this)) = None
  /\ handLandmarker (final (disconnect this)) = None
  /\ completion (disconnect (final (disconnect this))) = Some tt
  /\ final (disconnect (final (disconnect this))) = final (disconnect this)
  /\ (forall e, In e (trace (disconnect (final (disconnect this)))) ->
        exists id, e = CancelAnimationFrame id).
Proof.
  rewrite !disconnect_run. cbn [completion final trace].
  split; [repeat split; reflexivity|].
  split; [reflexivity|]. split; [reflexivity|]. split; [reflexivity|].
  split; [reflexivity|]. split; [reflexivity|].
  cbn [set_handLandmarker set_video animationId video handLandmarker app].
  intros e. rewrite app_nil_r.
  destruct (animationId this) as [id|]; [|contradiction].
  destruct (truthy id); [|contradiction].
  intros [<-|[]]. now exists id.
Qed.

(** ** Concrete runs *)

(** The frame that starts the pinch: pointer move, pointer down, update. *)
Example pinchStart_run :
  effects pinchStart armed
  = [CallDispatchPointerEvent "pointermove" 704 360 1;
     CallDispatchPointerEvent "pointerdown" 704 360 1;
     Callback 7%nat (CursorState.mk 704 360 true PINCH);
     RequestAnimationFrame]
  /\ pinchStartTime (frame pinchStart armed) = 10000%Z
  /\ wasPinching (frame pinchStart armed) = true.
Proof. vm_compute. repeat split; reflexivity. Qed.

(** A pinch released 800 ms after it started: up, click, update. *)
Example click_run :
  effects (releaseAfter 800) holding
  = [CallDispatchPointerEvent "pointermove" (cursorX (frame (releaseAfter 800) holding)) 360 0;
     CallDispatchPointerEvent "pointerup" (cursorX (frame (releaseAfter 800) holding)) 360 0;
     CallDispatchClickEvent (cursorX (frame (releaseAfter 800) holding)) 360;
     Callback 7%nat (CursorState.mk (cursorX (frame (releaseAfter 800) holding)) 360 false OPEN);
     RequestAnimationFrame].
Proof. vm_compute. reflexivity. Qed.

(** The boundaries of the click window: 200 ms, 1800 ms and 1801 ms give
    no click, 201 ms and 1799 ms give one. *)
Example click_boundaries :
  List.length (clickCalls (effects (releaseAfter 200) holding)) = 0%nat
  /\ List.length (clickCalls (effects (releaseAfter 201) holding)) = 1%nat
  /\ List.length (clickCalls (effects (releaseAfter 1799) holding)) = 1%nat
  /\ List.length (clickCalls (effects (releaseAfter 1800) holding)) = 0%nat
  /\ List.length (clickCalls (effects (releaseAfter 1801) holding)) = 0%nat.
Proof. vm_compute. repeat split; reflexivity. Qed.

(** Both sides of the pinch threshold: 0.06 itself is not a pinch, one
    fingertip width less is; with the thumb off on both axes it is the
    length of the diagonal that counts. *)
Example threshold_sides :
  pinchDistance (indexTip edgePoints) (thumbTip edgePoints) = 0.06%float
  /\ pinching edgePoints = false
  /\ pinching pinchPoints = true
  /\ pinching openPoints = false
  /\ pinching diagonalPoints = false
  /\ pinching slantedPoints = true.
Proof. vm_compute. repeat split; reflexivity. Qed.

(** A pinch released after 500 ms: pointer down, pointer up and exactly
    one click; no wheel, no scroll. *)
Example short_pinch_run :
  filter (fun e => actsOnDocument e && negb (isPointerMove e))
    (session [pinchStart; releaseAfter 500] armed)
  = [CallDispatchPointerEvent "pointerdown" 704 360 1;
     CallDispatchPointerEvent "pointerup" 755.20000000000005 360 0;
     CallDispatchClickEvent 755.20000000000005 360].
Proof. vm_compute. reflexivity. Qed.

(** A pinch held past 2000 ms while the cursor moves right and the hand
    comes closer, released after 2800 ms: pointer down, then pans of the
    page against the motion and one wheel call with negative [deltaY],
    then pointer up and no click. *)
Example long_pinch_run :
  filter (fun e => actsOnDocument e && negb (isPointerMove e))
    (session [pinchStart; pinchHeld; heldAt2500; heldAt2600; releaseAt2800] armed)
  = [CallDispatchPointerEvent "pointerdown" 704 360 1;
     ScrollBy page (-61.440000000000055) (-0);
     CallDispatchWheelEvent 796.16000000000008 360 (-149.9999999999998);
     ScrollBy page (-49.152000000000044) (-0);
     CallDispatchPointerEvent "pointerup" 855.14240000000007 360 0].
Proof. vm_compute. reflexivity. Qed.

(** The same scroll-mode frame over a panel with no scrollable ancestor
    (the pan is dropped) and with nothing under the cursor (the wheel
    call is made and delivers nothing). *)
Example dropped_run :
  scrollCalls (effects (withDocument onPanel heldAt2500) holding) = []
  /\ frame (withDocument onPanel heldAt2500) holding = frame heldAt2500 holding
  /\ wheelCalls (effects (withDocument offScreen heldAt2500) holding)
     = [CallDispatchWheelEvent 796.16000000000008 360 (-149.9999999999998)]
  /\ deliveries offScreen (effects (withDocument offScreen heldAt2500) holding) = [].
Proof. vm_compute. repeat split; reflexivity. Qed.

(** The binary64 smoother on a concrete run: from 640 towards 960, over
    400 frames the cursor never moves back and never passes the target.
    It does not reach the target either: it stops one step short of it,
    where the increment rounds away. *)
Example smoother_binary64_run :
  forallb
    (fun n =>
       (lerp_iter smoothing 960%float n 640%float
        <=? lerp_iter smoothing 960%float (S n) 640%float)%float
       && (lerp_iter smoothing 960%float (S n) 640%float <=? 960)%float)
    (seq 0 400) = true
  /\ lerp_iter smoothing 960%float 400 640%float = lerp_iter smoothing 960%float 399 640%float
  /\ (lerp_iter smoothing 960%float 400 640%float <? 960)%float = true.
Proof. vm_compute. repeat split; reflexivity. Qed.

(** Beyond the range of the theorem the difference [target - cursor]
    overflows, and the step lands on infinity. *)
Example smoother_out_of_range :
  inRange 1.5e308 = false
  /\ lerp smoothing (-1.5e308)%float 1.5e308%float = infinity.
Proof. vm_compute. split; reflexivity. Qed.

(** The theorems above at the concrete scene. *)

Lemma no_hand_frame_is_inert_witness :
  tracked blankFrame holding = None
  /\ cursorX (frame blankFrame holding) = cursorX holding
  /\ wasPinching (frame blankFrame holding) = wasPinching holding
  /\ effects blankFrame holding = [RequestAnimationFrame].
Proof.
  assert (Ht : tracked blankFrame holding = None) by (vm_compute; reflexivity).
  destruct (no_hand_frame_is_inert blankFrame holding Ht)
    as (_ & Hx & _ & _ & _ & Hw & _ & _ & _ & _ & _ & _ & He & _).
  exact (conj Ht (conj Hx (conj Hw He))).
Defined.

Lemma pinch_threshold_witness :
  sees (tickAt 0.1 10000 [handAt edgePoints]) armed = Some edgePoints
  /\ PrimFloat.sqrt ((0.06 - 0) * (0.06 - 0) + (0.5 - 0.5) * (0.5 - 0.5)) = 0.06%float
  /\ wasPinching (frame (tickAt 0.1 10000 [handAt edgePoints]) armed) = false
  /\ sees (tickAt 0.1 10000 [handAt diagonalPoints]) armed = Some diagonalPoints
  /\ (PrimFloat.sqrt ((0.25 - 0.3) * (0.25 - 0.3) + (0.5 - 0.55) * (0.5 - 0.55)) <? 0.06)%float = false
  /\ wasPinching (frame (tickAt 0.1 10000 [handAt diagonalPoints]) armed) <> true.
Proof.
  assert (Hs : sees (tickAt 0.1 10000 [handAt edgePoints]) armed = Some edgePoints)
    by (vm_compute; reflexivity).
  assert (Hd : PrimFloat.sqrt ((0.06 - 0) * (0.06 - 0) + (0.5 - 0.5) * (0.5 - 0.5)) = 0.06%float)
    by (vm_compute; reflexivity).
  assert (Hs' : sees (tickAt 0.1 10000 [handAt diagonalPoints]) armed = Some diagonalPoints)
    by (vm_compute; reflexivity).
  assert (Hd' : (PrimFloat.sqrt ((0.25 - 0.3) * (0.25 - 0.3) + (0.5 - 0.55) * (0.5 - 0.55)) <? 0.06)%float
                = false)
    by (vm_compute; reflexivity).
  destruct (pinch_threshold (tickAt 0.1 10000 [handAt edgePoints]) armed edgePoints Hs)
    as (_ & Hedge & _).
  destruct (pinch_threshold (tickAt 0.1 10000 [handAt diagonalPoints]) armed diagonalPoints Hs')
    as (Hiff & _).
  refine (conj Hs (conj Hd (conj (Hedge Hd) (conj Hs' (conj Hd' _))))).
  intros Hp. apply (proj1 Hiff) in Hp.
  cbn [indexTip thumbTip diagonalPoints Landmark.x Landmark.y] in Hp.
  rewrite Hd' in Hp. discriminate Hp.
Defined.

Lemma target_is_mirrored_witness :
  sees pinchStart armed = Some pinchPoints
  /\ targetX (frame pinchStart armed)
     = ((1 - Landmark.x (indexTip pinchPoints)) * innerWidth pinchStart)%float
  /\ targetY (frame pinchStart armed)
     = (Landmark.y (indexTip pinchPoints) * innerHeight pinchStart)%float
  /\ (mirror (3 # 4) 1280 < mirror (1 # 4) 1280)%Q.
Proof.
  assert (Hs : sees pinchStart armed = Some pinchPoints) by (vm_compute; reflexivity).
  destruct (target_is_mirrored pinchStart armed pinchPoints Hs) as (Hx & Hy & Hq).
  assert (Hw : (0 < 1280)%Q) by reflexivity.
  assert (Hlt : (1 # 4 < 3 # 4)%Q) by reflexivity.
  exact (conj Hs (conj Hx (conj Hy (Hq (1 # 4) (3 # 4) 1280 Hw Hlt)))).
Defined.

Lemma scroll_mode_entry_witness :
  sees heldAt2500 holding = Some closerPoints
  /\ pinching closerPoints = true
  /\ wasPinching holding = true
  /\ callback holding = Some 7%nat
  /\ (2000 < now heldAt2500 - pinchStartTime holding)%Z
  /\ isScrolling (frame heldAt2500 holding) = true
  /\ reports (effects heldAt2500 holding)
     = [CursorState.mk (cursorX (frame heldAt2500 holding)) (cursorY (frame heldAt2500 holding))
          true SCROLL].
Proof.
  assert (Hs : sees heldAt2500 holding = Some closerPoints) by (vm_compute; reflexivity).
  assert (Hp : pinching closerPoints = true) by (vm_compute; reflexivity).
  assert (Hw : wasPinching holding = true) by (vm_compute; reflexivity).
  assert (Hc : callback holding = Some 7%nat) by (vm_compute; reflexivity).
  assert (Hd : (2000 < now heldAt2500 - pinchStartTime holding)%Z) by (vm_compute; reflexivity).
  destruct (scroll_mode_entry heldAt2500 holding closerPoints 7%nat Hs Hp Hw Hc) as (Hin & _).
  destruct (Hin Hd) as (Hsc & Hrep).
  exact (conj Hs (conj Hp (conj Hw (conj Hc (conj Hd (conj Hsc Hrep)))))).
Defined.

Lemma zoom_wheel_dispatch_witness :
  sees heldAt2500 holding = Some closerPoints
  /\ pinching closerPoints = true
  /\ wasPinching holding = true
  /\ (2000 < now heldAt2500 - pinchStartTime holding)%Z
  /\ (0.002 <? PrimFloat.abs (handScale (wrist closerPoints) (middleMCP closerPoints)
                              - lastHandScale holding))%float = true
  /\ wheelCalls (effects heldAt2500 holding)
     = [CallDispatchWheelEvent (cursorX (frame heldAt2500 holding)) (cursorY (frame heldAt2500 holding))
          (- (handScale (wrist closerPoints) (middleMCP closerPoints) - lastHandScale holding)
           * 3000)%float].
Proof.
  assert (Hs : sees heldAt2500 holding = Some closerPoints) by (vm_compute; reflexivity).
  assert (Hp : pinching closerPoints = true) by (vm_compute; reflexivity).
  assert (Hw : wasPinching holding = true) by (vm_compute; reflexivity).
  assert (Hd : (2000 < now heldAt2500 - pinchStartTime holding)%Z) by (vm_compute; reflexivity).
  assert (Hz : (0.002 <? PrimFloat.abs (handScale (wrist closerPoints) (middleMCP closerPoints)
                                        - lastHandScale holding))%float = true)
    by (vm_compute; reflexivity).
  destruct (zoom_wheel_dispatch heldAt2500 holding closerPoints Hs Hp Hw Hd) as (Hin & _).
  destruct (Hin Hz) as (Hcalls & _).
  exact (conj Hs (conj Hp (conj Hw (conj Hd (conj Hz Hcalls))))).
Defined.

Lemma pan_scroll_by_witness :
  sees heldAt2500 holding = Some closerPoints
  /\ pinching closerPoints = true
  /\ wasPinching holding = true
  /\ (2000 < now heldAt2500 - pinchStartTime holding)%Z
  /\ ((1 <? PrimFloat.abs (cursorX (frame heldAt2500 holding) - lastScrollX holding))%float
      || (1 <? PrimFloat.abs (cursorY (frame heldAt2500 holding) - lastScrollY holding))%float) = true
  /\ getScrollParent
       (elementFromPoint heldAt2500 (cursorX (frame heldAt2500 holding))
          (cursorY (frame heldAt2500 holding))) = Some page
  /\ scrollCalls (effects heldAt2500 holding)
     = [ScrollBy page
          ((cursorX (frame heldAt2500 holding) - lastScrollX holding) * -1.5)%float
          ((cursorY (frame heldAt2500 holding) - lastScrollY holding) * -1.5)%float].
Proof.
  assert (Hs : sees heldAt2500 holding = Some closerPoints) by (vm_compute; reflexivity).
  assert (Hp : pinching closerPoints = true) by (vm_compute; reflexivity).
  assert (Hw : wasPinching holding = true) by (vm_compute; reflexivity).
  assert (Hd : (2000 < now heldAt2500 - pinchStartTime holding)%Z) by (vm_compute; reflexivity).
  assert (Hm : ((1 <? PrimFloat.abs (cursorX (frame heldAt2500 holding) - lastScrollX holding))%float
                || (1 <? PrimFloat.abs (cursorY (frame heldAt2500 holding) - lastScrollY holding))%float)
               = true) by (vm_compute; reflexivity).
  assert (Hg : getScrollParent
                 (elementFromPoint heldAt2500 (cursorX (frame heldAt2500 holding))
                    (cursorY (frame heldAt2500 holding))) = Some page)
    by (vm_compute; reflexivity).
  destruct (pan_scroll_by heldAt2500 holding closerPoints Hs Hp Hw Hd Hm) as (Hpan & _).
  exact (conj Hs (conj Hp (conj Hw (conj Hd (conj Hm (conj Hg (Hpan page Hg))))))).
Defined.

Lemma release_click_window_witness :
  wasPinching armed = false
  /\ sees pinchStart armed = Some pinchPoints
  /\ pinching pinchPoints = true
  /\ dwells [pinchHeld; blankFrame] (frame pinchStart armed) = true
  /\ sees (releaseAfter 800) (frames [pinchHeld; blankFrame] (frame pinchStart armed)) = Some openPoints
  /\ pinching openPoints = false
  /\ (200 < now (releaseAfter 800) - now pinchStart < 1800)%Z
  /\ clickCalls (effects (releaseAfter 800) (frames [pinchHeld; blankFrame] (frame pinchStart armed)))
     = [CallDispatchClickEvent
          (cursorX (frame (releaseAfter 800) (frames [pinchHeld; blankFrame] (frame pinchStart armed))))
          (cursorY (frame (releaseAfter 800) (frames [pinchHeld; blankFrame] (frame pinchStart armed))))].
Proof.
  assert (H1 : wasPinching armed = false) by (vm_compute; reflexivity).
  assert (H2 : sees pinchStart armed = Some pinchPoints) by (vm_compute; reflexivity).
  assert (H3 : pinching pinchPoints = true) by (vm_compute; reflexivity).
  assert (H4 : dwells [pinchHeld; blankFrame] (frame pinchStart armed) = true)
    by (vm_compute; reflexivity).
  assert (H5 : sees (releaseAfter 800) (frames [pinchHeld; blankFrame] (frame pinchStart armed))
               = Some openPoints) by (vm_compute; reflexivity).
  assert (H6 : pinching openPoints = false) by (vm_compute; reflexivity).
  assert (H7 : (200 < now (releaseAfter 800) - now pinchStart < 1800)%Z)
    by (vm_compute; split; reflexivity).
  destruct (release_click_window pinchStart (releaseAfter 800) [pinchHeld; blankFrame] armed
              pinchPoints openPoints H1 H2 H3 H4 H5 H6) as (Hin & _).
  destruct (Hin H7) as (Hclick & _).
  exact (conj H1 (conj H2 (conj H3 (conj H4 (conj H5 (conj H6 (conj H7 Hclick))))))).
Defined.

Lemma scrolled_session_never_clicks_witness :
  wasPinching holding = true
  /\ sees heldAt2500 holding = Some closerPoints
  /\ pinching closerPoints = true
  /\ (2000 < now heldAt2500 - pinchStartTime holding)%Z
  /\ sustains [heldAt2600] (frame heldAt2500 holding) = true
  /\ sees releaseAt2800 (frames [heldAt2600] (frame heldAt2500 holding)) = Some openPoints
  /\ pinching openPoints = false
  /\ clickCalls (effects releaseAt2800 (frames [heldAt2600] (frame heldAt2500 holding))) = [].
Proof.
  assert (H1 : wasPinching holding = true) by (vm_compute; reflexivity).
  assert (H2 : sees heldAt2500 holding = Some closerPoints) by (vm_compute; reflexivity).
  assert (H3 : pinching closerPoints = true) by (vm_compute; reflexivity).
  assert (H4 : (2000 < now heldAt2500 - pinchStartTime holding)%Z) by (vm_compute; reflexivity).
  assert (H5 : sustains [heldAt2600] (frame heldAt2500 holding) = true) by (vm_compute; reflexivity).
  assert (H6 : sees releaseAt2800 (frames [heldAt2600] (frame heldAt2500 holding)) = Some openPoints)
    by (vm_compute; reflexivity).
  assert (H7 : pinching openPoints = false) by (vm_compute; reflexivity).
  destruct (scrolled_session_never_clicks heldAt2500 releaseAt2800 [heldAt2600] holding
              closerPoints openPoints H1 H2 H3 H4 H5 H6 H7) as (_ & Hnone & _).
  exact (conj H1 (conj H2 (conj H3 (conj H4 (conj H5 (conj H6 (conj H7 Hnone))))))).
Defined.

Lemma smoother_converges_witness :
  aimsAt 960 360 [pinchStart; pinchHeld] armed
  /\ inRange 960 = true /\ inRange 360 = true
  /\ inRange (cursorX armed) = true /\ inRange (cursorY armed) = true
  /\ cursorX (frames [pinchStart; pinchHeld] armed)
     = Nat.iter (List.length [pinchStart; pinchHeld]) (fun c => (c + (960 - c) * 0.2)%float)
         (cursorX armed)
  /\ (cursorX (frames [pinchStart] armed) <=? cursorX (frames [pinchStart; pinchHeld] armed))%float
     = true
  /\ (cursorX (frames [pinchStart; pinchHeld] armed) <=? 960)%float = true
  /\ (Qabs (exact 960 - exact (cursorX (frames [pinchStart; pinchHeld] armed)))
      <= Qabs (exact 960 - exact (cursorX (frames [pinchStart] armed))))%Q.
Proof.
  assert (Hs1 : sees pinchStart armed = Some pinchPoints) by (vm_compute; reflexivity).
  assert (Hs2 : sees pinchHeld (frame pinchStart armed) = Some pinchPoints)
    by (vm_compute; reflexivity).
  assert (Hx : mirror (Landmark.x (indexTip pinchPoints)) 1280%float = 960%float)
    by (vm_compute; reflexivity).
  assert (Hy : (Landmark.y (indexTip pinchPoints) * 720)%float = 360%float)
    by (vm_compute; reflexivity).
  assert (Ha : aimsAt 960 360 [pinchStart; pinchHeld] armed).
  { exact (conj (ex_intro _ pinchPoints (conj Hs1 (conj Hx Hy)))
             (conj (ex_intro _ pinchPoints (conj Hs2 (conj Hx Hy))) I)). }
  assert (Htx : inRange 960 = true) by (vm_compute; reflexivity).
  assert (Hty : inRange 360 = true) by (vm_compute; reflexivity).
  assert (Hcx : inRange (cursorX armed) = true) by (vm_compute; reflexivity).
  assert (Hcy : inRange (cursorY armed) = true) by (vm_compute; reflexivity).
  assert (Hside : (cursorX (frames [pinchStart] armed) <=? 960)%float = true)
    by (vm_compute; reflexivity).
  destruct (smoother_converges 1280 720 960 360 [pinchStart; pinchHeld] armed Ha Htx Hty Hcx Hcy)
    as (_ & _ & Hiter & _ & Hstep & _).
  destruct (Hstep 1%nat (Nat.lt_succ_diag_r 1)) as ((Hup & _ & _ & Hdist & _) & _).
  destruct (Hup Hside) as (Hmove & Hstay).
  exact (conj Ha (conj Htx (conj Hty (conj Hcx (conj Hcy
           (conj Hiter (conj Hmove (conj Hstay Hdist)))))))).
Defined.

(** ** Where the code departs from the stated thresholds *)

(** A pinch session that never entered scroll mode and is released
    exactly 1800 ms after it started: no click is dispatched. *)
Lemma release_after_1800ms_gives_no_click :
  wasPinching armed = false
  /\ sees pinchStart armed = Some pinchPoints
  /\ pinching pinchPoints = true
  /\ dwells [pinchHeld] (frame pinchStart armed) = true
  /\ isScrolling (frames [pinchHeld] (frame pinchStart armed)) = false
  /\ sees (releaseAfter 1800) (frames [pinchHeld] (frame pinchStart armed)) = Some openPoints
  /\ pinching openPoints = false
  /\ (now (releaseAfter 1800) - now pinchStart = 1800)%Z
  /\ clickCalls (effects (releaseAfter 1800) (frames [pinchHeld] (frame pinchStart armed))) = []
  /\ filter isClickEvent
       (deliveries (elementFromPoint (releaseAfter 1800))
          (effects (releaseAfter 1800) (frames [pinchHeld] (frame pinchStart armed)))) = [].
Proof. vm_compute. repeat split; reflexivity. Qed.

(** A pinch that continues and has lasted exactly 2000 ms: the frame does
    not set [isScrolling] and reports PINCH, not SCROLL. *)
Lemma hold_of_2000ms_is_not_scroll :
  sees heldAt2000 holding = Some pinchPoints
  /\ pinching pinchPoints = true
  /\ wasPinching holding = true
  /\ (now heldAt2000 - pinchStartTime holding = 2000)%Z
  /\ isScrolling (frame heldAt2000 holding) = false
  /\ map CursorState.gesture (reports (effects heldAt2000 holding)) = [PINCH].
Proof. vm_compute. repeat split; reflexivity. Qed.

(* ------------------------------------------------------------------ *)
(** * Further properties of the service *)

(** ** Every kind of frame *)

Lemma kind_opened (env : Tick) (this : Engine) :
  kind env this = Opened -> exists p, sees env this = Some p /\ pinching p = false.
Proof.
  unfold kind, sees. destruct (tracked env this) as [hand|]; [|discriminate].
  destruct (points hand) as [p|]; [|discriminate].
  destruct (pinching p) eqn:E; [discriminate|].
  intros _. exists p. auto.
Qed.

(** A hand that lacks one of the four landmarks makes [trackHand] throw
    before its first effect. *)
Lemma trackHand_throws (env : Tick) (hand : Hand) (this : Engine) :
  points hand = None ->
  trackHand env hand this = mkResult None (thrownEngine env hand this) [].
Proof.
  unfold points, thrownEngine, trackHand.
  destruct this as [hl vid aid lvt cb cx cy tx ty wp pst sc lsx lsy lhs].
  destruct (nth_error hand 0) as [w|]; destruct (nth_error hand 4) as [t|];
    destruct (nth_error hand 8) as [i|]; destruct (nth_error hand 9) as [m|];
    try discriminate; intros _; vm_compute; reflexivity.
Qed.

(** [detectLoop] around [trackHand]: when the detector is consulted and
    reports a hand, the call stores the video clock, runs [trackHand] and,
    unless that throws, re-arms the loop. *)
Lemma detectLoop_hand (env : Tick) (this : Engine) (hand : Hand) :
  tracked env this = Some hand ->
  detectLoop env this
  = match trackHand env hand (set_lastVideoTime (currentTime env) this) with
    | mkResult (Some _) this' t =>
        mkResult (Some tt) (set_animationId (Some (frameHandle env)) this') (t ++ [RequestAnimationFrame])
    | mkResult None this' t => mkResult None this' t
    end.
Proof.
  unfold tracked, detectLoop.
  destruct this as [hl vid aid lvt cb cx cy tx ty wp pst sc lsx lsy lhs]; fields.
  destruct vid as [v|]; [|discriminate].
  destruct hl as [h|]; [|discriminate].
  destruct (currentTime env =? lvt)%float eqn:Ec; [discriminate|].
  destruct (landmarks env) as [|hand' rest]; [discriminate|].
  cbn [hd_error]. intros [= ->].
  exec. rewrite Ec. exec.
  destruct (trackHand env hand _) as [[[]|] s t]; reflexivity.
Qed.

(** A call that throws has dispatched nothing, has not re-armed the loop
    and has left the pinch session and the resources alone; it has stored
    the video clock. *)
Lemma malformed_frame (env : Tick) (this : Engine) :
  kind env this = Malformed ->
  effects env this = []
  /\ returns env this = false
  /\ wasPinching (frame env this) = wasPinching this
  /\ pinchStartTime (frame env this) = pinchStartTime this
  /\ isScrolling (frame env this) = isScrolling this
  /\ lastScrollX (frame env this) = lastScrollX this
  /\ lastScrollY (frame env this) = lastScrollY this
  /\ lastHandScale (frame env this) = lastHandScale this
  /\ video (frame env this) = video this
  /\ handLandmarker (frame env this) = handLandmarker this
  /\ callback (frame env this) = callback this
  /\ animationId (frame env this) = animationId this
  /\ lastVideoTime (frame env this) = currentTime env.
Proof.
  unfold kind. destruct (tracked env this) as [hand|] eqn:Et; [|discriminate].
  destruct (points hand) as [p|] eqn:Ep; [destruct (pinching p); discriminate|].
  intros _. unfold effects, returns, frame.
  rewrite (detectLoop_hand env this hand Et), (trackHand_throws env hand _ Ep).
  cbn [completion final trace]. unfold thrownEngine.
  destruct (nth_error hand 8); repeat split; reflexivity.
Qed.

(** The three ways a call of [detectLoop] can go. *)
Lemma frame_cases (env : Tick) (this : Engine) :
  tracked env this = None
  \/ kind env this = Malformed
  \/ exists p, sees env this = Some p.
Proof.
  unfold kind, sees. destruct (tracked env this) as [hand|]; [|left; reflexivity].
  right. destruct (points hand) as [p|]; [right; exists p; reflexivity | left; reflexivity].
Qed.

(** ** Pointer presses and releases pair up *)

Lemma count_app (f : Effect -> bool) (t u : list Effect) :
  count f (t ++ u) = (count f t + count f u)%nat.
Proof. unfold count. now rewrite filter_app, length_app. Qed.

(** One frame: a press is dispatched exactly when a pinch begins, a
    release exactly when it ends, and a click only with a release. *)
Lemma frame_balance (env : Tick) (this : Engine) :
  (count isPointerDown (effects env this) + pressed this
   = count isPointerUp (effects env this) + pressed (frame env this))%nat
  /\ (count isClickCall (effects env this) <= count isPointerUp (effects env this))%nat.
Proof.
  destruct (frame_cases env this) as [Hu | [Hm | [p Hs]]].
  - rewrite (effects_untracked env this Hu).
    destruct (untracked_session env this Hu) as (Hw & _).
    unfold pressed. rewrite Hw. cbn. lia.
  - destruct (malformed_frame env this Hm) as (He & _ & Hw & _).
    unfold pressed. rewrite He, Hw. cbn. lia.
  - rewrite (effects_tracked env this p Hs), (frame_tracked env this p Hs).
    unfold pressed. cbn [wasPinching trackedEngine].
    unfold trackedTrace, updateCalls, panCalls, zoomCalls, releaseClick.
    repeat (split_cond; cbn [andb orb negb app]); vm_compute; split; reflexivity || lia.
Qed.

(** X1.  Presses and releases pair up over any run.  Over any sequence of
    frames the number of pointerdown calls plus one for a pinch in
    progress at the beginning equals the number of pointerup calls plus
    one for a pinch in progress at the end; and there are never more
    clicks than pointerups. *)
Theorem pointer_events_pair_up (envs : list Tick) (this : Engine) :
  (count isPointerDown (session envs this) + pressed this
   = count isPointerUp (session envs this) + pressed (frames envs this))%nat
  /\ (count isClickCall (session envs this) <= count isPointerUp (session envs this))%nat.
Proof.
  revert this. induction envs as [|env rest IH]; intros this.
  - cbn. lia.
  - cbn [session frames]. rewrite !count_app.
    destruct (frame_balance env this) as [Hb Hc].
    destruct (IH (frame env this)) as [IHb IHc]. lia.
Qed.

(** ** Scroll mode lives inside a pinch *)

Lemma frame_scrolling_pinching (env : Tick) (this : Engine) :
  implb (isScrolling this) (wasPinching this) = true ->
  implb (isScrolling (frame env this)) (wasPinching (frame env this)) = true.
Proof.
  intros Hinv.
  destruct (frame_cases env this) as [Hu | [Hm | [p Hs]]].
  - destruct (untracked_session env this Hu) as (Hw & _ & Hsc). now rewrite Hw, Hsc.
  - destruct (malformed_frame env this Hm) as (_ & _ & Hw & _ & Hsc & _). now rewrite Hw, Hsc.
  - rewrite (frame_tracked env this p Hs). cbn [isScrolling wasPinching trackedEngine].
    destruct (pinching p), (wasPinching this), (isScrolling this), (2000 <? held env this)%Z;
      try reflexivity; discriminate.
Qed.

(** X2.  [isScrolling] is never set outside a pinch.  If [isScrolling]
    implies [wasPinching] before a run of frames (as on a new or freshly
    connected service), it does after it. *)
Theorem scrolling_only_while_pinching (envs : list Tick) (this : Engine) :
  implb (isScrolling this) (wasPinching this) = true ->
  implb (isScrolling (frames envs this)) (wasPinching (frames envs this)) = true.
Proof.
  revert this. induction envs as [|env rest IH]; intros this Hinv; [exact Hinv|].
  cbn [frames]. apply IH. now apply frame_scrolling_pinching.
Qed.

(** ** After [disconnect] *)

Lemma no_video_untracked (env : Tick) (this : Engine) :
  video this = None -> tracked env this = None.
Proof. intros H. unfold tracked. now rewrite H. Qed.

(** Without a video element every frame only re-arms the loop. *)
Lemma idle_frames (envs : list Tick) :
  forall this : Engine,
    video this = None ->
    session envs this = repeat RequestAnimationFrame (List.length envs)
    /\ video (frames envs this) = None
    /\ handLandmarker (frames envs this) = handLandmarker this
    /\ callback (frames envs this) = callback this
    /\ cursorX (frames envs this) = cursorX this
    /\ cursorY (frames envs this) = cursorY this
    /\ wasPinching (frames envs this) = wasPinching this
    /\ isScrolling (frames envs this) = isScrolling this.
Proof.
  induction envs as [|env rest IH]; intros this Hv; [cbn; repeat split; assumption || reflexivity|].
  assert (Hu := no_video_untracked env this Hv).
  cbn [session frames List.length repeat].
  rewrite (effects_untracked env this Hu).
  assert (Hf := frame_untracked env this Hu).
  unfold untrackedEngine in Hf. rewrite Hv in Hf.
  destruct (IH (frame env this)) as (Hs & Hv' & Hh & Hc & Hx & Hy & Hw & Hsc).
  { rewrite Hf. exact Hv. }
  rewrite Hs, Hv', Hh, Hc, Hx, Hy, Hw, Hsc, Hf. cbn. repeat split; reflexivity.
Qed.

(** X3.  Nothing happens after [disconnect].  Whatever frames are run on a
    disconnected service, and whatever the detector would report, each
    call only asks for the next animation frame: no event is dispatched,
    the host callback is not invoked, and cursor and pinch session stay
    as [disconnect] found them. *)
Theorem disconnected_service_is_inert (envs : list Tick) (this : Engine) :
  session envs (final (disconnect this)) = repeat RequestAnimationFrame (List.length envs)
  /\ reports (session envs (final (disconnect this))) = []
  /\ (forall efp, deliveries efp (session envs (final (disconnect this))) = [])
  /\ video (frames envs (final (disconnect this))) = None
  /\ handLandmarker (frames envs (final (disconnect this))) = None
  /\ cursorX (frames envs (final (disconnect this))) = cursorX this
  /\ cursorY (frames envs (final (disconnect this))) = cursorY this
  /\ wasPinching (frames envs (final (disconnect this))) = wasPinching this
  /\ isScrolling (frames envs (final (disconnect this))) = isScrolling this.
Proof.
  rewrite disconnect_run. cbn [final].
  set (s := set_handLandmarker None (set_video None this)).
  destruct (idle_frames envs s eq_refl) as (Hs & Hv & Hh & _ & Hx & Hy & Hw & Hsc).
  rewrite Hs, Hv, Hh, Hx, Hy, Hw, Hsc.
  assert (Hrep : forall n, reports (repeat RequestAnimationFrame n) = []).
  { induction n; [reflexivity | exact IHn]. }
  assert (Hdel : forall efp n, deliveries efp (repeat RequestAnimationFrame n) = []).
  { intros efp n. induction n; [reflexivity | exact IHn]. }
  repeat split; auto.
Qed.

(** ** One video frame, one pass *)

Lemma frame_clock (env : Tick) (this : Engine) :
  forall env' : Tick,
    currentTime env' = currentTime env ->
    (currentTime env =? currentTime env)%float = true ->
    tracked env' (frame env this) = None.
Proof.
  intros env' Hsame Hnum.
  destruct (frame_cases env this) as [Hu | [Hm | [p Hs]]].
  - rewrite (frame_untracked env this Hu). unfold tracked in *. unfold untrackedEngine.
    destruct (video this) as [v|] eqn:Ev; [|cbn; now rewrite Ev].
    destruct (handLandmarker this) as [h|] eqn:Eh; [|cbn; now rewrite Ev, Eh].
    destruct (currentTime env =? lastVideoTime this)%float eqn:Ec.
    + cbn. now rewrite Ev, Eh, Hsame, Ec.
    + cbn. now rewrite Ev, Eh, Hsame, Hnum.
  - destruct (malformed_frame env this Hm) as (_ & _ & _ & _ & _ & _ & _ & _ & Hv & Hh & _ & _ & Hl).
    unfold tracked. rewrite Hv, Hh, Hl, Hsame, Hnum.
    now destruct (video this), (handLandmarker this).
  - rewrite (frame_tracked env this p Hs). unfold tracked. cbn [video handLandmarker lastVideoTime trackedEngine].
    rewrite Hsame, Hnum. now destruct (video this), (handLandmarker this).
Qed.

(** X4.  A video frame is processed at most once.  After any call of
    [detectLoop], a further call at the same video clock (a number, not
    NaN) does nothing but re-arm the loop, whatever the detector would
    report: no dispatch, no host update, cursor unchanged. *)
Theorem same_video_frame_is_skipped (env env' : Tick) (this : Engine) :
  currentTime env' = currentTime env ->
  (currentTime env =? currentTime env)%float = true ->
  effects env' (frame env this) = [RequestAnimationFrame]
  /\ cursorX (frame env' (frame env this)) = cursorX (frame env this)
  /\ cursorY (frame env' (frame env this)) = cursorY (frame env this)
  /\ wasPinching (frame env' (frame env this)) = wasPinching (frame env this)
  /\ pinchStartTime (frame env' (frame env this)) = pinchStartTime (frame env this)
  /\ isScrolling (frame env' (frame env this)) = isScrolling (frame env this).
Proof.
  intros Hsame Hnum.
  assert (Hu := frame_clock env this env' Hsame Hnum).
  destruct (untracked_session env' (frame env this) Hu) as (Hw & Ht & Hsc).
  rewrite (effects_untracked _ _ Hu), Hw, Ht, Hsc.
  rewrite (frame_untracked _ _ Hu). unfold untrackedEngine.
  destruct (video (frame env this)), (handLandmarker (frame env this)),
    (currentTime env' =? lastVideoTime (frame env this))%float; cbn; repeat split; reflexivity.
Qed.

(** ** What a frame never does *)

(** X5.  No pan or zoom outside scroll mode.  A frame calls [scrollBy] or
    [dispatchWheelEvent] only if it sees a pinch that was already in
    progress and has lasted more than 2000 ms; in every other frame --
    no hand, open hand, first frame of a pinch, or a pinch held for
    2000 ms or less, however far the cursor or the hand moved -- it calls
    neither. *)
Theorem no_scroll_outside_scroll_mode (env : Tick) (this : Engine) :
  (kind env this <> Pinched \/ wasPinching this = false
   \/ (now env - pinchStartTime this <= 2000)%Z) ->
  scrollCalls (effects env this) = [] /\ wheelCalls (effects env this) = [].
Proof.
  intros Hout.
  destruct (frame_cases env this) as [Hu | [Hm | [p Hs]]].
  - rewrite (effects_untracked env this Hu). split; reflexivity.
  - destruct (malformed_frame env this Hm) as (He & _). rewrite He. split; reflexivity.
  - rewrite (effects_tracked env this p Hs).
    assert (Hk : kind env this = if pinching p then Pinched else Opened).
    { unfold kind. unfold sees in Hs. destruct (tracked env this) as [hand|]; [|discriminate].
      now rewrite Hs. }
    unfold trackedTrace, updateCalls, releaseClick, held.
    destruct (pinching p) eqn:Ep; cbn [andb negb app].
    + destruct (wasPinching this) eqn:Ew; cbn [andb negb app].
      * destruct (2000 <? now env - pinchStartTime this)%Z eqn:Ed.
        -- exfalso. apply Z.ltb_lt in Ed.
           destruct Hout as [Hk' | [Hw' | Hd']]; [congruence | discriminate | lia].
        -- destruct (callback this); split; reflexivity.
      * destruct (callback this); split; reflexivity.
    + repeat (split_cond; cbn [andb orb negb app]); split; reflexivity.
Qed.

(** ** The host update *)

Lemma reports_tracked (env : Tick) (this : Engine) (p : Points) :
  sees env this = Some p ->
  reports (effects env this)
  = match callback this with
    | Some _ => [CursorState.mk (movedX env this p) (movedY env this p) (pinching p)
                   (reported env this p)]
    | None => []
    end.
Proof.
  intros Hs. rewrite (effects_tracked env this p Hs).
  unfold trackedTrace, updateCalls, releaseClick, panCalls, zoomCalls.
  repeat (split_cond; cbn [andb orb negb app reports]); reflexivity.
Qed.

(** X6.  What the host is told.  The callback is invoked once in a frame
    that tracks a hand (when one is registered) and never otherwise.
    What it receives is the frame's smoothed cursor and pinch state; the
    gesture is OPEN exactly when the hand is not pinching, never FIST or
    POINT, and SCROLL only while [isScrolling] is set. *)
Theorem host_update (env : Tick) (this : Engine) :
  List.length (reports (effects env this))
  = match sees env this, callback this with
    | Some _, Some _ => 1%nat
    | _, _ => 0%nat
    end
  /\ forall data, In data (reports (effects env this)) ->
       CursorState.x data = cursorX (frame env this)
       /\ CursorState.y data = cursorY (frame env this)
       /\ CursorState.isDown data = wasPinching (frame env this)
       /\ (CursorState.gesture data = OPEN <-> CursorState.isDown data = false)
       /\ CursorState.gesture data <> FIST
       /\ CursorState.gesture data <> POINT
       /\ (CursorState.gesture data = SCROLL ->
           CursorState.isDown data = true /\ isScrolling (frame env this) = true).
Proof.
  destruct (frame_cases env this) as [Hu | [Hm | [p Hs]]].
  - rewrite (effects_untracked env this Hu). unfold sees. rewrite Hu.
    split; [reflexivity | intros data []].
  - destruct (malformed_frame env this Hm) as (He & _). rewrite He.
    assert (Hn : sees env this = None).
    { unfold kind in Hm. unfold sees. destruct (tracked env this) as [hand|]; [|reflexivity].
      destruct (points hand) as [q|]; [destruct (pinching q); discriminate | reflexivity]. }
    rewrite Hn. split; [reflexivity | intros data []].
  - rewrite (reports_tracked env this p Hs), (frame_tracked env this p Hs), Hs.
    cbn [cursorX cursorY wasPinching isScrolling trackedEngine].
    destruct (callback this) as [cb|]; (split; [reflexivity|]); [|intros data []].
    intros data [<- | []]. cbn [CursorState.x CursorState.y CursorState.isDown CursorState.gesture].
    unfold reported, held.
    destruct (pinching p), (wasPinching this), (2000 <? now env - pinchStartTime this)%Z;
      cbn [andb]; repeat split; try discriminate; try reflexivity; intros H; discriminate H.
Qed.

(** ** Pointer moves *)

(** X7.  One pointer move per tracked frame, before anything else.  A
    frame that tracks a hand calls [dispatchPointerEvent('pointermove')]
    exactly once, as its first effect, at the smoothed cursor, with
    button state 1 while pinching and 0 otherwise; any other frame never
    calls it. *)
Theorem pointer_move_every_tracked_frame (env : Tick) (this : Engine) :
  filter isPointerMove (effects env this)
  = match sees env this with
    | Some _ =>
        [CallDispatchPointerEvent "pointermove" (cursorX (frame env this)) (cursorY (frame env this))
           (if wasPinching (frame env this) then 1 else 0)%Z]
    | None => []
    end
  /\ hd_error (effects env this)
     = match sees env this with
       | Some _ =>
           Some (CallDispatchPointerEvent "pointermove" (cursorX (frame env this))
                   (cursorY (frame env this)) (if wasPinching (frame env this) then 1 else 0)%Z)
       | None =>
           match tracked env this with
           | Some _ => None
           | None => Some RequestAnimationFrame
           end
       end.
Proof.
  destruct (frame_cases env this) as [Hu | [Hm | [p Hs]]].
  - rewrite (effects_untracked env this Hu). unfold sees. rewrite Hu. split; reflexivity.
  - destruct (malformed_frame env this Hm) as (He & _). rewrite He.
    unfold kind in Hm. unfold sees. destruct (tracked env this) as [hand|]; [|discriminate].
    destruct (points hand) as [q|]; [destruct (pinching q); discriminate | split; reflexivity].
  - rewrite (effects_tracked env this p Hs), (frame_tracked env this p Hs), Hs.
    cbn [cursorX cursorY wasPinching trackedEngine].
    split; [|reflexivity].
    unfold trackedTrace, updateCalls, releaseClick, panCalls, zoomCalls.
    repeat (split_cond; cbn [andb orb negb app]); reflexivity.
Qed.

(** ** Events are made for the element under the cursor *)

(** X8.  Every call of a dispatch helper in a frame is made at the
    frame's smoothed cursor.  Whatever the document is when the call is
    made, an event the call delivers goes to the element the document
    has under that point (so with nothing there the call delivers
    nothing), is constructed with the cursor as [clientX] and [clientY],
    and its pressed state is consistent. *)
Theorem events_hit_element_under_cursor (env : Tick) (this : Engine) (call : Effect)
    (document : float -> float -> option Element) (d : Element * Event) :
  In call (effects env this) ->
  delivery document call = Some d ->
  document (cursorX (frame env this)) (cursorY (frame env this)) = Some (fst d)
  /\ initPoint (snd d) = (cursorX (frame env this), cursorY (frame env this))
  /\ wellFormed (snd d).
Proof.
  destruct (frame_cases env this) as [Hu | [Hm | [p Hs]]].
  - rewrite (effects_untracked env this Hu). intros [<- | []]. discriminate.
  - destruct (malformed_frame env this Hm) as (He & _). rewrite He. intros [].
  - rewrite (effects_tracked env this p Hs), (frame_tracked env this p Hs).
    cbn [cursorX cursorY trackedEngine].
    unfold trackedTrace, updateCalls, releaseClick, panCalls, zoomCalls.
    destruct (document (movedX env this p) (movedY env this p)) as [el|] eqn:Eel;
      repeat (split_cond; cbn [andb orb negb app]);
      intros Hin;
      repeat (destruct Hin as [<- | Hin];
              [cbn [delivery]; unfold dispatchPointerEvent, dispatchWheelEvent, dispatchClickEvent;
               rewrite ?Eel; intros Hd; try discriminate Hd;
               injection Hd as <-;
               cbn; repeat split; try reflexivity;
               first [left; repeat split; try reflexivity; discriminate
                     | right; repeat split; try reflexivity; discriminate
                     | idtac]
              |]);
      try contradiction.
Qed.

(** ** The start of a pinch *)

(** X9.  A pinch start opens a fresh session.  In the first frame of a
    pinch, whatever the service remembered, the session is opened at the
    current time, out of scroll mode, with the cursor and the hand scale
    as the reference for later deltas; the document sees a pressed
    pointer move and a pointer down at the cursor and nothing else. *)
Theorem pinch_start_opens_session (env : Tick) (this : Engine) (p : Points) :
  sees env this = Some p ->
  pinching p = true ->
  wasPinching this = false ->
  wasPinching (frame env this) = true
  /\ pinchStartTime (frame env this) = now env
  /\ isScrolling (frame env this) = false
  /\ lastScrollX (frame env this) = cursorX (frame env this)
  /\ lastScrollY (frame env this) = cursorY (frame env this)
  /\ lastHandScale (frame env this) = handScale (wrist p) (middleMCP p)
  /\ filter actsOnDocument (effects env this)
     = [CallDispatchPointerEvent "pointermove" (cursorX (frame env this)) (cursorY (frame env this)) 1;
        CallDispatchPointerEvent "pointerdown" (cursorX (frame env this)) (cursorY (frame env this)) 1].
Proof.
  intros Hs Hp Hw.
  rewrite (effects_tracked env this p Hs), (frame_tracked env this p Hs).
  cbn [wasPinching pinchStartTime isScrolling lastScrollX lastScrollY lastHandScale cursorX cursorY
       trackedEngine].
  unfold trackedTrace, updateCalls. rewrite Hp, Hw. cbn [andb negb app].
  destruct (callback this); repeat split; reflexivity.
Qed.

(** ** Deltas are taken from frame to frame *)

(** X10.  Pan and zoom deltas are those of the last frame.  When a pinching
    frame is followed by a scroll-mode frame, the second pans by -1.5
    times the cursor movement between the two frames (if it exceeds one
    pixel on an axis and something scrollable is under the cursor) and
    zooms by -3000 times the change of hand scale between the two frames
    (if it exceeds 0.002): nothing accumulates from earlier frames. *)
Theorem deltas_are_frame_to_frame (env1 env2 : Tick) (this : Engine) (p1 p2 : Points) :
  sees env1 this = Some p1 ->
  pinching p1 = true ->
  sees env2 (frame env1 this) = Some p2 ->
  pinching p2 = true ->
  (2000 < now env2 - pinchStartTime (frame env1 this))%Z ->
  scrollCalls (effects env2 (frame env1 this))
  = (if (1 <? PrimFloat.abs (cursorX (frame env2 (frame env1 this)) - cursorX (frame env1 this)))%float
        || (1 <? PrimFloat.abs (cursorY (frame env2 (frame env1 this)) - cursorY (frame env1 this)))%float
     then
       match getScrollParent
               (elementFromPoint env2 (cursorX (frame env2 (frame env1 this)))
                  (cursorY (frame env2 (frame env1 this)))) with
       | Some scrollable =>
           [ScrollBy scrollable
              ((cursorX (frame env2 (frame env1 this)) - cursorX (frame env1 this)) * -1.5)%float
              ((cursorY (frame env2 (frame env1 this)) - cursorY (frame env1 this)) * -1.5)%float]
       | None => []
       end
     else [])
  /\ wheelCalls (effects env2 (frame env1 this))
     = (if (0.002 <? PrimFloat.abs (handScale (wrist p2) (middleMCP p2)
                                    - handScale (wrist p1) (middleMCP p1)))%float
        then
          [CallDispatchWheelEvent (cursorX (frame env2 (frame env1 this)))
             (cursorY (frame env2 (frame env1 this)))
             (- (handScale (wrist p2) (middleMCP p2) - handScale (wrist p1) (middleMCP p1)) * 3000)%float]
        else []).
Proof.
  intros Hs1 Hp1 Hs2 Hp2 Hd. apply Z.ltb_lt in Hd.
  assert (Hfirst : wasPinching (frame env1 this) = true
                   /\ lastScrollX (frame env1 this) = cursorX (frame env1 this)
                   /\ lastScrollY (frame env1 this) = cursorY (frame env1 this)
                   /\ lastHandScale (frame env1 this) = handScale (wrist p1) (middleMCP p1)).
  { rewrite (frame_tracked env1 this p1 Hs1).
    cbn [wasPinching lastScrollX lastScrollY lastHandScale cursorX cursorY trackedEngine].
    rewrite Hp1. repeat split; reflexivity. }
  destruct Hfirst as (Hw & Hlx & Hly & Hls).
  set (s1 := frame env1 this) in *.
  rewrite (effects_tracked env2 s1 p2 Hs2), (frame_tracked env2 s1 p2 Hs2).
  cbn [cursorX cursorY trackedEngine].
  rewrite <- Hlx, <- Hly, <- Hls.
  unfold trackedTrace, updateCalls, releaseClick, held. rewrite Hp2, Hw, Hd. cbn [andb negb app].
  fold (panDeltaX env2 s1 p2) (panDeltaY env2 s1 p2).
  change (handScale (wrist p2) (middleMCP p2) - lastHandScale s1)%float with (scaleDelta s1 p2).
  unfold panCalls, zoomCalls, zoomSensitivity.
  split; repeat (split_cond; cbn [andb orb negb app scrollCalls wheelCalls filter isScrollBy isWheelCall]);
    reflexivity.
Qed.

(** ** A hand with too few landmarks *)

Lemma points_short (hand : Hand) : (List.length hand <= 9)%nat -> points hand = None.
Proof.
  intros H. unfold points.
  assert (H9 : nth_error hand 9 = None) by (apply nth_error_None; lia).
  rewrite H9. destruct (nth_error hand 0), (nth_error hand 4), (nth_error hand 8); reflexivity.
Qed.

(** X11.  A hand with fewer than ten landmarks stops the loop.  If the
    tracked hand has at most nine landmarks, the call throws: nothing is
    dispatched, the host is not updated, the next animation frame is not
    requested, and the pinch session is as it was.  With at most eight
    landmarks cursor and target are untouched; with exactly nine the
    throw comes after the smoothing step, so they have already moved. *)
Theorem short_hand_throws (env : Tick) (this : Engine) (hand : Hand) :
  tracked env this = Some hand ->
  (List.length hand <= 9)%nat ->
  returns env this = false
  /\ effects env this = []
  /\ animationId (frame env this) = animationId this
  /\ wasPinching (frame env this) = wasPinching this
  /\ pinchStartTime (frame env this) = pinchStartTime this
  /\ isScrolling (frame env this) = isScrolling this
  /\ ((List.length hand <= 8)%nat ->
      cursorX (frame env this) = cursorX this /\ cursorY (frame env this) = cursorY this
      /\ targetX (frame env this) = targetX this /\ targetY (frame env this) = targetY this)
  /\ (forall indexTip, nth_error hand 8 = Some indexTip ->
      targetX (frame env this) = ((1 - Landmark.x indexTip) * innerWidth env)%float
      /\ cursorX (frame env this)
         = (cursorX this + (targetX (frame env this) - cursorX this) * 0.2)%float).
Proof.
  intros Ht Hlen.
  assert (Hp := points_short hand Hlen).
  unfold returns, effects, frame.
  rewrite (detectLoop_hand env this hand Ht), (trackHand_throws env hand _ Hp).
  cbn [completion final trace]. unfold thrownEngine.
  split; [reflexivity|]. split; [reflexivity|].
  destruct (nth_error hand 8) as [i|] eqn:E8;
    (split; [reflexivity|]); (split; [reflexivity|]); (split; [reflexivity|]);
    (split; [reflexivity|]); split.
  - intros H8. exfalso.
    assert (Hn : nth_error hand 8 = None) by (apply nth_error_None; lia). congruence.
  - intros indexTip [= <-]. split; reflexivity.
  - intros _. repeat split; reflexivity.
  - intros indexTip H. discriminate H.
Qed.

(** ** The scroll parent is the nearest one *)

Lemma find_first {A : Type} (f : A -> bool) (l : list A) (x : A) :
  find f l = Some x ->
  exists nearer further,
    l = nearer ++ x :: further /\ Forall (fun a => f a = false) nearer /\ f x = true.
Proof.
  induction l as [|a l IH]; [discriminate|].
  cbn [find]. destruct (f a) eqn:Ea.
  - intros [= <-]. exists [], l. repeat split; [constructor | exact Ea].
  - intros H. destruct (IH H) as (nearer & further & -> & Hall & Hx).
    exists (a :: nearer), further. repeat split; [constructor; assumption | exact Hx].
Qed.

Lemma find_none_all {A : Type} (f : A -> bool) (l : list A) :
  find f l = None -> Forall (fun a => f a = false) l.
Proof.
  induction l as [|a l IH]; [constructor|].
  cbn [find]. destruct (f a) eqn:Ea; [discriminate|].
  intros H. constructor; [exact Ea | exact (IH H)].
Qed.

(** The test of [getScrollParent] on one node, read off its fields. *)
Lemma scrollTarget_test (a : Element) :
  scrollTarget a = true
  <-> isHTMLElement a = true
      /\ ((overflowY a <> "visible"%string /\ overflowY a <> "hidden"%string)
          \/ (overflowX a <> "visible"%string /\ overflowX a <> "hidden"%string))
      /\ ((clientHeight a < scrollHeight a)%Z \/ (clientWidth a < scrollWidth a)%Z).
Proof.
  unfold scrollTarget, isScrollable.
  rewrite !andb_true_iff, !orb_true_iff, !andb_true_iff, !negb_true_iff,
    !String.eqb_neq, !Z.ltb_lt.
  reflexivity.
Qed.

(** X12.  [getScrollParent] answers with the nearest scroll container.  A
    node passes when it is an [HTMLElement] whose computed overflow on
    some axis is neither visible nor hidden and whose content is larger
    than its box on some axis.  What [getScrollParent] returns is the
    node itself or one of its ancestors, it passes, and every node nearer
    than it does not.  It returns null exactly when no node of the chain
    passes, and for a null node. *)
Theorem getScrollParent_nearest (node : option Element) :
  let passes := fun a : Element =>
    isHTMLElement a = true
    /\ ((overflowY a <> "visible"%string /\ overflowY a <> "hidden"%string)
        \/ (overflowX a <> "visible"%string /\ overflowX a <> "hidden"%string))
    /\ ((clientHeight a < scrollHeight a)%Z \/ (clientWidth a < scrollWidth a)%Z) in
  match getScrollParent node with
  | Some target =>
      exists element nearer further,
        node = Some element
        /\ ancestors element = nearer ++ target :: further
        /\ Forall (fun a => ~ passes a) nearer
        /\ passes target
  | None =>
      forall element, node = Some element ->
        Forall (fun a => ~ passes a) (ancestors element)
  end.
Proof.
  intros passes.
  assert (Hfails : forall l, Forall (fun a => scrollTarget a = false) l ->
                             Forall (fun a => ~ passes a) l).
  { intros l Hl. eapply Forall_impl; [|exact Hl].
    intros a Ha Hp. apply scrollTarget_test in Hp. congruence. }
  destruct node as [element|]; [|intros element H; discriminate H].
  cbn [getScrollParent]. rewrite getScrollParentFrom_find.
  destruct (find scrollTarget (ancestors element)) as [target|] eqn:Ef.
  - destruct (find_first _ _ _ Ef) as (nearer & further & Hsplit & Hall & Hok).
    exists element, nearer, further.
    split; [reflexivity|]. split; [exact Hsplit|]. split; [exact (Hfails _ Hall)|].
    apply scrollTarget_test. exact Hok.
  - intros e [= <-]. exact (Hfails _ (find_none_all _ _ Ef)).
Qed.

(** ** What [disconnect] releases and what it leaves *)

(** X14.  [disconnect] releases the resources in order.  On a running
    service it cancels the pending animation frame, stops every track of
    the camera stream, removes the video element and closes the
    landmarker, in this order, and does nothing else. *)
Theorem disconnect_releases (this : Engine) (v : Video) (tracks : list MediaStreamTrack)
    (h : HandLandmarker) (id : Z) :
  video this = Some v ->
  srcObject v = Some tracks ->
  handLandmarker this = Some h ->
  animationId this = Some id ->
  id <> 0%Z ->
  trace (disconnect this)
  = CancelAnimationFrame id :: map TrackStop tracks ++ [VideoRemove v; LandmarkerClose h].
Proof.
  intros Hv Hsrc Hh Ha Hid. rewrite disconnect_run. cbn [trace].
  rewrite Hv, Hsrc, Hh, Ha. unfold truthy.
  apply Z.eqb_neq in Hid. rewrite Hid. cbn [negb app].
  now rewrite <- app_assoc.
Qed.

Lemma deliveries_app (efp : float -> float -> option Element) (t u : list Effect) :
  deliveries efp (t ++ u) = deliveries efp t ++ deliveries efp u.
Proof.
  induction t as [|e t IH]; [reflexivity|].
  cbn [app deliveries]. destruct (delivery efp e); now rewrite IH.
Qed.

Lemma reports_app (t u : list Effect) : reports (t ++ u) = reports t ++ reports u.
Proof.
  induction t as [|e t IH]; [reflexivity|].
  destruct e; cbn [app reports]; now rewrite IH.
Qed.

(** Stopping tracks dispatches nothing and tells the host nothing. *)
Lemma stops_are_silent (tracks : list MediaStreamTrack) :
  (forall efp, deliveries efp (map TrackStop tracks) = [])
  /\ count isPointerUp (map TrackStop tracks) = 0%nat
  /\ reports (map TrackStop tracks) = [].
Proof.
  induction tracks as [|t ts (IHd & IHc & IHr)]; [repeat split; reflexivity|].
  repeat split; [intros efp; exact (IHd efp) | exact IHc | exact IHr].
Qed.

(** X15.  [disconnect] does not end a pinch.  Called while a pinch is in
    progress it dispatches no pointerup (nor any other event) and does not
    tell the host; [wasPinching], [isScrolling], the callback, the cursor
    and the stale animation handle stay as they were. *)
Theorem disconnect_leaves_pinch_open (this : Engine) :
  (forall efp, deliveries efp (trace (disconnect this)) = [])
  /\ count isPointerUp (trace (disconnect this)) = 0%nat
  /\ reports (trace (disconnect this)) = []
  /\ wasPinching (final (disconnect this)) = wasPinching this
  /\ isScrolling (final (disconnect this)) = isScrolling this
  /\ pinchStartTime (final (disconnect this)) = pinchStartTime this
  /\ callback (final (disconnect this)) = callback this
  /\ cursorX (final (disconnect this)) = cursorX this
  /\ cursorY (final (disconnect this)) = cursorY this
  /\ animationId (final (disconnect this)) = animationId this.
Proof.
  rewrite disconnect_run. cbn [trace final].
  split; [|split; [|split; [|repeat split]]].
  - intros efp. rewrite !deliveries_app.
    destruct (animationId this) as [id|]; [destruct (truthy id)|];
      destruct (video this) as [[vid [tracks|]]|]; destruct (handLandmarker this);
      cbn [srcObject]; rewrite ?deliveries_app;
      try rewrite (proj1 (stops_are_silent tracks) efp); reflexivity.
  - rewrite !count_app.
    destruct (animationId this) as [id|]; [destruct (truthy id)|];
      destruct (video this) as [[vid [tracks|]]|]; destruct (handLandmarker this);
      cbn [srcObject]; rewrite ?count_app;
      try rewrite (proj1 (proj2 (stops_are_silent tracks))); reflexivity.
  - rewrite !reports_app.
    destruct (animationId this) as [id|]; [destruct (truthy id)|];
      destruct (video this) as [[vid [tracks|]]|]; destruct (handLandmarker this);
      cbn [srcObject]; rewrite ?reports_app;
      try rewrite (proj2 (proj2 (stops_are_silent tracks))); reflexivity.
Qed.

(** ** [connect] *)

(** [detectLoop] never assigns the resources or the callback. *)
Lemma frame_resources (env : Tick) (this : Engine) :
  video (frame env this) = video this
  /\ handLandmarker (frame env this) = handLandmarker this
  /\ callback (frame env this) = callback this.
Proof.
  destruct (frame_cases env this) as [Hu | [Hm | [p Hs]]].
  - rewrite (frame_untracked env this Hu). unfold untrackedEngine.
    destruct (video this) eqn:Ev, (handLandmarker this) eqn:Eh,
      (currentTime env =? lastVideoTime this)%float;
      cbn; rewrite ?Ev, ?Eh; repeat split; reflexivity.
  - destruct (malformed_frame env this Hm) as (_ & _ & _ & _ & _ & _ & _ & _ & Hv & Hh & Hc & _).
    auto.
  - rewrite (frame_tracked env this p Hs). repeat split; reflexivity.
Qed.

(** A call that returns has re-armed the loop. *)
Lemma frame_rearmed (env : Tick) (this : Engine) :
  returns env this = true -> animationId (frame env this) = Some (frameHandle env).
Proof.
  destruct (frame_cases env this) as [Hu | [Hm | [p Hs]]].
  - intros _. rewrite (frame_untracked env this Hu). reflexivity.
  - destruct (malformed_frame env this Hm) as (_ & Hr & _). rewrite Hr. discriminate.
  - intros _. rewrite (frame_tracked env this p Hs). reflexivity.
Qed.

(** X16.  A setup that fails leaves the service inert.  If the fileset or
    the landmarker cannot be created, the camera is refused, or the video
    never loads, [connect] has registered the callback but does not call
    [detectLoop]: no animation frame is requested, [video] stays null,
    and the callback would not be invoked even if frames were run. *)
Theorem failed_setup_never_updates (onUpdate : HandUpdateCallback) (s : Setup) (env : Tick)
    (width height : float) (envs : list Tick) :
  ready s = false ->
  fst (fst (connect onUpdate s env (newService width height))) <> Initialized
  /\ loopEffects (snd (connect onUpdate s env (newService width height))) = []
  /\ callback (connectedService (connect onUpdate s env (newService width height))) = Some onUpdate
  /\ video (connectedService (connect onUpdate s env (newService width height))) = None
  /\ reports (session envs (connectedService (connect onUpdate s env (newService width height)))) = []
  /\ (forall efp,
        deliveries efp
          (session envs (connectedService (connect onUpdate s env (newService width height)))) = []).
Proof.
  intros Hready.
  assert (Hrep : forall n, reports (repeat RequestAnimationFrame n) = []).
  { induction n; [reflexivity | exact IHn]. }
  assert (Hdel : forall efp n, deliveries efp (repeat RequestAnimationFrame n) = []).
  { intros efp n. induction n; [reflexivity | exact IHn]. }
  assert (Hidle : forall this, video this = None ->
            reports (session envs this) = []
            /\ forall efp, deliveries efp (session envs this) = []).
  { intros this Hv. destruct (idle_frames envs this Hv) as (Hs & _). rewrite Hs. auto. }
  unfold ready in Hready. unfold connect, connectedService, initializeHandTracking, startCamera.
  destruct (vision s); cbn [andb] in Hready.
  - destruct (created s) as [h|]; cbn [andb] in Hready.
    + destruct (stream s) as [tracks|]; cbn [andb] in Hready.
      * rewrite Hready. cbn [fst snd loopEffects app].
        destruct (Hidle (set_handLandmarker (Some h) (set_callback (Some onUpdate)
                           (newService width height))) eq_refl) as [Hr Hd].
        repeat split; try reflexivity; try discriminate; assumption.
      * cbn [fst snd loopEffects app].
        destruct (Hidle (set_handLandmarker (Some h) (set_callback (Some onUpdate)
                           (newService width height))) eq_refl) as [Hr Hd].
        repeat split; try reflexivity; try discriminate; assumption.
    + cbn [fst snd loopEffects].
      destruct (Hidle (set_callback (Some onUpdate) (newService width height)) eq_refl) as [Hr Hd].
      repeat split; try reflexivity; try discriminate; assumption.
  - cbn [fst snd loopEffects].
    destruct (Hidle (set_callback (Some onUpdate) (newService width height)) eq_refl) as [Hr Hd].
    repeat split; try reflexivity; try discriminate; assumption.
Qed.

(** X17.  A refused camera leaves the video element in the document.  When
    the landmarker is created but the camera is refused or the video
    never loads, [connect] has already appended the hidden video element
    to the body and has not stored it: a later [disconnect] closes the
    landmarker and removes nothing. *)
Theorem refused_camera_leaves_video_element (onUpdate : HandUpdateCallback) (s : Setup)
    (env : Tick) (width height : float) (h : HandLandmarker) :
  vision s = true ->
  created s = Some h ->
  (stream s = None \/ loaded s = false) ->
  In (AppendChild (element s)) (snd (connect onUpdate s env (newService width height)))
  /\ handLandmarker (connectedService (connect onUpdate s env (newService width height))) = Some h
  /\ trace (disconnect (connectedService (connect onUpdate s env (newService width height))))
     = [LandmarkerClose h].
Proof.
  intros Hv Hc Hcam. rewrite disconnect_run.
  unfold connect, connectedService, initializeHandTracking, startCamera. rewrite Hv, Hc.
  destruct (stream s) as [tracks|].
  - destruct Hcam as [Hn | Hl]; [discriminate|]. rewrite Hl.
    cbn. repeat split; auto.
  - cbn. repeat split; auto.
Qed.

(** X18.  [disconnect] undoes a successful [connect].  After a [connect]
    that reports success, [disconnect] cancels the animation frame that
    [connect]'s call of [detectLoop] requested (a non-zero handle), stops
    every track of the stream [connect] obtained, removes the video
    element [connect] appended and closes the landmarker it created, and
    leaves both fields null. *)
Theorem disconnect_undoes_connect (onUpdate : HandUpdateCallback) (s : Setup) (env : Tick)
    (this : Engine) :
  fst (fst (connect onUpdate s env this)) = Initialized ->
  frameHandle env <> 0%Z ->
  exists h tracks,
    created s = Some h
    /\ stream s = Some tracks
    /\ In (AppendChild (element s)) (snd (connect onUpdate s env this))
    /\ trace (disconnect (connectedService (connect onUpdate s env this)))
       = CancelAnimationFrame (frameHandle env)
         :: map TrackStop tracks
         ++ [VideoRemove (mkVideo (element s) (Some tracks)); LandmarkerClose h]
    /\ video (final (disconnect (connectedService (connect onUpdate s env this)))) = None
    /\ handLandmarker (final (disconnect (connectedService (connect onUpdate s env this)))) = None.
Proof.
  intros Hok Hid. rewrite disconnect_run. cbn [trace final].
  unfold connect, connectedService, initializeHandTracking, startCamera in *.
  destruct (vision s); [|discriminate].
  destruct (created s) as [h|]; [|discriminate].
  destruct (stream s) as [tracks|]; [|discriminate].
  destruct (loaded s); [|discriminate].
  set (s0 := set_video (Some (mkVideo (element s) (Some tracks)))
               (set_handLandmarker (Some h) (set_callback (Some onUpdate) this))) in *.
  assert (Hret : returns env s0 = true).
  { unfold returns. destruct (completion (detectLoop env s0)); [reflexivity | discriminate]. }
  destruct (frame_resources env s0) as (Hv & Hh & _).
  assert (Ha := frame_rearmed env s0 Hret).
  unfold frame in Hv, Hh, Ha.
  destruct (completion (detectLoop env s0)); [|discriminate].
  cbn [fst snd]. rewrite Hv, Hh, Ha. cbn [video handLandmarker s0 set_video set_handLandmarker srcObject].
  unfold truthy. apply Z.eqb_neq in Hid. rewrite Hid. cbn [negb app].
  exists h, tracks. repeat split; try reflexivity.
  - left. reflexivity.
  - now rewrite <- app_assoc.
Qed.

(** X13.  [getScrollParent] is idempotent: what it resolves resolves to
    itself, so resolving from the resolved container changes nothing. *)
Theorem getScrollParent_idempotent (node : option Element) :
  getScrollParent (getScrollParent node) = getScrollParent node.
Proof.
  destruct (getScrollParent node) as [target|] eqn:E; [|reflexivity].
  destruct node as [element|]; [|discriminate].
  destruct (getScrollParent_sound element target E) as [_ Hok].
  cbn [getScrollParent]. destruct target; cbn [getScrollParentFrom]. now rewrite Hok.
Qed.

(** ** More concrete runs *)

(** A successful [connect] on a new service: the element is appended and
    played, the first frame runs, success is logged; the service is the
    one the runs above start from, one frame later. *)
Example connect_run :
  connect 7%nat goodSetup pinchStart (newService 1280 720)
  = (Initialized, frame pinchStart armed,
     [AppendChild 9; Play 9] ++ map Loop (effects pinchStart armed) ++ [ConsoleLog]).
Proof. vm_compute. reflexivity. Qed.

(** A first frame whose hand is cut short: [connect] catches the throw. *)
Example connect_short_hand_run :
  connect 7%nat goodSetup shortFrame (newService 1280 720)
  = (Failed, frame shortFrame armed, [AppendChild 9; Play 9; ConsoleError]).
Proof. vm_compute. reflexivity. Qed.

Lemma scrolling_only_while_pinching_witness :
  implb (isScrolling armed) (wasPinching armed) = true
  /\ implb (isScrolling (frames [pinchStart; pinchHeld; heldAt2500; releaseAt2800] armed))
       (wasPinching (frames [pinchStart; pinchHeld; heldAt2500; releaseAt2800] armed)) = true.
Proof.
  assert (H : implb (isScrolling armed) (wasPinching armed) = true) by (vm_compute; reflexivity).
  exact (conj H (scrolling_only_while_pinching
                   [pinchStart; pinchHeld; heldAt2500; releaseAt2800] armed H)).
Defined.

Lemma same_video_frame_is_skipped_witness :
  currentTime repeatedFrame = currentTime pinchStart
  /\ (currentTime pinchStart =? currentTime pinchStart)%float = true
  /\ effects repeatedFrame (frame pinchStart armed) = [RequestAnimationFrame].
Proof.
  assert (H1 : currentTime repeatedFrame = currentTime pinchStart) by reflexivity.
  assert (H2 : (currentTime pinchStart =? currentTime pinchStart)%float = true)
    by (vm_compute; reflexivity).
  destruct (same_video_frame_is_skipped pinchStart repeatedFrame armed H1 H2) as (He & _).
  exact (conj H1 (conj H2 He)).
Defined.

Lemma no_scroll_outside_scroll_mode_witness :
  (kind pinchHeld (frame pinchStart armed) <> Pinched
   \/ wasPinching (frame pinchStart armed) = false
   \/ (now pinchHeld - pinchStartTime (frame pinchStart armed) <= 2000)%Z)
  /\ scrollCalls (effects pinchHeld (frame pinchStart armed)) = []
  /\ wheelCalls (effects pinchHeld (frame pinchStart armed)) = [].
Proof.
  assert (H : kind pinchHeld (frame pinchStart armed) <> Pinched
              \/ wasPinching (frame pinchStart armed) = false
              \/ (now pinchHeld - pinchStartTime (frame pinchStart armed) <= 2000)%Z).
  { right. right. vm_compute. discriminate. }
  exact (conj H (no_scroll_outside_scroll_mode pinchHeld (frame pinchStart armed) H)).
Defined.

Lemma events_hit_element_under_cursor_witness :
  In (CallDispatchPointerEvent "pointerdown" 704 360 1) (effects pinchStart armed)
  /\ delivery onPanel (CallDispatchPointerEvent "pointerdown" 704 360 1)
     = Some (panel, PointerEvent "pointerdown" 704 360 0.5 0 1)
  /\ onPanel (cursorX (frame pinchStart armed)) (cursorY (frame pinchStart armed)) = Some panel.
Proof.
  assert (H : In (CallDispatchPointerEvent "pointerdown" 704 360 1) (effects pinchStart armed)).
  { vm_compute. right. left. reflexivity. }
  assert (Hd : delivery onPanel (CallDispatchPointerEvent "pointerdown" 704 360 1)
               = Some (panel, PointerEvent "pointerdown" 704 360 0.5 0 1))
    by reflexivity.
  destruct (events_hit_element_under_cursor pinchStart armed _ onPanel _ H Hd) as (Hel & _).
  exact (conj H (conj Hd Hel)).
Defined.

Lemma pinch_start_opens_session_witness :
  sees pinchStart armed = Some pinchPoints
  /\ pinching pinchPoints = true
  /\ wasPinching armed = false
  /\ pinchStartTime (frame pinchStart armed) = now pinchStart
  /\ isScrolling (frame pinchStart armed) = false.
Proof.
  assert (H1 : sees pinchStart armed = Some pinchPoints) by (vm_compute; reflexivity).
  assert (H2 : pinching pinchPoints = true) by (vm_compute; reflexivity).
  assert (H3 : wasPinching armed = false) by (vm_compute; reflexivity).
  destruct (pinch_start_opens_session pinchStart armed pinchPoints H1 H2 H3) as (_ & Ht & Hs & _).
  exact (conj H1 (conj H2 (conj H3 (conj Ht Hs)))).
Defined.

Lemma deltas_are_frame_to_frame_witness :
  sees pinchHeld (frame pinchStart armed) = Some pinchPoints
  /\ pinching pinchPoints = true
  /\ sees heldAt2500 (frame pinchHeld (frame pinchStart armed)) = Some closerPoints
  /\ pinching closerPoints = true
  /\ (2000 < now heldAt2500 - pinchStartTime (frame pinchHeld (frame pinchStart armed)))%Z
  /\ wheelCalls (effects heldAt2500 (frame pinchHeld (frame pinchStart armed)))
     = (if (0.002 <? PrimFloat.abs (handScale (wrist closerPoints) (middleMCP closerPoints)
                                    - handScale (wrist pinchPoints) (middleMCP pinchPoints)))%float
        then
          [CallDispatchWheelEvent
             (cursorX (frame heldAt2500 (frame pinchHeld (frame pinchStart armed))))
             (cursorY (frame heldAt2500 (frame pinchHeld (frame pinchStart armed))))
             (- (handScale (wrist closerPoints) (middleMCP closerPoints)
                 - handScale (wrist pinchPoints) (middleMCP pinchPoints)) * 3000)%float]
        else []).
Proof.
  assert (H1 : sees pinchHeld (frame pinchStart armed) = Some pinchPoints)
    by (vm_compute; reflexivity).
  assert (H2 : pinching pinchPoints = true) by (vm_compute; reflexivity).
  assert (H3 : sees heldAt2500 (frame pinchHeld (frame pinchStart armed)) = Some closerPoints)
    by (vm_compute; reflexivity).
  assert (H4 : pinching closerPoints = true) by (vm_compute; reflexivity).
  assert (H5 : (2000 < now heldAt2500 - pinchStartTime (frame pinchHeld (frame pinchStart armed)))%Z)
    by (vm_compute; reflexivity).
  destruct (deltas_are_frame_to_frame pinchHeld heldAt2500 (frame pinchStart armed)
              pinchPoints closerPoints H1 H2 H3 H4 H5) as (_ & Hwheel).
  exact (conj H1 (conj H2 (conj H3 (conj H4 (conj H5 Hwheel))))).
Defined.

Lemma short_hand_throws_witness :
  tracked shortFrame armed = Some shortHand
  /\ (List.length shortHand <= 9)%nat
  /\ returns shortFrame armed = false
  /\ effects shortFrame armed = []
  /\ animationId (frame shortFrame armed) = animationId armed.
Proof.
  assert (H1 : tracked shortFrame armed = Some shortHand) by (vm_compute; reflexivity).
  assert (H2 : (List.length shortHand <= 9)%nat) by (vm_compute; lia).
  destruct (short_hand_throws shortFrame armed shortHand H1 H2) as (Hr & He & Ha & _).
  exact (conj H1 (conj H2 (conj Hr (conj He Ha)))).
Defined.

Lemma disconnect_releases_witness :
  video holding = Some (mkVideo 9 (Some [1%nat; 2%nat]))
  /\ handLandmarker holding = Some 8%nat
  /\ animationId holding = Some 1%Z
  /\ trace (disconnect holding)
     = CancelAnimationFrame 1 :: map TrackStop [1%nat; 2%nat]
       ++ [VideoRemove (mkVideo 9 (Some [1%nat; 2%nat])); LandmarkerClose 8%nat].
Proof.
  assert (H1 : video holding = Some (mkVideo 9 (Some [1%nat; 2%nat]))) by (vm_compute; reflexivity).
  assert (H2 : srcObject (mkVideo 9 (Some [1%nat; 2%nat])) = Some [1%nat; 2%nat]) by reflexivity.
  assert (H3 : handLandmarker holding = Some 8%nat) by (vm_compute; reflexivity).
  assert (H4 : animationId holding = Some 1%Z) by (vm_compute; reflexivity).
  assert (H5 : 1%Z <> 0%Z) by discriminate.
  exact (conj H1 (conj H3 (conj H4 (disconnect_releases holding _ _ _ _ H1 H2 H3 H4 H5)))).
Defined.

Lemma failed_setup_never_updates_witness :
  ready noLandmarker = false
  /\ loopEffects (snd (connect 7%nat noLandmarker pinchStart (newService 1280 720))) = []
  /\ reports (session [pinchStart; pinchHeld]
                (connectedService (connect 7%nat noLandmarker pinchStart (newService 1280 720)))) = [].
Proof.
  assert (H : ready noLandmarker = false) by reflexivity.
  destruct (failed_setup_never_updates 7%nat noLandmarker pinchStart 1280 720
              [pinchStart; pinchHeld] H) as (_ & Hl & _ & _ & Hr & _).
  exact (conj H (conj Hl Hr)).
Defined.

Lemma refused_camera_leaves_video_element_witness :
  vision noCamera = true
  /\ created noCamera = Some 8%nat
  /\ stream noCamera = None
  /\ trace (disconnect (connectedService (connect 7%nat noCamera pinchStart (newService 1280 720))))
     = [LandmarkerClose 8%nat].
Proof.
  assert (H1 : vision noCamera = true) by reflexivity.
  assert (H2 : created noCamera = Some 8%nat) by reflexivity.
  assert (H3 : stream noCamera = None) by reflexivity.
  destruct (refused_camera_leaves_video_element 7%nat noCamera pinchStart 1280 720 8%nat
              H1 H2 (or_introl H3)) as (_ & _ & Ht).
  exact (conj H1 (conj H2 (conj H3 Ht))).
Defined.

Lemma disconnect_undoes_connect_witness :
  fst (fst (connect 7%nat goodSetup pinchStart (newService 1280 720))) = Initialized
  /\ frameHandle pinchStart <> 0%Z
  /\ video (final (disconnect (connectedService
                                 (connect 7%nat goodSetup pinchStart (newService 1280 720))))) = None.
Proof.
  assert (H1 : fst (fst (connect 7%nat goodSetup pinchStart (newService 1280 720))) = Initialized)
    by (vm_compute; reflexivity).
  assert (H2 : frameHandle pinchStart <> 0%Z) by discriminate.
  destruct (disconnect_undoes_connect 7%nat goodSetup pinchStart (newService 1280 720) H1 H2)
    as (h & tracks & _ & _ & _ & _ & Hv & _).
  exact (conj H1 (conj H2 Hv)).
Defined.
